(** * Provider gateway (dev-server.js): resolution and execution engine

    A shallow embedding of the development gateway of the repository:
    the catalog route with its lexical metadata extraction, the provider
    registry, the module loading of [executeProviderFunction] over Node's
    [require] cache, the construction of the execution parameters and the
    route handlers that turn a thrown error into a response.

    Conventions of the embedding.
    - A JavaScript string is the list of its UTF-16 code units ([list N]);
      [js "abc"] is the string literal "abc".
    - A JavaScript number is kept as the decimal [m * 10^e] it was read
      from; rounding to binary64 is not part of this model.
    - Objects that the engine only reads by key (request parameters,
      module exports, the execution parameters) are finite maps from keys
      to values; objects nested inside values keep their insertion order.
    - Effects (the require cache, the console, the allocation of abort
      signals, the call of a provider function) are threaded through a
      state-and-exception monad over [world].
    - The first definitions take every file under [dist] as a regular file
      reached by the path it is asked for, and every source file that
      exists as one that can be read. Module [Host] embeds the same code
      over a file system with symbolic links and unreadable files, and
      agrees with the first definitions where there are none.
    - A raised value is an [Error] object, kept by its message. What the
      handlers do with a raised value that is no object (a provider that
      rejects with null) is not part of this model. *)

From Stdlib Require Import ZArith NArith List Ascii String Lia Bool.
From stdpp Require Import base option list gmap.

Set Warnings "-register-all".
Local Open Scope N_scope.

(** ** Strings *)

Abbreviation jsstring := (list N) (only parsing).

Definition js (s : string) : list N :=
  List.map N_of_ascii (list_ascii_of_string s).

(** The class [\s] of a JavaScript regular expression. *)
Definition is_space (c : N) : bool :=
  ((9 <=? c) && (c <=? 13)) || (c =? 32) || (c =? 160) || (c =? 5760)
  || ((8192 <=? c) && (c <=? 8202)) || (c =? 8232) || (c =? 8233)
  || (c =? 8239) || (c =? 8287) || (c =? 12288) || (c =? 65279).

(** The class [\w]: ASCII letters, digits and the underscore. *)
Definition is_word (c : N) : bool :=
  ((48 <=? c) && (c <=? 57)) || ((65 <=? c) && (c <=? 90)) || (c =? 95)
  || ((97 <=? c) && (c <=? 122)).

Definition is_digit (c : N) : bool := (48 <=? c) && (c <=? 57).

Definition jsstring_eqb (a b : list N) : bool := bool_decide (a = b).

Fixpoint strip_prefix (p s : list N) : option (list N) :=
  match p, s with
  | [], _ => Some s
  | a :: p', b :: s' => if a =? b then strip_prefix p' s' else None
  | _ :: _, [] => None
  end.

(** First occurrence of [p] in [s]: the text before it and the text after. *)
Fixpoint split_at (p s : list N) : option (list N * list N) :=
  match strip_prefix p s with
  | Some r => Some ([], r)
  | None =>
      match s with
      | [] => None
      | c :: s' =>
          match split_at p s' with
          | Some (b, a) => Some (c :: b, a)
          | None => None
          end
      end
  end.

(** ** Values

    [VFun id] is a function object and [VSignal id] an [AbortSignal], both
    by identity; [VBuiltin name] is a built-in of the runtime, such as the
    members of [Object.prototype]. *)

Inductive value :=
| VUndefined
| VNull
| VBool (b : bool)
| VNaN
| VNum (m e : Z)
| VStr (s : list N)
| VArr (xs : list value)
| VObj (kvs : list (list N * value))
| VFun (id : nat)
| VSignal (id : nat)
| VBuiltin (name : list N).

(** What is thrown: an [Error] object, by its message. A raised value that
    has no [message] to read (null, undefined) is not of this type. *)
Record exn := JsError { message : list N }.

(** [!v] is [negb (truthy v)]. *)
Definition truthy (v : value) : bool :=
  match v with
  | VUndefined | VNull | VNaN => false
  | VBool b => b
  | VNum m _ => negb (m =? 0)%Z
  | VStr s => match s with [] => false | _ => true end
  | _ => true
  end.

(** [o[k] = v] on an ordered object: an existing key keeps its place. *)
Fixpoint obj_set (k : list N) (v : value) (o : list (list N * value))
  : list (list N * value) :=
  match o with
  | [] => [(k, v)]
  | (k', v') :: o' =>
      if jsstring_eqb k k' then (k, v) :: o' else (k', v') :: obj_set k v o'
  end.

Fixpoint obj_get (k : list N) (o : list (list N * value)) : option value :=
  match o with
  | [] => None
  | (k', v') :: o' => if jsstring_eqb k k' then Some v' else obj_get k o'
  end.

(** ** The three lexical rewrites of the catalog route

    Each [String.prototype.replace] with a global regular expression is a
    one-pass scanner over the code units. *)

(** First rewrite, regular expression [/(\w+):\s*/g]: a run of word
    characters followed by a colon and optional white space becomes the run
    between double quotes, a colon and one space.  [w] is the run of word
    characters read so far; [skip] holds while the white space after a
    matched colon is being consumed. *)
Fixpoint quote_keys (skip : bool) (w : list N) (s : list N) : list N :=
  match s with
  | [] => w
  | c :: s' =>
      if skip && is_space c then quote_keys true [] s'
      else if is_word c then quote_keys false (w ++ [c]) s'
      else if (c =? 58) && negb (bool_decide (w = [])) then
        (34 :: w) ++ [34; 58; 32] ++ quote_keys true [] s'
      else w ++ c :: quote_keys false [] s'
  end.

(** Second rewrite, regular expression [/,(\s*[\]\}])/g]: a comma followed
    by optional white space and a closing bracket or brace is dropped.
    [pending] is [Some ws] after a comma followed by the white space [ws]. *)
Fixpoint drop_trailing_commas (pending : option (list N)) (s : list N)
  : list N :=
  match s with
  | [] => match pending with Some ws => 44 :: ws | None => [] end
  | c :: s' =>
      match pending with
      | Some ws =>
          if is_space c then drop_trailing_commas (Some (ws ++ [c])) s'
          else if (c =? 93) || (c =? 125) then
            ws ++ c :: drop_trailing_commas None s'
          else if c =? 44 then
            (44 :: ws) ++ drop_trailing_commas (Some []) s'
          else (44 :: ws) ++ c :: drop_trailing_commas None s'
      | None =>
          if c =? 44 then drop_trailing_commas (Some []) s'
          else c :: drop_trailing_commas None s'
      end
  end.

(** Third rewrite: every single quote (39) becomes a double quote (34). *)
Definition double_quotes (s : list N) : list N :=
  List.map (fun c => if c =? 39 then 34 else c) s.

Definition normalize (literal : list N) : list N :=
  double_quotes (drop_trailing_commas None (quote_keys false [] literal)).

(** [content.match(/export const NAME = (\[[\s\S]*?\]);/)]: capture group 1
    of the leftmost match, which starts at the first occurrence of the
    prefix and stops at the first closing bracket followed by a semicolon
    behind it. *)
Definition match_declaration (name content : list N) : option (list N) :=
  match split_at (js "export const " ++ name ++ js " = [") content with
  | Some (_, rest) =>
      match split_at (js "];") rest with
      | Some (inner, _) => Some (91 :: inner ++ [93])
      | None => None
      end
  | None => None
  end.

(** ** JSON.parse

    A recursive-descent reader of the JSON grammar of ECMA-262.  The fuel
    only bounds the recursion: [parse_value_fuel] below shows that the
    amount given by [JSON_parse] is never used up, and
    [JSON_parse_fuel_independent] that more fuel gives the same result. *)

Inductive parsed (A : Type) :=
| Parsed (a : A) (rest : list N)
| Malformed
| OutOfFuel.
Arguments Parsed {A} a rest.
Arguments Malformed {A}.
Arguments OutOfFuel {A}.

(** JSON white space: tab, line feed, carriage return, space. *)
Definition is_json_space (c : N) : bool :=
  (c =? 9) || (c =? 10) || (c =? 13) || (c =? 32).

Fixpoint skip_ws (s : list N) : list N :=
  match s with
  | c :: s' => if is_json_space c then skip_ws s' else s
  | [] => []
  end.

Definition hex_digit (c : N) : option N :=
  if is_digit c then Some (c - 48)
  else if (97 <=? c) && (c <=? 102) then Some (c - 87)
  else if (65 <=? c) && (c <=? 70) then Some (c - 55)
  else None.

Definition hex4 (a b c d : N) : option N :=
  match hex_digit a, hex_digit b, hex_digit c, hex_digit d with
  | Some x, Some y, Some z, Some w => Some (((x * 16 + y) * 16 + z) * 16 + w)
  | _, _, _, _ => None
  end.

(** The character denoted by a one-letter escape. *)
Definition unescape (c : N) : option N :=
  if (c =? 34) || (c =? 92) || (c =? 47) then Some c
  else if c =? 98 then Some 8
  else if c =? 102 then Some 12
  else if c =? 110 then Some 10
  else if c =? 114 then Some 13
  else if c =? 116 then Some 9
  else None.

(** The characters of a string literal after its opening quote; [acc] holds
    the decoded characters in reverse. *)
Fixpoint parse_chars (s : list N) (acc : list N) : option (list N * list N) :=
  match s with
  | [] => None
  | c :: s' =>
      if c =? 34 then Some (rev acc, s')
      else if c =? 92 then
        match s' with
        | [] => None
        | e :: s'' =>
            if e =? 117 then
              match s'' with
              | h1 :: h2 :: h3 :: h4 :: s3 =>
                  match hex4 h1 h2 h3 h4 with
                  | Some u => parse_chars s3 (u :: acc)
                  | None => None
                  end
              | _ => None
              end
            else
              match unescape e with
              | Some u => parse_chars s'' (u :: acc)
              | None => None
              end
        end
      else if c <? 32 then None
      else parse_chars s' (c :: acc)
  end.

Fixpoint span_digits (s : list N) : list N * list N :=
  match s with
  | c :: s' =>
      if is_digit c then let '(ds, r) := span_digits s' in (c :: ds, r)
      else ([], s)
  | [] => ([], [])
  end.

Definition digits_value (ds : list N) : Z :=
  fold_left (fun acc d => (acc * 10 + Z.of_N (d - 48))%Z) ds 0%Z.

(** A JSON number: an optional minus sign, an integer part without leading
    zero, an optional fraction and an optional exponent. *)
Definition take_minus (s : list N) : bool * list N :=
  match s with
  | c :: r => if c =? 45 then (true, r) else (false, s)
  | [] => (false, s)
  end.

Definition parse_fraction (s : list N) : option (list N * list N) :=
  match s with
  | c :: r =>
      if c =? 46 then
        match span_digits r with
        | ([], _) => None
        | (fp, s') => Some (fp, s')
        end
      else Some ([], s)
  | [] => Some ([], s)
  end.

Definition take_sign (s : list N) : bool * list N :=
  match s with
  | c :: r =>
      if c =? 45 then (true, r) else if c =? 43 then (false, r) else (false, s)
  | [] => (false, s)
  end.

Definition parse_exponent (s : list N) : option (Z * list N) :=
  match s with
  | c :: r =>
      if (c =? 101) || (c =? 69) then
        let '(eneg, r1) := take_sign r in
        match span_digits r1 with
        | ([], _) => None
        | (ep, s') =>
            Some ((if eneg : bool then - digits_value ep
                   else digits_value ep)%Z, s')
        end
      else Some (0%Z, s)
  | [] => Some (0%Z, s)
  end.

Definition parse_number (s : list N) : option (value * list N) :=
  let '(neg, s1) := take_minus s in
  let '(ip, s2) := span_digits s1 in
  match ip with
  | [] => None
  | d :: ds =>
      if (d =? 48) && negb (bool_decide (ds = [])) then None
      else
        match parse_fraction s2 with
        | None => None
        | Some (fp, s3) =>
            match parse_exponent s3 with
            | None => None
            | Some (e, s4) =>
                let m := digits_value (ip ++ fp) in
                Some (VNum (if neg : bool then - m else m)%Z
                           (e - Z.of_nat (length fp))%Z, s4)
            end
        end
  end.

Definition parse_literal (s : list N) : option (value * list N) :=
  match strip_prefix (js "true") s with
  | Some r => Some (VBool true, r)
  | None =>
      match strip_prefix (js "false") s with
      | Some r => Some (VBool false, r)
      | None =>
          match strip_prefix (js "null") s with
          | Some r => Some (VNull, r)
          | None => parse_number s
          end
      end
  end.

Fixpoint parse_value (fuel : nat) (s : list N) : parsed value :=
  match fuel with
  | O => OutOfFuel
  | S n =>
      match skip_ws s with
      | [] => Malformed
      | c :: r =>
          if c =? 91 then
            match skip_ws r with
            | [] => Malformed
            | d :: r' =>
                if d =? 93 then Parsed (VArr []) r'
                else parse_elements n (d :: r') []
            end
          else if c =? 123 then
            match skip_ws r with
            | [] => Malformed
            | d :: r' =>
                if d =? 125 then Parsed (VObj []) r'
                else parse_members n (d :: r') []
            end
          else if c =? 34 then
            match parse_chars r [] with
            | Some (str, r') => Parsed (VStr str) r'
            | None => Malformed
            end
          else
            match parse_literal (c :: r) with
            | Some (v, r') => Parsed v r'
            | None => Malformed
            end
      end
  end
with parse_elements (fuel : nat) (s : list N) (acc : list value)
  : parsed value :=
  match fuel with
  | O => OutOfFuel
  | S n =>
      match parse_value n s with
      | Parsed v r =>
          match skip_ws r with
          | [] => Malformed
          | c :: r' =>
              if c =? 44 then parse_elements n r' (v :: acc)
              else if c =? 93 then Parsed (VArr (rev (v :: acc))) r'
              else Malformed
          end
      | Malformed => Malformed
      | OutOfFuel => OutOfFuel
      end
  end
with parse_members (fuel : nat) (s : list N) (acc : list (list N * value))
  : parsed value :=
  match fuel with
  | O => OutOfFuel
  | S n =>
      match skip_ws s with
      | [] => Malformed
      | q :: r =>
          if q =? 34 then
            match parse_chars r [] with
            | None => Malformed
            | Some (k, r1) =>
                match skip_ws r1 with
                | [] => Malformed
                | c :: r2 =>
                    if c =? 58 then
                      match parse_value n r2 with
                      | Parsed v r3 =>
                          match skip_ws r3 with
                          | [] => Malformed
                          | d :: r4 =>
                              if d =? 44 then
                                parse_members n r4 (obj_set k v acc)
                              else if d =? 125 then
                                Parsed (VObj (obj_set k v acc)) r4
                              else Malformed
                          end
                      | Malformed => Malformed
                      | OutOfFuel => OutOfFuel
                      end
                    else Malformed
                end
            end
          else Malformed
      end
  end.

(** [JSON.parse(text)]: the decoded value, or the [SyntaxError] it throws
    (whose wording, which depends on the engine, is not modelled). *)
Definition JSON_parse (text : list N) : value + exn :=
  match parse_value (S (2 * length text)) text with
  | Parsed v r =>
      match skip_ws r with
      | [] => inl v
      | _ => inr (JsError (js "SyntaxError"))
      end
  | _ => inr (JsError (js "SyntaxError"))
  end.

(** ** The world of the server process

    What calling the function object [VFun id] does is given by [closures]:
    the awaited call returns a value or raises an error. A call that never
    settles is outside this model. Everything [executeProviderFunction]
    does before the awaited call is synchronous, so requests are taken one
    after the other. *)

Inductive outcome (A : Type) :=
| Returned (a : A)
| Thrown (e : exn).
Arguments Returned {A} a.
Arguments Thrown {A} e.

(** A file of the [dist] directory, by what [require] does with it: loading
    it throws, or it yields an exports object. *)
Inductive artifact :=
| Broken (failure : exn)
| Compiled (exports : gmap (list N) value).

(** An entry of the [dist] directory: a file, or a provider directory with
    its files. *)
Inductive node :=
| File (a : artifact)
| Dir (files : gmap (list N) artifact).

Inductive event :=
| Required (path : list N)
| Loaded (path : list N)
| Evicted (path : list N)
| ConsoleError (label detail : list N)
| ConsoleLog (label detail : list N)
| Called (f : nat) (args : gmap (list N) value).

(** [dirname] is [__dirname]; [dist] the entries of the [dist] directory,
    [None] when it does not exist; [sources] the text of
    [providers/<provider>/catalog.ts] for the providers that have one;
    [require_cache] is [require.cache], by file name; [next_signal] counts
    the abort signals made so far; [trace] records the effects in order. *)
Record world := World {
  dirname : list N;
  dist : option (gmap (list N) node);
  sources : gmap (list N) (list N);
  closures : nat -> gmap (list N) value -> outcome value;
  require_cache : gmap (list N) (gmap (list N) value);
  next_signal : nat;
  trace : list event
}.

Definition record_event (ev : event) (w : world) : world :=
  World (dirname w) (dist w) (sources w) (closures w) (require_cache w)
        (next_signal w) (trace w ++ [ev]).

Definition set_cache (c : gmap (list N) (gmap (list N) value)) (w : world)
  : world :=
  World (dirname w) (dist w) (sources w) (closures w) c (next_signal w)
        (trace w).

Definition set_dist (d : option (gmap (list N) node)) (w : world) : world :=
  World (dirname w) d (sources w) (closures w) (require_cache w)
        (next_signal w) (trace w).

(** ** A state and exception monad *)

Definition M (A : Type) : Type := world -> world * outcome A.

Definition ret {A} (a : A) : M A := fun w => (w, Returned a).

Definition throw {A} (e : exn) : M A := fun w => (w, Thrown e).

Definition bind {A B} (m : M A) (k : A -> M B) : M B :=
  fun w =>
    match m w with
    | (w', Returned a) => k a w'
    | (w', Thrown e) => (w', Thrown e)
    end.

Definition try_catch {A} (m : M A) (handler : exn -> M A) : M A :=
  fun w =>
    match m w with
    | (w', Returned a) => (w', Returned a)
    | (w', Thrown e) => handler e w'
    end.

Notation "x <- m ;; k" := (bind m (fun x => k))
  (at level 100, m at next level, right associativity).
Notation "m ;;; k" := (bind m (fun _ => k))
  (at level 100, k at level 200, right associativity).

Definition console_error (label detail : list N) : M unit :=
  fun w => (record_event (ConsoleError label detail) w, Returned tt).

Definition console_log (label detail : list N) : M unit :=
  fun w => (record_event (ConsoleLog label detail) w, Returned tt).

(** ** Paths and the module system *)

(** [path.join] of already normalised components. *)
Fixpoint path_join (parts : list (list N)) : list N :=
  match parts with
  | [] => []
  | [p] => p
  | p :: rest => p ++ 47 :: path_join rest
  end.

(** [this.distDir], from [__dirname] *)
Definition distDir (root : list N) : list N := path_join [root; js "dist"].

(** What [require] is asked for: the helper bundle of line 329, or a file
    of a provider directory. *)
Inductive request :=
| Bundle
| ProviderModule (provider file : list N).

(** The path given to [require], which is also the key of the module in
    [require.cache]. *)
Definition filename (root : list N) (r : request) : list N :=
  match r with
  | Bundle => path_join [root; js "dist"; js "providerContext"]
  | ProviderModule provider file => path_join [distDir root; provider; file]
  end.

(** The file a request resolves to, when there is one: the bundle is the
    file [providerContext.js] of [dist], and a provider module is a file of
    the directory of [dist] named by the provider. *)
Definition on_disk (w : world) (r : request) : option artifact :=
  match dist w with
  | None => None
  | Some d =>
      match r with
      | Bundle =>
          match d !! js "providerContext.js" with
          | Some (File a) => Some a
          | _ => None
          end
      | ProviderModule provider file =>
          match d !! provider with
          | Some (Dir files) => files !! file
          | _ => None
          end
      end
  end.

(** [require(path)]: a cached module is returned as it is; otherwise the
    file is loaded from disk and, when that succeeds, cached. The error for
    a missing file carries the first line of the message of Node. The key
    of the module in the cache is the path: that is the resolved file name
    of Node when no symbolic link is on the way; [Host.require] below has
    the other case. *)
Definition require (r : request) : M (gmap (list N) value) :=
  fun w =>
    let path := filename (dirname w) r in
    let w1 := record_event (Required path) w in
    match require_cache w !! path with
    | Some exports => (w1, Returned exports)
    | None =>
        match on_disk w r with
        | None =>
            (w1, Thrown (JsError (js "Cannot find module '" ++ path ++ [39])))
        | Some (Broken failure) => (w1, Thrown failure)
        | Some (Compiled exports) =>
            (record_event (Loaded path)
               (set_cache (<[path := exports]> (require_cache w)) w1),
             Returned exports)
        end
    end.

(** [require.cache[path]], as a truth value *)
Definition is_cached (r : request) : M bool :=
  fun w =>
    (w, Returned
          (bool_decide (is_Some (require_cache w !! filename (dirname w) r)))).

(** [delete require.cache[path]] *)
Definition evict (r : request) : M unit :=
  fun w =>
    (record_event (Evicted (filename (dirname w) r))
       (set_cache (delete (filename (dirname w) r) (require_cache w)) w),
     Returned tt).

(** [new AbortController().signal] *)
Definition new_signal : M value :=
  fun w =>
    (World (dirname w) (dist w) (sources w) (closures w) (require_cache w)
           (S (next_signal w)) (trace w),
     Returned (VSignal (next_signal w))).

(** [await f(args)] *)
Definition call (f : value) (args : gmap (list N) value) : M value :=
  fun w =>
    match f with
    | VFun id => (record_event (Called id args) w, closures w id args)
    | _ => (w, Thrown (JsError (js "providerFunction is not a function")))
    end.

(** [module.name] *)
Definition member (module : gmap (list N) value) (name : list N) : value :=
  default VUndefined (module !! name).

(** ** The provider registry

    [readdirSync(distDir, { withFileTypes: true })], filtered by
    [isDirectory()] and mapped to the names. *)

Definition is_directory (entry : list N * node) : bool :=
  match snd entry with Dir _ => true | File _ => false end.

Definition getAvailableProviders (w : world) : list (list N) :=
  match dist w with
  | None => []
  | Some d => List.map fst (List.filter is_directory (map_to_list d))
  end.

(** ** executeProviderFunction *)

(** The object literal [functionMap] of lines 332-338. *)
Definition functionMap : list (list N * value) :=
  [ (js "getPosts", VStr (js "getPosts"));
    (js "getSearchPosts", VStr (js "getSearchPosts"));
    (js "getMeta", VStr (js "getMeta"));
    (js "getStream", VStr (js "getStream"));
    (js "getEpisodes", VStr (js "getEpisodes")) ].

(** The properties every object literal inherits from [Object.prototype]. *)
Definition Object_prototype : list (list N) :=
  [ js "constructor"; js "__defineGetter__"; js "__defineSetter__";
    js "hasOwnProperty"; js "__lookupGetter__"; js "__lookupSetter__";
    js "isPrototypeOf"; js "propertyIsEnumerable"; js "toString";
    js "valueOf"; js "__proto__"; js "toLocaleString" ].

(** [literal[key]] on an object literal: own properties first, then the
    prototype chain. *)
Definition property (literal : list (list N * value)) (key : list N) : value :=
  match obj_get key literal with
  | Some v => v
  | None =>
      if bool_decide (key ∈ Object_prototype) then VBuiltin key
      else VUndefined
  end.

(** Lines 351-367: the first [require] of the module of the capability. *)
Definition import_function (provider functionName : list N)
  : M (value * option request) :=
  if jsstring_eqb functionName (js "getPosts")
     || jsstring_eqb functionName (js "getSearchPosts") then
    let modulePath := ProviderModule provider (js "posts.js") in
    module <- require modulePath ;;
    ret (if jsstring_eqb functionName (js "getPosts")
         then member module (js "getPosts")
         else member module (js "getSearchPosts"), Some modulePath)
  else if jsstring_eqb functionName (js "getMeta") then
    let modulePath := ProviderModule provider (js "meta.js") in
    module <- require modulePath ;;
    ret (member module (js "getMeta"), Some modulePath)
  else if jsstring_eqb functionName (js "getStream") then
    let modulePath := ProviderModule provider (js "stream.js") in
    module <- require modulePath ;;
    ret (member module (js "getStream"), Some modulePath)
  else if jsstring_eqb functionName (js "getEpisodes") then
    let modulePath := ProviderModule provider (js "episodes.js") in
    module <- require modulePath ;;
    ret (member module (js "getEpisodes"), Some modulePath)
  else ret (VUndefined, None).

(** Lines 370-382: a cached module is evicted and required again. *)
Definition reload_function (functionName : list N)
    (providerFunction : value) (modulePath : option request) : M value :=
  match modulePath with
  | None => ret providerFunction
  | Some path =>
      cached <- is_cached path ;;
      if cached : bool then
        evict path ;;;
        module <- require path ;;
        ret (if jsstring_eqb functionName (js "getPosts")
                || jsstring_eqb functionName (js "getSearchPosts") then
               if jsstring_eqb functionName (js "getPosts")
               then member module (js "getPosts")
               else member module (js "getSearchPosts")
             else if jsstring_eqb functionName (js "getMeta") then
               member module (js "getMeta")
             else if jsstring_eqb functionName (js "getStream") then
               member module (js "getStream")
             else if jsstring_eqb functionName (js "getEpisodes") then
               member module (js "getEpisodes")
             else providerFunction)
      else ret providerFunction
  end.

(** Lines 349-386: the inner [try] with its [catch]. *)
Definition load_provider_function (provider functionName : list N) : M value :=
  try_catch
    (found <- import_function provider functionName ;;
     reload_function functionName (fst found) (snd found))
    (fun importError =>
       console_error
         (js "Import error for " ++ provider ++ 47 :: functionName ++ [58])
         (message importError) ;;;
       throw (JsError (js "Provider function not found: "
                         ++ provider ++ 47 :: functionName))).

(** Lines 394-399: the object literal with the spread of [params]. *)
Definition executionParams (params : gmap (list N) value) (provider : list N)
    (signal providerContext : value) : gmap (list N) value :=
  <[js "providerContext" := providerContext]>
    (<[js "signal" := signal]>
       (<[js "providerValue" := VStr provider]> params)).

Definition executeProviderFunction (provider functionName : list N)
    (params : gmap (list N) value) : M value :=
  try_catch
    (bundle <- require Bundle ;;
     let providerContext := member bundle (js "providerContext") in
     let actualFunctionName := property functionMap functionName in
     if negb (truthy actualFunctionName) then
       throw (JsError (js "Unknown function: " ++ functionName))
     else
       providerFunction <- load_provider_function provider functionName ;;
       if negb (truthy providerFunction) then
         throw (JsError (js "Function not exported: " ++ functionName
                           ++ js " from " ++ provider))
       else
         signal <- new_signal ;;
         call providerFunction
              (executionParams params provider signal providerContext))
    (fun error =>
       console_error
         (js "Error executing " ++ provider ++ 46 :: functionName ++ [58])
         (message error) ;;;
       throw error).

(** ** Route handlers *)

Inductive response := Respond (status : nat) (body : value).

Definition error_body (text : list N) : value :=
  VObj [(js "error", VStr text)].

(** [JSON.parse] as a computation that may throw *)
Definition JSON_parse_M (text : list N) : M value :=
  match JSON_parse text with
  | inl v => ret v
  | inr syntaxError => throw syntaxError
  end.

(** Lines 87-98 and 101-112 of the catalog route, for one declaration:
    [initial] is the value the variable holds before. *)
Definition decode_declaration (label name content : list N) (initial : value)
  : M value :=
  match match_declaration name content with
  | Some literal =>
      try_catch
        (JSON_parse_M (normalize literal))
        (fun parseError =>
           console_error label (message parseError) ;;; ret initial)
  | None => ret initial
  end.

(** Lines 84-112: what the route extracts from the text of [catalog.ts]. *)
Definition extractCatalogMetadata (catalogContent : list N)
  : M (value * value) :=
  catalog <- decode_declaration (js "Failed to parse catalog:") (js "catalog")
               catalogContent (VArr []) ;;
  genres <- decode_declaration (js "Failed to parse genres:") (js "genres")
              catalogContent (VArr []) ;;
  ret (catalog, genres).

Definition default_catalog : value :=
  VArr [ VObj [(js "title", VStr (js "Popular")); (js "filter", VStr [])];
         VObj [(js "title", VStr (js "Latest"));
               (js "filter", VStr (js "latest"))] ].

(** [v.length === 0] *)
Definition length_is_zero (v : value) : M bool :=
  match v with
  | VArr xs => ret (bool_decide (xs = []))
  | VStr s => ret (bool_decide (s = []))
  | VObj kvs =>
      ret (match obj_get (js "length") kvs with
           | Some (VNum m _) => (m =? 0)%Z
           | _ => false
           end)
  | VUndefined | VNull =>
      throw (JsError (js "Cannot read properties of undefined"))
  | _ => ret false
  end.

(** Lines 76-121: [sources w !! provider] is the text of
    [providers/<provider>/catalog.ts] when that file exists. *)
Definition resolveCatalog (provider : list N) : M (value * value) :=
  found <- (fun w =>
              match sources w !! provider with
              | Some catalogContent => extractCatalogMetadata catalogContent w
              | None => ret (VArr [], VArr []) w
              end) ;;
  empty <- length_is_zero (fst found) ;;
  ret (if empty : bool then default_catalog else fst found, snd found).

(** GET /catalog/:provider *)
Definition catalog_route (provider : list N) : M response :=
  try_catch
    (found <- resolveCatalog provider ;;
     ret (Respond 200
            (VObj [(js "catalog", fst found); (js "genres", snd found)])))
    (fun error =>
       console_error (js "Catalog error:") (message error) ;;;
       ret (Respond 500 (error_body (message error)))).

(** [parseInt(s)] of a string *)
Fixpoint trim_left (s : list N) : list N :=
  match s with
  | c :: s' => if is_space c then trim_left s' else s
  | [] => []
  end.

Fixpoint span_hex (s : list N) : list N * list N :=
  match s with
  | c :: s' =>
      match hex_digit c with
      | Some d => let '(ds, r) := span_hex s' in (d :: ds, r)
      | None => ([], s)
      end
  | [] => ([], [])
  end.

Definition parseInt (s : list N) : value :=
  let s0 := trim_left s in
  let '(neg, s1) := take_sign s0 in
  let signed (m : Z) := VNum (if neg : bool then - m else m)%Z 0 in
  let decimal :=
    match fst (span_digits s1) with
    | [] => VNaN
    | ds => signed (digits_value ds)
    end in
  match s1 with
  | z :: x :: r =>
      if (z =? 48) && ((x =? 120) || (x =? 88)) then
        match fst (span_hex r) with
        | [] => VNaN
        | ds => signed (fold_left (fun acc d => (acc * 16 + Z.of_N d)%Z) ds 0%Z)
        end
      else decimal
  | _ => decimal
  end.

(** The parameters GET /posts/:provider builds from the query string (a map
    of strings): [filter] defaults to the empty string and [page] to 1. *)
Definition posts_params (query : gmap (list N) (list N))
  : gmap (list N) value :=
  let filter := default [] (query !! js "filter") in
  let page :=
    match query !! js "page" with
    | Some text => parseInt text
    | None => VNum 1 0
    end in
  <[js "filter" := VStr filter]> (<[js "page" := page]> ∅).

(** GET /posts/:provider *)
Definition posts_route (provider : list N) (query : gmap (list N) (list N))
  : M response :=
  try_catch
    (result <- executeProviderFunction provider (js "getPosts")
                 (posts_params query) ;;
     ret (Respond 200 result))
    (fun error =>
       console_error (js "Posts error:") (message error) ;;;
       ret (Respond 500 (error_body (message error)))).

(** The body of POST /execute-provider: each field is absent or has the
    type the handler expects. *)
Record execute_body := ExecuteBody {
  body_provider : option (list N);
  body_function : option (list N);
  body_params : option (gmap (list N) value)
}.

(** POST /execute-provider *)
Definition execute_provider_route (body : execute_body) : M response :=
  try_catch
    (match body_provider body, body_function body, body_params body with
     | Some provider, Some functionName, Some params =>
         if bool_decide (provider = []) || bool_decide (functionName = []) then
           ret (Respond 400 (error_body
                  (js "Missing required fields: provider, function, params")))
         else
           result <- executeProviderFunction provider functionName params ;;
           ret (Respond 200 result)
     | _, _, _ =>
         ret (Respond 400 (error_body
                (js "Missing required fields: provider, function, params")))
     end)
    (fun error =>
       console_error (js "Provider execution error:") (message error) ;;;
       ret (Respond 500
              (error_body
                 (match message error with
                  | [] => js "Provider execution failed"
                  | text => text
                  end)))).

(** ** The other content routes *)

(** The parameters GET /search/:provider builds: [query] defaults to the
    empty string and [page] to 1. *)
Definition search_params (query : gmap (list N) (list N))
  : gmap (list N) value :=
  let text := default [] (query !! js "query") in
  let page :=
    match query !! js "page" with
    | Some digits => parseInt digits
    | None => VNum 1 0
    end in
  <[js "searchQuery" := VStr text]> (<[js "page" := page]> ∅).

(** GET /search/:provider *)
Definition search_route (provider : list N) (query : gmap (list N) (list N))
  : M response :=
  try_catch
    (result <- executeProviderFunction provider (js "getSearchPosts")
                 (search_params query) ;;
     ret (Respond 200 result))
    (fun error =>
       console_error (js "Search error:") (message error) ;;;
       ret (Respond 500 (error_body (message error)))).

(** [!text] for a query parameter: absent or empty *)
Definition missing (parameter : option (list N)) : bool :=
  match parameter with
  | None | Some [] => true
  | Some (_ :: _) => false
  end.

(** GET /meta/:provider *)
Definition meta_route (provider : list N) (query : gmap (list N) (list N))
  : M response :=
  try_catch
    (let link := query !! js "link" in
     if missing link then
       ret (Respond 400 (error_body (js "Link parameter is required")))
     else
       result <- executeProviderFunction provider (js "getMeta")
                   (<[js "link" := VStr (default [] link)]> ∅) ;;
       ret (Respond 200 result))
    (fun error =>
       console_error (js "Meta error:") (message error) ;;;
       ret (Respond 500 (error_body (message error)))).

(** GET /stream/:provider: [type] is passed on as it is, undefined when
    the query has none. *)
Definition stream_route (provider : list N) (query : gmap (list N) (list N))
  : M response :=
  try_catch
    (let link := query !! js "link" in
     let type :=
       match query !! js "type" with
       | Some text => VStr text
       | None => VUndefined
       end in
     if missing link then
       ret (Respond 400 (error_body (js "Link parameter is required")))
     else
       result <- executeProviderFunction provider (js "getStream")
                   (<[js "link" := VStr (default [] link)]>
                      (<[js "type" := type]> ∅)) ;;
       ret (Respond 200 result))
    (fun error =>
       console_error (js "Stream error:") (message error) ;;;
       ret (Respond 500 (error_body (message error)))).

(** GET /episodes/:provider *)
Definition episodes_route (provider : list N)
    (query : gmap (list N) (list N)) : M response :=
  try_catch
    (let url := query !! js "url" in
     if missing url then
       ret (Respond 400 (error_body (js "URL parameter is required")))
     else
       result <- executeProviderFunction provider (js "getEpisodes")
                   (<[js "url" := VStr (default [] url)]> ∅) ;;
       ret (Respond 200 result))
    (fun error =>
       console_error (js "Episodes error:") (message error) ;;;
       ret (Respond 500 (error_body (message error)))).

(** ** start: the address shown for the mobile test URL (lines 410-421)

    [os.networkInterfaces()] is a list of interface names, each with its
    addresses, in the order of [Object.keys]. *)

Record iface := Iface {
  family : list N;
  internal : bool;
  address : list N
}.

(** The inner loop: the first address that is IPv4 and not internal
    replaces [localIp] and ends the loop. *)
Fixpoint scan_addresses (addresses : list iface) (localIp : list N)
  : list N :=
  match addresses with
  | [] => localIp
  | a :: rest =>
      if jsstring_eqb (family a) (js "IPv4") && negb (internal a)
      then address a
      else scan_addresses rest localIp
  end.

(** The outer loop, which ends as soon as [localIp] is no longer
    "localhost". *)
Fixpoint scan_interfaces (interfaces : list (list N * list iface))
    (localIp : list N) : list N :=
  match interfaces with
  | [] => localIp
  | (_, addresses) :: rest =>
      let found := scan_addresses addresses localIp in
      if negb (jsstring_eqb found (js "localhost")) then found
      else scan_interfaces rest found
  end.

Definition local_ip (interfaces : list (list N * list iface)) : list N :=
  scan_interfaces interfaces (js "localhost").

(** ** The older copy of the server (port 3001)

    Its catalog route answers with the bare catalog array, and its handler
    of a decoding failure reads [catalogStr], which is declared by [let]
    inside the [try] block and so is not in scope there. *)
Module Legacy.

Definition catalog_route (provider : list N) : M response :=
  try_catch
    (answered <-
       (fun w =>
          match sources w !! provider with
          | Some catalogContent =>
              match match_declaration (js "catalog") catalogContent with
              | Some literal =>
                  try_catch
                    (let catalogStr := normalize literal in
                     console_log (js "Parsing catalog string:") catalogStr ;;;
                     catalog <- JSON_parse_M catalogStr ;;
                     console_log (js "Loaded catalog for " ++ provider ++ [58])
                                 [] ;;;
                     ret (Some (Respond 200 catalog)))
                    (fun parseError =>
                       console_error (js "Failed to parse catalog:")
                                     (message parseError) ;;;
                       console_log (js "Raw catalog match:") literal ;;;
                       throw (JsError (js "catalogStr is not defined")))
                    w
              | None =>
                  (console_log (js "No catalog match found in:")
                               (take 200 catalogContent) ;;;
                   ret None) w
              end
          | None =>
              (console_log (js "Catalog file not found:")
                 (path_join [dirname w; js "providers"; provider;
                             js "catalog.ts"]) ;;;
               ret None) w
          end) ;;
     match answered with
     | Some r => ret r
     | None => ret (Respond 200 default_catalog)
     end)
    (fun error =>
       console_error (js "Catalog error:") (message error) ;;;
       ret (Respond 500 (error_body (message error)))).

End Legacy.

(** ** The host file system: symbolic links and unreadable files

    The definitions above take the path given to [require] as the key of
    the module in [require.cache], and a source file that exists as one
    that can be read. Node keys the cache by the resolved file name of the
    module, the real path of the file, while lines 370-372 look the module
    up and delete it under the path given to [require]; and
    [fs.readFileSync] may raise on a file for which [fs.existsSync] holds.
    The definitions of this module take both into account. [links] maps
    each path that leads through a symbolic link (the file itself, or a
    directory on the way to it) to its real path;
    [unreadable] maps each provider whose [catalog.ts] exists when it is
    looked for but cannot be read (a directory, a file without read
    permission, a file removed in between) to the error of
    [readFileSync]. With no link and no unreadable file they are the
    definitions above ([Host_executeProviderFunction_regular] and
    [Host_catalog_route_readable] below). *)
Module Host.

Definition realpath (links : gmap (list N) (list N)) (path : list N)
  : list N :=
  default path (links !! path).

(** [require(path)]: the module is looked up, and cached, under the real
    path of the file; the file is read through the link. *)
Definition require (links : gmap (list N) (list N)) (r : request)
  : M (gmap (list N) value) :=
  fun w =>
    let path := filename (dirname w) r in
    let resolved := realpath links path in
    let w1 := record_event (Required path) w in
    match require_cache w !! resolved with
    | Some exports => (w1, Returned exports)
    | None =>
        match on_disk w r with
        | None =>
            (w1, Thrown (JsError (js "Cannot find module '" ++ path ++ [39])))
        | Some (Broken failure) => (w1, Thrown failure)
        | Some (Compiled exports) =>
            (record_event (Loaded resolved)
               (set_cache (<[resolved := exports]> (require_cache w)) w1),
             Returned exports)
        end
    end.

(** Lines 351-367 *)
Definition import_function (links : gmap (list N) (list N))
    (provider functionName : list N) : M (value * option request) :=
  if jsstring_eqb functionName (js "getPosts")
     || jsstring_eqb functionName (js "getSearchPosts") then
    let modulePath := ProviderModule provider (js "posts.js") in
    module <- require links modulePath ;;
    ret (if jsstring_eqb functionName (js "getPosts")
         then member module (js "getPosts")
         else member module (js "getSearchPosts"), Some modulePath)
  else if jsstring_eqb functionName (js "getMeta") then
    let modulePath := ProviderModule provider (js "meta.js") in
    module <- require links modulePath ;;
    ret (member module (js "getMeta"), Some modulePath)
  else if jsstring_eqb functionName (js "getStream") then
    let modulePath := ProviderModule provider (js "stream.js") in
    module <- require links modulePath ;;
    ret (member module (js "getStream"), Some modulePath)
  else if jsstring_eqb functionName (js "getEpisodes") then
    let modulePath := ProviderModule provider (js "episodes.js") in
    module <- require links modulePath ;;
    ret (member module (js "getEpisodes"), Some modulePath)
  else ret (VUndefined, None).

(** Lines 370-382: [require.cache[modulePath]] and the [delete] use the
    path as it was joined, not the real path. *)
Definition reload_function (links : gmap (list N) (list N))
    (functionName : list N) (providerFunction : value)
    (modulePath : option request) : M value :=
  match modulePath with
  | None => ret providerFunction
  | Some path =>
      cached <- is_cached path ;;
      if cached : bool then
        evict path ;;;
        module <- require links path ;;
        ret (if jsstring_eqb functionName (js "getPosts")
                || jsstring_eqb functionName (js "getSearchPosts") then
               if jsstring_eqb functionName (js "getPosts")
               then member module (js "getPosts")
               else member module (js "getSearchPosts")
             else if jsstring_eqb functionName (js "getMeta") then
               member module (js "getMeta")
             else if jsstring_eqb functionName (js "getStream") then
               member module (js "getStream")
             else if jsstring_eqb functionName (js "getEpisodes") then
               member module (js "getEpisodes")
             else providerFunction)
      else ret providerFunction
  end.

(** Lines 349-386 *)
Definition load_provider_function (links : gmap (list N) (list N))
    (provider functionName : list N) : M value :=
  try_catch
    (found <- import_function links provider functionName ;;
     reload_function links functionName (fst found) (snd found))
    (fun importError =>
       console_error
         (js "Import error for " ++ provider ++ 47 :: functionName ++ [58])
         (message importError) ;;;
       throw (JsError (js "Provider function not found: "
                         ++ provider ++ 47 :: functionName))).

(** Lines 326-407 *)
Definition executeProviderFunction (links : gmap (list N) (list N))
    (provider functionName : list N) (params : gmap (list N) value)
  : M value :=
  try_catch
    (bundle <- require links Bundle ;;
     let providerContext := member bundle (js "providerContext") in
     let actualFunctionName := property functionMap functionName in
     if negb (truthy actualFunctionName) then
       throw (JsError (js "Unknown function: " ++ functionName))
     else
       providerFunction <-
         load_provider_function links provider functionName ;;
       if negb (truthy providerFunction) then
         throw (JsError (js "Function not exported: " ++ functionName
                           ++ js " from " ++ provider))
       else
         signal <- new_signal ;;
         call providerFunction
              (executionParams params provider signal providerContext))
    (fun error =>
       console_error
         (js "Error executing " ++ provider ++ 46 :: functionName ++ [58])
         (message error) ;;;
       throw error).

(** [fs.existsSync(catalogPath)] *)
Definition existsSync (unreadable : gmap (list N) exn) (provider : list N)
  : M bool :=
  fun w =>
    (w, Returned (bool_decide (is_Some (unreadable !! provider)
                               \/ is_Some (sources w !! provider)))).

(** [fs.readFileSync(catalogPath, 'utf8')] *)
Definition readFileSync (unreadable : gmap (list N) exn) (provider : list N)
  : M (list N) :=
  fun w =>
    match unreadable !! provider with
    | Some failure => (w, Thrown failure)
    | None =>
        match sources w !! provider with
        | Some catalogContent => (w, Returned catalogContent)
        | None =>
            (w, Thrown (JsError (js "ENOENT: no such file or directory")))
        end
    end.

(** Lines 76-121 *)
Definition resolveCatalog (unreadable : gmap (list N) exn)
    (provider : list N) : M (value * value) :=
  found <- (present <- existsSync unreadable provider ;;
            if present : bool then
              catalogContent <- readFileSync unreadable provider ;;
              extractCatalogMetadata catalogContent
            else ret (VArr [], VArr [])) ;;
  empty <- length_is_zero (fst found) ;;
  ret (if empty : bool then default_catalog else fst found, snd found).

(** GET /catalog/:provider *)
Definition catalog_route (unreadable : gmap (list N) exn)
    (provider : list N) : M response :=
  try_catch
    (found <- resolveCatalog unreadable provider ;;
     ret (Respond 200
            (VObj [(js "catalog", fst found); (js "genres", snd found)])))
    (fun error =>
       console_error (js "Catalog error:") (message error) ;;;
       ret (Respond 500 (error_body (message error)))).



End Host.

(** ** Runs of the server

    Between two requests the build may rewrite the [dist] directory. *)

Inductive action :=
| Invoke (provider functionName : list N) (params : gmap (list N) value)
| Rebuild (d : option (gmap (list N) node)).

Definition step (w : world) (a : action) : world :=
  match a with
  | Invoke provider functionName params =>
      fst (executeProviderFunction provider functionName params w)
  | Rebuild d => set_dist d w
  end.

Definition run (actions : list action) (w : world) : world :=
  fold_left step actions w.

(** The calls of provider functions recorded in a trace *)
Definition calls (events : list event) : list (nat * gmap (list N) value) :=
  omap (fun ev => match ev with Called f args => Some (f, args) | _ => None end)
       events.

(** ** Notions used to state the properties *)

(** The closed set of capability names *)
Definition capabilities : list (list N) :=
  [ js "getPosts"; js "getSearchPosts"; js "getMeta"; js "getStream";
    js "getEpisodes" ].

(** The file of the provider directory that lines 351-367 load for a
    capability *)
Definition module_file (functionName : list N) : option (list N) :=
  if jsstring_eqb functionName (js "getPosts")
     || jsstring_eqb functionName (js "getSearchPosts") then Some (js "posts.js")
  else if jsstring_eqb functionName (js "getMeta") then Some (js "meta.js")
  else if jsstring_eqb functionName (js "getStream") then Some (js "stream.js")
  else if jsstring_eqb functionName (js "getEpisodes") then
    Some (js "episodes.js")
  else None.

(** A provider identifier that names one entry of a directory. The [dist]
    directory of [world] is read by such names; an identifier with a
    separator, or one of the names "." and "..", would be normalised by
    [path.join] and is outside this model. *)
Definition path_component (name : list N) : bool :=
  negb (bool_decide (name = []))
  && negb (bool_decide (47%N ∈ name))
  && negb (bool_decide (name = js "."))
  && negb (bool_decide (name = js "..")).

(** What [require] of the helper bundle returns in [w], when it returns *)
Definition bundle_exports (w : world) : option (gmap (list N) value) :=
  match require_cache w !! filename (dirname w) Bundle with
  | Some exports => Some exports
  | None =>
      match on_disk w Bundle with
      | Some (Compiled exports) => Some exports
      | _ => None
      end
  end.

(** The events a computation added to the trace *)
Definition new_events (w w' : world) : list event :=
  drop (length (trace w)) (trace w').

(** [w'] differs from [w] by events that are not calls and by the cache
    entries of the paths in [touched]. *)
Definition frame (touched : list (list N)) (w w' : world) : Prop :=
  dirname w' = dirname w /\ dist w' = dist w /\ sources w' = sources w /\
  closures w' = closures w /\ next_signal w' = next_signal w /\
  (forall k, k ∉ touched -> require_cache w' !! k = require_cache w !! k) /\
  exists evs, trace w' = trace w ++ evs /\ calls evs = [].

Definition Framed {A} (touched : list N -> list (list N)) (m : M A) : Prop :=
  forall w w' res, m w = (w', res) -> frame (touched (dirname w)) w w'.

(** [w'] has the files, the functions and, outside [touched], the cache of
    [w]; its trace extends that of [w] and no abort signal is reused. *)
Definition stable (touched : list (list N)) (w w' : world) : Prop :=
  dirname w' = dirname w /\ dist w' = dist w /\ sources w' = sources w /\
  closures w' = closures w /\ (next_signal w <= next_signal w')%nat /\
  (forall k, k ∉ touched -> require_cache w' !! k = require_cache w !! k) /\
  exists evs, trace w' = trace w ++ evs.

Definition Stable {A} (touched : list N -> list (list N)) (m : M A) : Prop :=
  forall w w' res, m w = (w', res) -> stable (touched (dirname w)) w w'.

(** The paths [executeProviderFunction] may load for a provider *)
Definition engine_paths (provider : list N) (root : list N) : list (list N) :=
  [ filename root Bundle;
    filename root (ProviderModule provider (js "posts.js"));
    filename root (ProviderModule provider (js "meta.js"));
    filename root (ProviderModule provider (js "stream.js"));
    filename root (ProviderModule provider (js "episodes.js")) ].

(** The paths of the four module files of a provider *)
Definition provider_paths (provider : list N) (root : list N)
  : list (list N) :=
  [ filename root (ProviderModule provider (js "posts.js"));
    filename root (ProviderModule provider (js "meta.js"));
    filename root (ProviderModule provider (js "stream.js"));
    filename root (ProviderModule provider (js "episodes.js")) ].

(** The outcome of decoding the declaration [name] of a source text: the
    decoded sequence, or the empty one with the failure on the console. *)
Definition decoded (label name content : list N) (xs : list value)
    (events : list event) : Prop :=
  match match_declaration name content with
  | None => xs = []
  | Some literal =>
      match JSON_parse (normalize literal) with
      | inl v => v = VArr xs
      | inr syntaxError =>
          xs = [] /\ ConsoleError label (message syntaxError) ∈ events
      end
  end.

(** The console lines the extraction writes for the declaration [name]:
    one when the literal is found and does not decode, none otherwise. *)
Definition decode_errors (label name content : list N) : list event :=
  match match_declaration name content with
  | None => []
  | Some literal =>
      match JSON_parse (normalize literal) with
      | inl _ => []
      | inr syntaxError => [ConsoleError label (message syntaxError)]
      end
  end.

(** The catalog of a provider cannot be recovered: the source is missing,
    the declaration is not found or does not decode, or it is empty. *)
Definition catalog_unrecoverable (w : world) (provider : list N) : Prop :=
  match sources w !! provider with
  | None => True
  | Some content =>
      match match_declaration (js "catalog") content with
      | None => True
      | Some literal =>
          match JSON_parse (normalize literal) with
          | inl v => v = VArr []
          | inr _ => True
          end
      end
  end.

(** The abort signal a call was given *)
Definition call_signal (c : nat * gmap (list N) value) : option value :=
  snd c !! js "signal".

(** The keys the engine sets in the execution parameters *)
Definition engine_keys : list (list N) :=
  [ js "providerValue"; js "signal"; js "providerContext" ].

(** ** Well-formed catalog declarations

    A declaration as the providers write it: an array of records with the
    keys [title] and [filter] and single-quoted values, with or without a
    comma after the last record. *)

(** A character that may stand in a value: not a control character and
    none of the double quote, the single quote, the comma, the colon, the
    backslash and the closing bracket. *)
Definition plain_char (c : N) : bool :=
  (32 <=? c)%N
  && negb ((c =? 34) || (c =? 39) || (c =? 44) || (c =? 58) || (c =? 92)
           || (c =? 93))%N.

Definition plain (s : list N) : Prop := Forall (fun c => plain_char c = true) s.

Definition plain_entry (e : list N * list N) : Prop :=
  plain (fst e) /\ plain (snd e).

(** One record, in the syntax of the source *)
Definition render_entry (e : list N * list N) : list N :=
  js "{title: '" ++ fst e ++ js "', filter: '" ++ snd e ++ js "'}".

Fixpoint render_more (es : list (list N * list N)) : list N :=
  match es with
  | [] => []
  | e :: rest => js ", " ++ render_entry e ++ render_more rest
  end.

(** The array literal of the records [e :: es] *)
Definition render_literal (e : list N * list N) (es : list (list N * list N))
    (trailing_comma : bool) : list N :=
  91%N :: render_entry e ++ render_more es
    ++ (if trailing_comma then [44%N] else []) ++ [93%N].

(** The declaration of the constant [name] *)
Definition render_declaration (name literal : list N) : list N :=
  js "export const " ++ name ++ js " = " ++ literal ++ [59%N].

(** The record as a value *)
Definition entry_value (e : list N * list N) : value :=
  VObj [(js "title", VStr (fst e)); (js "filter", VStr (snd e))].

(** The record with its keys between double quotes and its values between
    the quote [q]: with the single quote (39) this is the text after the
    first two rewrites, with the double quote (34) the JSON text. *)
Definition quoted_entry (q : N) (e : list N * list N) : list N :=
  (123 :: 34 :: js "title" ++ [34; 58; 32; q]) ++ fst e
  ++ (q :: 44 :: 32 :: 34 :: js "filter" ++ [34; 58; 32; q]) ++ snd e
  ++ [q; 125].

Fixpoint quoted_more (q : N) (es : list (list N * list N)) : list N :=
  match es with
  | [] => []
  | e :: rest => js ", " ++ quoted_entry q e ++ quoted_more q rest
  end.

(** An address that the loops of [start] accept *)
Definition external_ipv4 (a : iface) : bool :=
  jsstring_eqb (family a) (js "IPv4") && negb (internal a).

(** ** A small installation, for the examples

    A provider directory [demo] with a posts module that exports
    [getPosts], a meta module without exports, a stream module that fails
    to load and an episodes module; a provider directory [faulty] whose
    [getPosts] raises; three source files. *)

Definition demo_closures (id : nat) (args : gmap (list N) value)
  : outcome value :=
  match id with
  | 1%nat => Returned (VArr [VStr (js "old")])
  | 2%nat => Returned (VArr [VStr (js "new")])
  | 3%nat => Thrown (JsError (js "boom"))
  | _ => Returned VUndefined
  end.

(** The exports of [dist/providerContext.js], after [providerContext.ts]:
    one object with the HTTP client, the base-URL resolver, the header
    presets, the [Aes] placeholder, the HTML query helper and the four
    extractors. *)
Definition demo_bundle : gmap (list N) value :=
  {[ js "providerContext" :=
       VObj [ (js "axios", VFun 100);
              (js "getBaseUrl", VFun 101);
              (js "commonHeaders", VObj []);
              (js "Aes", VNull);
              (js "cheerio", VObj []);
              (js "extractors",
               VObj [ (js "hubcloudExtracter", VFun 102);
                      (js "gofileExtracter", VFun 103);
                      (js "superVideoExtractor", VFun 104);
                      (js "gdFlixExtracter", VFun 105) ]) ] ]}.

Definition demo_files : gmap (list N) artifact :=
  <[js "posts.js" := Compiled {[ js "getPosts" := VFun 1 ]}]>
    (<[js "meta.js" := Compiled ∅]>
       (<[js "stream.js" := Broken (JsError (js "Unexpected token"))]>
          (<[js "episodes.js" := Compiled {[ js "getEpisodes" := VFun 3 ]}]>
             ∅))).

Definition demo_dist : gmap (list N) node :=
  <[js "providerContext.js" := File (Compiled demo_bundle)]>
    (<[js "demo" := Dir demo_files]>
       (<[js "faulty" :=
            Dir {[ js "posts.js" := Compiled {[ js "getPosts" := VFun 3 ]} ]}]>
          ∅)).

Definition demo_sources : gmap (list N) (list N) :=
  <[js "demo" :=
      js "export const catalog = [{title: 'Home', filter: ''},]; export const genres = [{title: 'Action', filter: 'action'}];"]>
    (<[js "links" :=
         js "export const catalog = [{title: 'Home', filter: 'http://x'}]; export const genres = [{title: 'Action', filter: 'action'}];"]>
       (<[js "plain" :=
            js "export const genres = [{title: 'Action', filter: 'action'}];"]>
          ∅)).

Definition demo_world : world :=
  World (js "/srv") (Some demo_dist) demo_sources demo_closures ∅ 0 [].

(** Parameters of a caller that hold the three keys the engine sets *)
Definition hostile_params : gmap (list N) value :=
  <[js "providerValue" := VStr (js "other")]>
    (<[js "signal" := VNull]>
       (<[js "providerContext" := VNull]>
          (<[js "filter" := VStr []]> ∅))).

(** The same installation after [dist/demo/stream.js] was removed *)
Definition demo_world_without_stream : world :=
  set_dist
    (Some (<[js "demo" := Dir (delete (js "stream.js") demo_files)]> demo_dist))
    demo_world.

(** A rebuilt posts module of [demo], whose [getPosts] is a new function *)
Definition demo_dist_rebuilt : gmap (list N) node :=
  <[js "demo" :=
      Dir (<[js "posts.js" := Compiled {[ js "getPosts" := VFun 2 ]}]>
             demo_files)]> demo_dist.

(** The same installation before the first build: no [dist] directory *)
Definition demo_world_not_built : world := set_dist None demo_world.

(** The installation with a posts module that also exports
    [getSearchPosts], a stream module that loads, and a meta module whose
    [getMeta] is a string *)
Definition demo_dist_complete : gmap (list N) node :=
  <[js "demo" :=
      Dir (<[js "posts.js" :=
               Compiled (<[js "getSearchPosts" := VFun 2]>
                           {[ js "getPosts" := VFun 1 ]})]>
             (<[js "stream.js" := Compiled {[ js "getStream" := VFun 1 ]}]>
                (<[js "meta.js" :=
                     Compiled {[ js "getMeta" := VStr (js "later") ]}]>
                   demo_files)))]> demo_dist.

Definition demo_world_complete : world :=
  set_dist (Some demo_dist_complete) demo_world.

(** The posts module of [demo] is a symbolic link into a build directory *)
Definition demo_links : gmap (list N) (list N) :=
  {[ js "/srv/dist/demo/posts.js" := js "/srv/build/demo/posts.js" ]}.

(** The [catalog.ts] of [demo] is a directory *)
Definition demo_unreadable : gmap (list N) exn :=
  {[ js "demo" :=
       JsError (js "EISDIR: illegal operation on a directory, read") ]}.

(** Provider functions that raise an error with the message of a failed
    module load *)
Definition imitating_closures (id : nat) (args : gmap (list N) value)
  : outcome value :=
  Thrown (JsError (js "Provider function not found: faulty/getPosts")).

Definition demo_world_imitating : world :=
  World (js "/srv") (Some demo_dist) demo_sources imitating_closures ∅ 0 [].

(** The installation with a directory [faulty] that has no posts module *)
Definition demo_world_without_posts : world :=
  set_dist (Some (<[js "faulty" := Dir ∅]> demo_dist)) demo_world.

(** * Properties *)

Local Close Scope N_scope.

(** ** Worked examples *)

Example match_declaration_example :
  match_declaration (js "catalog")
    (js "import x; export const catalog = [ {title: 'Home', filter: ''}, ]; export const genres = [];")
  = Some (js "[ {title: 'Home', filter: ''}, ]").
Proof. vm_compute. reflexivity. Qed.

Example quote_keys_example :
  quote_keys false [] (js "{title: 'A', n:1}")
  = [123; 34]%N ++ js "title" ++ [34]%N ++ js ": 'A', " ++ [34]%N ++ js "n"
    ++ [34]%N ++ js ": 1}".
Proof. vm_compute. reflexivity. Qed.

Example drop_trailing_commas_example :
  drop_trailing_commas None (js "[1, 2,, 3 , ], {a,}") = js "[1, 2,, 3  ], {a}".
Proof. vm_compute. reflexivity. Qed.

Example JSON_parse_example :
  JSON_parse (normalize (js "[ {title: 'Home', filter: '', page: 2}, ]"))
  = inl (VArr [VObj [ (js "title", VStr (js "Home")); (js "filter", VStr []);
                      (js "page", VNum 2 0) ]]).
Proof. vm_compute. reflexivity. Qed.

Example JSON_parse_rejects :
  JSON_parse (js "[1 2]") = inr (JsError (js "SyntaxError"))
  /\ JSON_parse (js "[01]") = inr (JsError (js "SyntaxError"))
  /\ JSON_parse (js "[] x") = inr (JsError (js "SyntaxError")).
Proof. repeat split; vm_compute; reflexivity. Qed.

Example parseInt_example :
  parseInt (js " -12px") = VNum (-12) 0 /\ parseInt (js "0x1F") = VNum 31 0
  /\ parseInt (js "abc") = VNaN.
Proof. repeat split; vm_compute; reflexivity. Qed.

Example getAvailableProviders_example :
  getAvailableProviders demo_world = [js "faulty"; js "demo"].
Proof. vm_compute. reflexivity. Qed.

Example catalog_route_example :
  snd (catalog_route (js "demo") demo_world)
  = Returned
      (Respond 200
         (VObj [ (js "catalog",
                  VArr [VObj [(js "title", VStr (js "Home"));
                              (js "filter", VStr [])]]);
                 (js "genres",
                  VArr [VObj [(js "title", VStr (js "Action"));
                              (js "filter", VStr (js "action"))]]) ])).
Proof. vm_compute. reflexivity. Qed.

(** ** The JSON reader never runs out of fuel *)

Lemma skip_ws_length (s : list N) : length (skip_ws s) <= length s.
Proof.
  induction s as [|c s IH]; simpl; [lia|].
  destruct (is_json_space c); simpl; lia.
Qed.

Lemma skip_ws_cons (s : list N) (c : N) (r : list N) :
  skip_ws s = c :: r -> S (length r) <= length s.
Proof.
  intros H. pose proof (skip_ws_length s) as L. rewrite H in L. exact L.
Qed.

Lemma strip_prefix_length (p s r : list N) :
  strip_prefix p s = Some r -> length s = length p + length r.
Proof.
  revert s. induction p as [|a p IH]; intros [|b s] H; simpl in *;
    try discriminate.
  - now inversion H.
  - now inversion H.
  - destruct (a =? b)%N; [|discriminate]. rewrite (IH _ H). reflexivity.
Qed.

Lemma parse_chars_length (n : nat) :
  forall (s acc str r : list N),
    length s <= n -> parse_chars s acc = Some (str, r) -> length r < length s.
Proof.
  induction n as [|n IH]; intros s acc str r Hn H.
  - destruct s; simpl in *; [discriminate|lia].
  - destruct s as [|c s]; simpl in H; [discriminate|].
    simpl in Hn. destruct (c =? 34)%N.
    { inversion H; subst. simpl. lia. }
    destruct (c =? 92)%N.
    + destruct s as [|e s]; [discriminate|].
      destruct (e =? 117)%N.
      * destruct s as [|h1 [|h2 [|h3 [|h4 s]]]]; try discriminate.
        destruct (hex4 h1 h2 h3 h4); [|discriminate].
        apply IH in H; simpl in *; lia.
      * destruct (unescape e); [|discriminate].
        apply IH in H; simpl in *; lia.
    + destruct (c <? 32)%N; [discriminate|].
      apply IH in H; simpl in *; lia.
Qed.

Lemma span_digits_length (s ds r : list N) :
  span_digits s = (ds, r) -> length s = length ds + length r.
Proof.
  revert ds r. induction s as [|c s IH]; intros ds r H; simpl in H.
  - inversion H. reflexivity.
  - destruct (is_digit c).
    + destruct (span_digits s) as [ds' r'] eqn:E. inversion H; subst.
      simpl. rewrite (IH _ _ eq_refl). reflexivity.
    + inversion H; subst. reflexivity.
Qed.

Lemma take_minus_length (s r : list N) (b : bool) :
  take_minus s = (b, r) -> length r <= length s.
Proof.
  destruct s as [|c s]; simpl; intros H; [now inversion H|].
  destruct (c =? 45)%N; inversion H; subst; simpl; lia.
Qed.

Lemma take_sign_length (s r : list N) (b : bool) :
  take_sign s = (b, r) -> length r <= length s.
Proof.
  destruct s as [|c s]; simpl; intros H; [now inversion H|].
  destruct (c =? 45)%N; [|destruct (c =? 43)%N];
    inversion H; subst; simpl; lia.
Qed.

Lemma parse_fraction_length (s fp r : list N) :
  parse_fraction s = Some (fp, r) -> length r <= length s.
Proof.
  destruct s as [|c s]; simpl; intros H; [now inversion H|].
  destruct (c =? 46)%N.
  - destruct (span_digits s) as [ds r'] eqn:E.
    apply span_digits_length in E.
    destruct ds; [discriminate|]. inversion H; subst. simpl in *. lia.
  - inversion H; subst; simpl; lia.
Qed.

Lemma parse_exponent_length (s r : list N) (e : Z) :
  parse_exponent s = Some (e, r) -> length r <= length s.
Proof.
  destruct s as [|c s]; simpl; intros H; [now inversion H|].
  destruct ((c =? 101)%N || (c =? 69)%N).
  - destruct (take_sign s) as [eneg r1] eqn:Es.
    apply take_sign_length in Es.
    destruct (span_digits r1) as [ds r'] eqn:E.
    apply span_digits_length in E.
    destruct ds; [discriminate|]. inversion H; subst. simpl in *. lia.
  - inversion H; subst; simpl; lia.
Qed.

Lemma parse_number_length (s : list N) (v : value) (r : list N) :
  parse_number s = Some (v, r) -> length r < length s.
Proof.
  unfold parse_number. intros H.
  destruct (take_minus s) as [neg s1] eqn:E1. apply take_minus_length in E1.
  destruct (span_digits s1) as [ip s2] eqn:E2. apply span_digits_length in E2.
  destruct ip as [|d ds]; [discriminate|].
  destruct ((d =? 48)%N && negb (bool_decide (ds = []))); [discriminate|].
  destruct (parse_fraction s2) as [[fp s3]|] eqn:E3; [|discriminate].
  apply parse_fraction_length in E3.
  destruct (parse_exponent s3) as [[e s4]|] eqn:E4; [|discriminate].
  apply parse_exponent_length in E4.
  inversion H; subst. simpl in *. lia.
Qed.

Lemma parse_literal_length (s : list N) (v : value) (r : list N) :
  parse_literal s = Some (v, r) -> length r < length s.
Proof.
  unfold parse_literal. intros H.
  destruct (strip_prefix (js "true") s) eqn:E1.
  { apply strip_prefix_length in E1. inversion H; subst. simpl in *. lia. }
  destruct (strip_prefix (js "false") s) eqn:E2.
  { apply strip_prefix_length in E2. inversion H; subst. simpl in *. lia. }
  destruct (strip_prefix (js "null") s) eqn:E3.
  { apply strip_prefix_length in E3. inversion H; subst. simpl in *. lia. }
  now apply parse_number_length in H.
Qed.

Ltac ws_facts :=
  repeat match goal with
  | H : skip_ws _ = _ :: _ |- _ => apply skip_ws_cons in H
  end.

Lemma parse_consumes (n : nat) :
  (forall s v r, parse_value n s = Parsed v r -> length r < length s) /\
  (forall s acc v r,
      parse_elements n s acc = Parsed v r -> length r < length s) /\
  (forall s acc v r,
      parse_members n s acc = Parsed v r -> length r < length s).
Proof.
  induction n as [|n (IHv & IHe & IHm)];
    [repeat split; intros; discriminate|].
  repeat split.
  - intros s v r H. simpl in H.
    destruct (skip_ws s) as [|c t] eqn:E; [discriminate|].
    destruct (c =? 91)%N.
    { destruct (skip_ws t) as [|d t'] eqn:E'; [discriminate|].
      pose proof (skip_ws_length t) as L. rewrite E' in L. ws_facts.
      destruct (d =? 93)%N.
      - inversion H; subst. simpl in *. lia.
      - apply IHe in H. simpl in *. lia. }
    destruct (c =? 123)%N.
    { destruct (skip_ws t) as [|d t'] eqn:E'; [discriminate|].
      pose proof (skip_ws_length t) as L. rewrite E' in L. ws_facts.
      destruct (d =? 125)%N.
      - inversion H; subst. simpl in *. lia.
      - apply IHm in H. simpl in *. lia. }
    ws_facts. destruct (c =? 34)%N.
    { destruct (parse_chars t []) as [[str t']|] eqn:Ec; [|discriminate].
      apply (parse_chars_length _ _ _ _ _ (le_n _)) in Ec.
      inversion H; subst. lia. }
    destruct (parse_literal (c :: t)) as [[v' t']|] eqn:El; [|discriminate].
    apply parse_literal_length in El. inversion H; subst. simpl in *. lia.
  - intros s acc v r H. simpl in H.
    destruct (parse_value n s) as [v' t| |] eqn:Ev; try discriminate.
    apply IHv in Ev.
    destruct (skip_ws t) as [|c t'] eqn:E; [discriminate|]. ws_facts.
    destruct (c =? 44)%N; [apply IHe in H; lia|].
    destruct (c =? 93)%N; [|discriminate].
    inversion H; subst. lia.
  - intros s acc v r H. simpl in H.
    destruct (skip_ws s) as [|q t] eqn:E; [discriminate|].
    destruct (q =? 34)%N; [|discriminate].
    destruct (parse_chars t []) as [[k t1]|] eqn:Ec; [|discriminate].
    apply (parse_chars_length _ _ _ _ _ (le_n _)) in Ec.
    destruct (skip_ws t1) as [|c t2] eqn:E1; [discriminate|].
    destruct (c =? 58)%N; [|discriminate].
    destruct (parse_value n t2) as [v' t3| |] eqn:Ev; try discriminate.
    apply IHv in Ev.
    destruct (skip_ws t3) as [|d t4] eqn:E3; [discriminate|]. ws_facts.
    destruct (d =? 44)%N; [apply IHm in H; lia|].
    destruct (d =? 125)%N; [|discriminate].
    inversion H; subst. lia.
Qed.

(** With the fuel [JSON_parse] gives it, the reader stops on its own:
    every failure is a syntax error of the text. *)
Lemma parse_fuel (n : nat) :
  (forall s, 2 * length s + 1 <= n -> parse_value n s <> OutOfFuel) /\
  (forall s acc, 2 * length s + 2 <= n -> parse_elements n s acc <> OutOfFuel) /\
  (forall s acc, 2 * length s + 1 <= n -> parse_members n s acc <> OutOfFuel).
Proof.
  induction n as [|n (IHv & IHe & IHm)]; [repeat split; intros; lia|].
  repeat split.
  - intros s Hn. simpl.
    destruct (skip_ws s) as [|c t] eqn:E; [discriminate|].
    destruct (c =? 91)%N.
    { destruct (skip_ws t) as [|d t'] eqn:E'; [discriminate|].
      pose proof (skip_ws_length t) as L. rewrite E' in L. ws_facts.
      destruct (d =? 93)%N; [discriminate|].
      apply IHe. simpl in *. lia. }
    destruct (c =? 123)%N.
    { destruct (skip_ws t) as [|d t'] eqn:E'; [discriminate|].
      pose proof (skip_ws_length t) as L. rewrite E' in L. ws_facts.
      destruct (d =? 125)%N; [discriminate|].
      apply IHm. simpl in *. lia. }
    destruct (c =? 34)%N.
    { destruct (parse_chars t []) as [[str t']|]; discriminate. }
    destruct (parse_literal (c :: t)) as [[v' t']|]; discriminate.
  - intros s acc Hn. simpl.
    destruct (parse_value n s) as [v' t| |] eqn:Ev; try discriminate.
    + apply (proj1 (parse_consumes n)) in Ev.
      destruct (skip_ws t) as [|c t'] eqn:E; [discriminate|]. ws_facts.
      destruct (c =? 44)%N; [apply IHe; lia|].
      destruct (c =? 93)%N; discriminate.
    + exfalso. revert Ev. apply IHv. lia.
  - intros s acc Hn. simpl.
    destruct (skip_ws s) as [|q t] eqn:E; [discriminate|].
    destruct (q =? 34)%N; [|discriminate].
    destruct (parse_chars t []) as [[k t1]|] eqn:Ec; [|discriminate].
    apply (parse_chars_length _ _ _ _ _ (le_n _)) in Ec.
    destruct (skip_ws t1) as [|c t2] eqn:E1; [discriminate|].
    destruct (c =? 58)%N; [|discriminate].
    ws_facts.
    destruct (parse_value n t2) as [v' t3| |] eqn:Ev; try discriminate.
    + apply (proj1 (parse_consumes n)) in Ev.
      destruct (skip_ws t3) as [|d t4] eqn:E3; [discriminate|]. ws_facts.
      destruct (d =? 44)%N; [apply IHm; lia|].
      destruct (d =? 125)%N; discriminate.
    + exfalso. revert Ev. apply IHv. lia.
Qed.

Lemma parse_value_fuel (text : list N) :
  parse_value (S (2 * length text)) text <> OutOfFuel.
Proof. apply (proj1 (parse_fuel _)). lia. Qed.

(** More fuel does not change what the reader returns. *)
Lemma parse_stable (n : nat) :
  (forall m s, n <= m -> parse_value n s <> OutOfFuel ->
               parse_value m s = parse_value n s) /\
  (forall m s acc, n <= m -> parse_elements n s acc <> OutOfFuel ->
                   parse_elements m s acc = parse_elements n s acc) /\
  (forall m s acc, n <= m -> parse_members n s acc <> OutOfFuel ->
                   parse_members m s acc = parse_members n s acc).
Proof.
  induction n as [|n (IHv & IHe & IHm)];
    [repeat split; intros; simpl in *; congruence|].
  repeat split.
  - intros [|m] s Hm H; [lia|]. simpl in *.
    destruct (skip_ws s) as [|c t]; [reflexivity|].
    destruct (c =? 91)%N.
    { destruct (skip_ws t) as [|d t']; [reflexivity|].
      destruct (d =? 93)%N; [reflexivity|]. apply IHe; [lia|exact H]. }
    destruct (c =? 123)%N; [|reflexivity].
    destruct (skip_ws t) as [|d t']; [reflexivity|].
    destruct (d =? 125)%N; [reflexivity|]. apply IHm; [lia|exact H].
  - intros [|m] s acc Hm H; [lia|]. simpl in *.
    destruct (parse_value n s) as [v t| |] eqn:Ev; try congruence.
    + rewrite (IHv m s) by (try lia; congruence). rewrite Ev.
      destruct (skip_ws t) as [|c t']; [reflexivity|].
      destruct (c =? 44)%N; [|reflexivity]. apply IHe; [lia|exact H].
    + rewrite (IHv m s) by (try lia; congruence). now rewrite Ev.
  - intros [|m] s acc Hm H; [lia|]. simpl in *.
    destruct (skip_ws s) as [|q t]; [reflexivity|].
    destruct (q =? 34)%N; [|reflexivity].
    destruct (parse_chars t []) as [[k t1]|]; [|reflexivity].
    destruct (skip_ws t1) as [|c t2]; [reflexivity|].
    destruct (c =? 58)%N; [|reflexivity].
    destruct (parse_value n t2) as [v t3| |] eqn:Ev; try congruence.
    + rewrite (IHv m t2) by (try lia; congruence). rewrite Ev.
      destruct (skip_ws t3) as [|d t4]; [reflexivity|].
      destruct (d =? 44)%N; [|reflexivity]. apply IHm; [lia|exact H].
    + rewrite (IHv m t2) by (try lia; congruence). now rewrite Ev.
Qed.

Lemma JSON_parse_fuel_independent (text : list N) (m : nat) :
  S (2 * length text) <= m ->
  parse_value m text = parse_value (S (2 * length text)) text.
Proof.
  intros Hm. apply (proj1 (parse_stable _)); [exact Hm|].
  apply parse_value_fuel.
Qed.

(** ** The catalog route *)

Arguments js : simpl never.

Lemma parse_elements_array (n : nat) :
  forall s acc v r, parse_elements n s acc = Parsed v r -> exists xs, v = VArr xs.
Proof.
  induction n as [|n IH]; intros s acc v r H; [discriminate|].
  simpl in H.
  destruct (parse_value n s) as [v' t| |]; try discriminate.
  destruct (skip_ws t) as [|c t']; [discriminate|].
  destruct (c =? 44)%N; [eauto|].
  destruct (c =? 93)%N; [|discriminate].
  inversion H; subst. eauto.
Qed.

Lemma parse_value_bracket (n : nat) (t : list N) (v : value) (r : list N) :
  parse_value n (91%N :: t) = Parsed v r -> exists xs, v = VArr xs.
Proof.
  destruct n as [|n]; [discriminate|]. simpl. intros H.
  destruct (skip_ws t) as [|d t']; [discriminate|].
  destruct (d =? 93)%N.
  - inversion H; subst. eauto.
  - eapply parse_elements_array, H.
Qed.

(** A text that begins with an opening bracket decodes to an array or not
    at all. *)
Lemma JSON_parse_bracket (t : list N) (v : value) :
  JSON_parse (91%N :: t) = inl v -> exists xs, v = VArr xs.
Proof.
  unfold JSON_parse. intros H.
  destruct (parse_value _ _) as [v' r| |] eqn:E; try discriminate.
  destruct (skip_ws r); [|discriminate].
  inversion H; subst. eapply parse_value_bracket, E.
Qed.

Lemma normalize_bracket (s : list N) :
  exists t, normalize (91%N :: s) = 91%N :: t.
Proof. unfold normalize. simpl. eauto. Qed.

Lemma match_declaration_bracket (name content literal : list N) :
  match_declaration name content = Some literal ->
  exists s, literal = 91%N :: s.
Proof.
  unfold match_declaration. intros H.
  destruct (split_at _ content) as [[? rest]|]; [|discriminate].
  destruct (split_at _ rest) as [[inner ?]|]; [|discriminate].
  inversion H. eauto.
Qed.

Lemma decode_declaration_array (label name content : list N) (w : world) :
  exists xs evs,
    decode_declaration label name content (VArr []) w
    = (World (dirname w) (dist w) (sources w) (closures w) (require_cache w)
             (next_signal w) (trace w ++ evs), Returned (VArr xs))
    /\ decoded label name content xs evs
    /\ calls evs = [].
Proof.
  unfold decode_declaration, decoded.
  destruct (match_declaration name content) as [literal|] eqn:Hm.
  - destruct (match_declaration_bracket _ _ _ Hm) as [s ->].
    destruct (normalize_bracket s) as [t Ht]. rewrite Ht.
    unfold try_catch, JSON_parse_M.
    destruct (JSON_parse (91%N :: t)) as [v|syntaxError] eqn:Hp.
    + destruct (JSON_parse_bracket _ _ Hp) as [xs ->].
      exists xs, []. rewrite app_nil_r. destruct w; auto.
    + exists [], [ConsoleError label (message syntaxError)].
      repeat split; [apply list_elem_of_In; now left].
  - exists [], []. rewrite app_nil_r. destruct w; auto.
Qed.

Lemma decoded_app_l (label name content : list N) (xs : list value)
    (evs evs' : list event) :
  decoded label name content xs evs -> decoded label name content xs (evs ++ evs').
Proof.
  unfold decoded. destruct (match_declaration name content); [|auto].
  destruct (JSON_parse _); [auto|].
  intros [-> Hin]. split; [reflexivity|]. apply elem_of_app. now left.
Qed.

Lemma decoded_app_r (label name content : list N) (xs : list value)
    (evs evs' : list event) :
  decoded label name content xs evs' -> decoded label name content xs (evs ++ evs').
Proof.
  unfold decoded. destruct (match_declaration name content); [|auto].
  destruct (JSON_parse _); [auto|].
  intros [-> Hin]. split; [reflexivity|]. apply elem_of_app. now right.
Qed.

Lemma extract_spec (content : list N) (w : world) :
  exists catalog genres evs,
    extractCatalogMetadata content w
    = (World (dirname w) (dist w) (sources w) (closures w) (require_cache w)
             (next_signal w) (trace w ++ evs),
       Returned (VArr catalog, VArr genres))
    /\ decoded (js "Failed to parse catalog:") (js "catalog") content catalog evs
    /\ decoded (js "Failed to parse genres:") (js "genres") content genres evs
    /\ calls evs = [].
Proof.
  unfold extractCatalogMetadata, bind.
  destruct (decode_declaration_array (js "Failed to parse catalog:")
              (js "catalog") content w) as (catalog & evs1 & -> & Hc & Hq1).
  match goal with
  | |- context [decode_declaration ?l ?n ?c ?i ?w1] =>
      destruct (decode_declaration_array l n c w1)
        as (genres & evs2 & -> & Hg & Hq2)
  end.
  exists catalog, genres, (evs1 ++ evs2). simpl. rewrite <- app_assoc.
  repeat split.
  - now apply decoded_app_l.
  - now apply decoded_app_r.
  - unfold calls in *. rewrite omap_app, Hq1, Hq2. reflexivity.
Qed.

Lemma decode_declaration_exact (label name content : list N) (w : world) :
  exists xs,
    decode_declaration label name content (VArr []) w
    = (World (dirname w) (dist w) (sources w) (closures w) (require_cache w)
             (next_signal w) (trace w ++ decode_errors label name content),
       Returned (VArr xs))
    /\ decoded label name content xs (decode_errors label name content).
Proof.
  unfold decode_declaration, decoded, decode_errors.
  destruct (match_declaration name content) as [literal|] eqn:Hm.
  - destruct (match_declaration_bracket _ _ _ Hm) as [s ->].
    destruct (normalize_bracket s) as [t Ht]. rewrite Ht.
    unfold try_catch, JSON_parse_M.
    destruct (JSON_parse (91%N :: t)) as [v|syntaxError] eqn:Hp.
    + destruct (JSON_parse_bracket _ _ Hp) as [xs ->].
      exists xs. rewrite app_nil_r. destruct w; auto.
    + exists []. repeat split. apply list_elem_of_In. now left.
  - exists []. rewrite app_nil_r. destruct w; auto.
Qed.

(** C8, as the code has it. For every source text the extraction returns,
    without raising, a pair of two sequences. Each field, on its own, is
    the decoded sequence of its declaration when that is found and decodes,
    and is empty otherwise. The console gets one line for each declaration
    that is found and does not decode, and nothing else: a missing
    declaration is not logged. Nothing but the console changes. *)
Theorem extractCatalogMetadata_total (content : list N) (w : world) :
  let catalog_errors :=
    decode_errors (js "Failed to parse catalog:") (js "catalog") content in
  let genres_errors :=
    decode_errors (js "Failed to parse genres:") (js "genres") content in
  exists catalog genres,
    extractCatalogMetadata content w
    = (World (dirname w) (dist w) (sources w) (closures w) (require_cache w)
             (next_signal w) (trace w ++ catalog_errors ++ genres_errors),
       Returned (VArr catalog, VArr genres))
    /\ decoded (js "Failed to parse catalog:") (js "catalog") content catalog
               catalog_errors
    /\ decoded (js "Failed to parse genres:") (js "genres") content genres
               genres_errors
    /\ (match_declaration (js "catalog") content = None ->
        catalog = [] /\ catalog_errors = [])
    /\ (match_declaration (js "genres") content = None ->
        genres = [] /\ genres_errors = []).
Proof.
  intros catalog_errors genres_errors.
  unfold extractCatalogMetadata, bind.
  destruct (decode_declaration_exact (js "Failed to parse catalog:")
              (js "catalog") content w) as (catalog & -> & Hc).
  match goal with
  | |- context [decode_declaration ?l ?n ?c ?i ?w1] =>
      destruct (decode_declaration_exact l n c w1) as (genres & -> & Hg)
  end.
  exists catalog, genres. cbn [dirname dist sources closures require_cache
    next_signal trace]. rewrite <- app_assoc.
  split; [reflexivity|]. split; [exact Hc|]. split; [exact Hg|].
  subst catalog_errors genres_errors. unfold decoded, decode_errors in *.
  split; intros Hm; rewrite Hm in *; auto.
Qed.

Lemma extractCatalogMetadata_total_witness :
  exists catalog genres,
    extractCatalogMetadata (js "export const catalog = [{title: 'Home', filter: ''},]; export const genres = [oops];")
      demo_world
    = (World (dirname demo_world) (dist demo_world) (sources demo_world)
             (closures demo_world) (require_cache demo_world)
             (next_signal demo_world)
             (trace demo_world
                ++ [ConsoleError (js "Failed to parse genres:")
                      (js "SyntaxError")]),
       Returned (VArr catalog, VArr genres))
    /\ catalog = [entry_value (js "Home", [])] /\ genres = [].
Proof.
  destruct (extractCatalogMetadata_total
              (js "export const catalog = [{title: 'Home', filter: ''},]; export const genres = [oops];")
              demo_world)
    as (catalog & genres & E & Hc & Hg & _).
  exists catalog, genres. split; [exact E|].
  vm_compute in Hc, Hg. destruct Hg as [Hg _].
  inversion Hc. subst. split; reflexivity.
Defined.

(** C8, as the spec states it, fails: this source declares no catalog, the
    extraction returns the empty catalog and writes nothing to the
    console. *)
Lemma missing_declaration_not_logged :
  let content :=
    js "export const genres = [{title: 'Action', filter: 'action'}];" in
  match_declaration (js "catalog") content = None
  /\ snd (extractCatalogMetadata content demo_world)
     = Returned (VArr [], VArr [entry_value (js "Action", js "action")])
  /\ new_events demo_world (fst (extractCatalogMetadata content demo_world))
     = [].
Proof. repeat split; vm_compute; reflexivity. Qed.

(** C6, as the code has it. When the catalog of a provider cannot be
    recovered, the route answers with the two-entry default catalog; the
    genres are extracted on their own: empty when the source is missing,
    and otherwise what the genres declaration decodes to (empty when it is
    missing or does not decode). *)
Theorem resolveCatalog_default (w : world) (provider : list N) :
  catalog_unrecoverable w provider ->
  exists genres evs w',
    resolveCatalog provider w = (w', Returned (default_catalog, VArr genres))
    /\ trace w' = trace w ++ evs
    /\ match sources w !! provider with
       | None => genres = []
       | Some content =>
           decoded (js "Failed to parse genres:") (js "genres") content
                   genres evs
       end.
Proof.
  unfold catalog_unrecoverable, resolveCatalog, bind. intros H.
  destruct (sources w !! provider) as [content|].
  - destruct (extract_spec content w) as (c & g & evs & -> & Hc & Hg & _).
    assert (c = []) as ->.
    { unfold decoded in Hc.
      destruct (match_declaration (js "catalog") content); [|assumption].
      destruct (JSON_parse _); [congruence | tauto]. }
    simpl. eauto 6.
  - simpl. exists [], [], w. rewrite app_nil_r. auto.
Qed.

Lemma resolveCatalog_default_witness :
  catalog_unrecoverable demo_world (js "links")
  /\ exists genres evs w',
       resolveCatalog (js "links") demo_world
       = (w', Returned (default_catalog, VArr genres))
       /\ trace w' = trace demo_world ++ evs
       /\ match sources demo_world !! js "links" with
          | None => genres = []
          | Some content =>
              decoded (js "Failed to parse genres:") (js "genres") content
                      genres evs
          end.
Proof.
  split.
  - vm_compute. exact I.
  - apply (resolveCatalog_default demo_world (js "links")).
    vm_compute. exact I.
Defined.

(** C6, as the spec states it, fails: the source of [plain] declares no
    catalog, and the answer carries the default catalog together with a
    genres sequence that is not empty. *)
Lemma resolveCatalog_genres_counterexample :
  catalog_unrecoverable demo_world (js "plain")
  /\ snd (resolveCatalog (js "plain") demo_world)
     = Returned (default_catalog,
                 VArr [VObj [(js "title", VStr (js "Action"));
                             (js "filter", VStr (js "action"))]])
  /\ snd (resolveCatalog (js "plain") demo_world)
     <> Returned (default_catalog, VArr []).
Proof.
  split; [vm_compute; exact I|]. split; [vm_compute; reflexivity|].
  vm_compute. discriminate.
Qed.

(** ** Frames: what a computation leaves alone *)

Lemma calls_app (evs evs' : list event) :
  calls (evs ++ evs') = calls evs ++ calls evs'.
Proof. unfold calls. apply omap_app. Qed.

Lemma frame_refl (touched : list (list N)) (w : world) : frame touched w w.
Proof.
  repeat split; auto. exists []. now rewrite app_nil_r.
Qed.

Lemma frame_trans (touched : list (list N)) (w1 w2 w3 : world) :
  frame touched w1 w2 -> frame touched w2 w3 -> frame touched w1 w3.
Proof.
  intros (D1 & F1 & S1 & C1 & N1 & K1 & evs1 & T1 & Q1)
         (D2 & F2 & S2 & C2 & N2 & K2 & evs2 & T2 & Q2).
  repeat split; try congruence.
  - intros k Hk. rewrite K2, K1; auto.
  - exists (evs1 ++ evs2). rewrite T2, T1, <- app_assoc, calls_app, Q1, Q2.
    auto.
Qed.

Lemma frame_event (touched : list (list N)) (w : world) (ev : event) :
  calls [ev] = [] -> frame touched w (record_event ev w).
Proof. intros H. repeat split; auto. exists [ev]. auto. Qed.

Create HintDb framed.

Lemma Framed_ret {A} (touched : list N -> list (list N)) (a : A) :
  Framed touched (ret a).
Proof. intros w w' res [= <- <-]. apply frame_refl. Qed.

Lemma Framed_throw {A} (touched : list N -> list (list N)) (e : exn) :
  Framed touched (throw (A := A) e).
Proof. intros w w' res [= <- <-]. apply frame_refl. Qed.

Lemma Framed_bind {A B} (touched : list N -> list (list N))
    (m : M A) (k : A -> M B) :
  Framed touched m -> (forall a, Framed touched (k a)) ->
  Framed touched (bind m k).
Proof.
  intros Hm Hk w w' res. unfold bind.
  destruct (m w) as [w1 [a|e]] eqn:E; intros H.
  - pose proof (Hm _ _ _ E) as F1. pose proof (Hk a _ _ _ H) as F2.
    destruct F1 as (D1 & F1). rewrite D1 in F2.
    eapply frame_trans; [split; eauto|exact F2].
  - inversion H; subst. eapply Hm, E.
Qed.

Lemma Framed_try_catch {A} (touched : list N -> list (list N))
    (m : M A) (handler : exn -> M A) :
  Framed touched m -> (forall e, Framed touched (handler e)) ->
  Framed touched (try_catch m handler).
Proof.
  intros Hm Hh w w' res. unfold try_catch.
  destruct (m w) as [w1 [a|e]] eqn:E; intros H.
  - inversion H; subst. eapply Hm, E.
  - pose proof (Hm _ _ _ E) as F1. pose proof (Hh e _ _ _ H) as F2.
    destruct F1 as (D1 & F1). rewrite D1 in F2.
    eapply frame_trans; [split; eauto|exact F2].
Qed.

Lemma Framed_console_error (touched : list N -> list (list N))
    (label detail : list N) :
  Framed touched (console_error label detail).
Proof. intros w w' res [= <- <-]. now apply frame_event. Qed.

Lemma Framed_is_cached (touched : list N -> list (list N)) (r : request) :
  Framed touched (is_cached r).
Proof. intros w w' res [= <- <-]. apply frame_refl. Qed.

Lemma frame_cache (touched : list (list N)) (w : world)
    (c : gmap (list N) (gmap (list N) value)) :
  (forall k, k ∉ touched -> c !! k = require_cache w !! k) ->
  frame touched w (set_cache c w).
Proof.
  intros H. repeat split; auto. exists []. now rewrite app_nil_r.
Qed.

Lemma Framed_evict (touched : list N -> list (list N)) (r : request) :
  (forall root, filename root r ∈ touched root) -> Framed touched (evict r).
Proof.
  intros Hin w w' res [= <- <-].
  eapply frame_trans; [|now apply frame_event].
  apply frame_cache. intros k Hk. apply lookup_delete_ne.
  intros <-. apply Hk, Hin.
Qed.

Lemma Framed_require (touched : list N -> list (list N)) (r : request) :
  (forall root, filename root r ∈ touched root) -> Framed touched (require r).
Proof.
  intros Hin w w' res. unfold require.
  destruct (require_cache w !! filename (dirname w) r).
  { intros [= <- <-]. now apply frame_event. }
  destruct (on_disk w r) as [[failure|exports]|].
  - intros [= <- <-]. now apply frame_event.
  - intros [= <- <-].
    apply (frame_trans _ _ (record_event (Required (filename (dirname w) r)) w));
      [now apply frame_event|].
    eapply frame_trans; [|now apply frame_event].
    apply frame_cache. intros k Hk. apply lookup_insert_ne.
    intros <-. apply Hk, Hin.
  - intros [= <- <-]. now apply frame_event.
Qed.

#[local] Hint Resolve Framed_ret Framed_throw Framed_console_error
  Framed_is_cached : framed.
#[local] Hint Extern 2 (Framed _ (bind _ _)) =>
  apply Framed_bind; [|intros ?] : framed.
#[local] Hint Extern 2 (Framed _ (try_catch _ _)) =>
  apply Framed_try_catch; [|intros ?] : framed.
#[local] Hint Extern 2 (Framed _ (if ?b then _ else _)) =>
  destruct b : framed.

Lemma provider_paths_posts (provider root : list N) :
  filename root (ProviderModule provider (js "posts.js"))
  ∈ provider_paths provider root.
Proof. unfold provider_paths. set_solver. Qed.

Lemma provider_paths_meta (provider root : list N) :
  filename root (ProviderModule provider (js "meta.js"))
  ∈ provider_paths provider root.
Proof. unfold provider_paths. set_solver. Qed.

Lemma provider_paths_stream (provider root : list N) :
  filename root (ProviderModule provider (js "stream.js"))
  ∈ provider_paths provider root.
Proof. unfold provider_paths. set_solver. Qed.

Lemma provider_paths_episodes (provider root : list N) :
  filename root (ProviderModule provider (js "episodes.js"))
  ∈ provider_paths provider root.
Proof. unfold provider_paths. set_solver. Qed.

#[local] Hint Resolve provider_paths_posts provider_paths_meta
  provider_paths_stream provider_paths_episodes : framed.
#[local] Hint Extern 1 (Framed _ (require _)) =>
  apply Framed_require; intros ? : framed.
#[local] Hint Extern 1 (Framed _ (evict _)) =>
  apply Framed_evict; intros ? : framed.

Lemma Framed_bind_post {A B} (touched : list N -> list (list N))
    (m : M A) (k : A -> M B) (Q : A -> Prop) :
  Framed touched m ->
  (forall w w' a, m w = (w', Returned a) -> Q a) ->
  (forall a, Q a -> Framed touched (k a)) ->
  Framed touched (bind m k).
Proof.
  intros Hm HQ Hk w w' res. unfold bind.
  destruct (m w) as [w1 [a|e]] eqn:E; intros H.
  - pose proof (Hm _ _ _ E) as F1.
    pose proof (Hk a (HQ _ _ _ E) _ _ _ H) as F2.
    destruct F1 as (D1 & F1). rewrite D1 in F2.
    eapply frame_trans; [split; eauto|exact F2].
  - inversion H; subst. eapply Hm, E.
Qed.

Lemma Framed_reload_function (provider functionName file : list N)
    (providerFunction : value) :
  (forall root,
      filename root (ProviderModule provider file)
      ∈ provider_paths provider root) ->
  Framed (provider_paths provider)
         (reload_function functionName providerFunction
                          (Some (ProviderModule provider file))).
Proof.
  intros Hin. unfold reload_function.
  apply Framed_bind; [auto with framed|]. intros [|]; [|auto with framed].
  apply Framed_bind; [now apply Framed_evict|]. intros _.
  apply Framed_bind; [now apply Framed_require|]. intros module.
  auto with framed.
Qed.

(** ** The module of a capability *)

Lemma module_file_cases (functionName file : list N) :
  module_file functionName = Some file ->
  (functionName = js "getPosts" /\ file = js "posts.js")
  \/ (functionName = js "getSearchPosts" /\ file = js "posts.js")
  \/ (functionName = js "getMeta" /\ file = js "meta.js")
  \/ (functionName = js "getStream" /\ file = js "stream.js")
  \/ (functionName = js "getEpisodes" /\ file = js "episodes.js").
Proof.
  unfold module_file, jsstring_eqb.
  repeat case_bool_decide; simpl; intros [= <-]; subst; tauto.
Qed.

Lemma module_file_capability (functionName : list N) :
  functionName ∈ capabilities <-> is_Some (module_file functionName).
Proof.
  rewrite list_elem_of_In. split.
  - simpl. intros [<-|[<-|[<-|[<-|[<-|[]]]]]]; now eexists.
  - intros [file H]. apply module_file_cases in H. simpl.
    intuition (subst; auto 10).
Qed.

Lemma import_function_eq (provider functionName file : list N) :
  module_file functionName = Some file ->
  import_function provider functionName
  = (module <- require (ProviderModule provider file) ;;
     ret (member module functionName, Some (ProviderModule provider file))).
Proof.
  intros H. apply module_file_cases in H.
  destruct H as [[-> ->]|[[-> ->]|[[-> ->]|[[-> ->]|[-> ->]]]]]; reflexivity.
Qed.

Lemma reload_function_eq (provider functionName file : list N)
    (providerFunction : value) :
  module_file functionName = Some file ->
  reload_function functionName providerFunction
                  (Some (ProviderModule provider file))
  = (cached <- is_cached (ProviderModule provider file) ;;
     if cached : bool then
       evict (ProviderModule provider file) ;;;
       module <- require (ProviderModule provider file) ;;
       ret (member module functionName)
     else ret providerFunction).
Proof.
  intros H. apply module_file_cases in H.
  destruct H as [[-> ->]|[[-> ->]|[[-> ->]|[[-> ->]|[-> ->]]]]]; reflexivity.
Qed.

Lemma import_function_other (provider functionName : list N) :
  module_file functionName = None ->
  import_function provider functionName = ret (VUndefined, None).
Proof.
  unfold module_file, import_function.
  repeat match goal with
  | |- context [if ?b then _ else _] => destruct b; try discriminate
  end.
  reflexivity.
Qed.

Lemma module_file_paths (provider functionName file root : list N) :
  module_file functionName = Some file ->
  filename root (ProviderModule provider file) ∈ provider_paths provider root.
Proof.
  intros H. apply module_file_cases in H.
  destruct H as [[-> ->]|[[-> ->]|[[-> ->]|[[-> ->]|[-> ->]]]]];
    auto with framed.
Qed.

Lemma Framed_load_provider_function (provider functionName : list N) :
  Framed (provider_paths provider)
         (load_provider_function provider functionName).
Proof.
  unfold load_provider_function.
  apply Framed_try_catch; [|auto with framed].
  destruct (module_file functionName) as [file|] eqn:Hf.
  - rewrite (import_function_eq _ _ _ Hf).
    apply (Framed_bind_post _ _ _
             (fun found => snd found = Some (ProviderModule provider file))).
    + apply Framed_bind; [|auto with framed].
      apply Framed_require. intros root. eapply module_file_paths, Hf.
    + intros w w' [pf path]. unfold bind, ret.
      destruct (require _ w) as [w1 [module|e]]; [|discriminate].
      now intros [= _ _ <-].
    + intros [pf path]. simpl. intros ->.
      apply Framed_reload_function. intros root.
      eapply module_file_paths, Hf.
  - rewrite (import_function_other _ _ Hf).
    apply (Framed_bind_post _ _ _ (fun found => snd found = None));
      [auto with framed | now intros w w' a [= _ <-] |].
    intros [pf path]. simpl. intros ->. simpl. auto with framed.
Qed.

Lemma new_events_app (w w' : world) (evs : list event) :
  trace w' = trace w ++ evs -> new_events w w' = evs.
Proof. intros H. unfold new_events. rewrite H. apply drop_app_length. Qed.

Ltac world_simpl :=
  cbn [record_event set_cache set_dist require_cache dirname dist sources
       closures next_signal trace fst snd] in *.

Lemma on_disk_event (ev : event) (w : world) (r : request) :
  on_disk (record_event ev w) r = on_disk w r.
Proof. reflexivity. Qed.

Lemma on_disk_cache (c : gmap (list N) (gmap (list N) value)) (w : world)
    (r : request) :
  on_disk (set_cache c w) r = on_disk w r.
Proof. reflexivity. Qed.

(** Lines 370-382 on a module that is in the cache: it is evicted and read
    from disk again. *)
Lemma reload_spec (provider functionName file : list N)
    (providerFunction : value) (w : world) :
  module_file functionName = Some file ->
  is_Some (require_cache w
           !! filename (dirname w) (ProviderModule provider file)) ->
  exists w' evs res,
    reload_function functionName providerFunction
      (Some (ProviderModule provider file)) w = (w', res)
    /\ trace w' = trace w ++ evs
    /\ Required (filename (dirname w) (ProviderModule provider file)) ∈ evs
    /\ match on_disk w (ProviderModule provider file) with
       | Some (Compiled exports) =>
           res = Returned (member exports functionName)
           /\ require_cache w'
              !! filename (dirname w) (ProviderModule provider file)
              = Some exports
           /\ Loaded (filename (dirname w) (ProviderModule provider file))
              ∈ evs
       | _ => exists e, res = Thrown e
       end.
Proof.
  intros Hf Hc. rewrite (reload_function_eq _ _ _ _ Hf).
  unfold bind at 1, is_cached. rewrite (bool_decide_eq_true_2 _ Hc).
  unfold bind at 1, evict. unfold bind, require. world_simpl.
  rewrite lookup_delete_eq, on_disk_event, on_disk_cache.
  set (path := filename (dirname w) (ProviderModule provider file)).
  destruct (on_disk w (ProviderModule provider file)) as [[failure|exports]|];
    eexists _, _, _; (split; [reflexivity|]); world_simpl;
    rewrite <- ?app_assoc; (split; [reflexivity|]).
  - split; [set_solver|eauto].
  - split; [set_solver|]. split; [reflexivity|]. split; [|set_solver].
    apply lookup_insert_eq.
  - split; [set_solver|eauto].
Qed.

(** What the inner [try] of lines 349-386 does for a capability: the result
    always comes from a load of the file on disk during this very call,
    whatever the cache held before. *)
Lemma load_spec (provider functionName file : list N) (w : world) :
  module_file functionName = Some file ->
  exists w' evs res,
    load_provider_function provider functionName w = (w', res)
    /\ trace w' = trace w ++ evs
    /\ Required (filename (dirname w) (ProviderModule provider file)) ∈ evs
    /\ match on_disk w (ProviderModule provider file) with
       | Some (Compiled exports) =>
           res = Returned (member exports functionName)
           /\ require_cache w'
              !! filename (dirname w) (ProviderModule provider file)
              = Some exports
           /\ Loaded (filename (dirname w) (ProviderModule provider file))
              ∈ evs
       | _ =>
           res = Thrown (JsError (js "Provider function not found: "
                                    ++ provider ++ 47%N :: functionName))
       end.
Proof.
  intros Hf. unfold load_provider_function.
  rewrite (import_function_eq _ _ _ Hf).
  unfold try_catch, bind at 1 2.
  set (path := filename (dirname w) (ProviderModule provider file)).
  assert (exists w1 evs1 first,
             require (ProviderModule provider file) w = (w1, first)
             /\ trace w1 = trace w ++ evs1 /\ Required path ∈ evs1
             /\ dirname w1 = dirname w
             /\ on_disk w1 (ProviderModule provider file)
                = on_disk w (ProviderModule provider file)
             /\ match first with
                | Returned _ => is_Some (require_cache w1 !! path)
                | Thrown _ =>
                    match on_disk w (ProviderModule provider file) with
                    | Some (Compiled _) => False
                    | _ => True
                    end
                end) as (w1 & evs1 & first & -> & T1 & R1 & D1 & O1 & H1).
  { unfold require. fold path.
    destruct (require_cache w !! path) as [stale|] eqn:Hc.
    - eexists _, [_], _. repeat split; [set_solver|]. world_simpl.
      now rewrite Hc.
    - destruct (on_disk w (ProviderModule provider file))
        as [[failure|exports]|] eqn:Hd;
        eexists _, _, _; (split; [reflexivity|]); world_simpl;
        rewrite <- ?app_assoc; (split; [reflexivity|]);
        (split; [set_solver|]); (split; [reflexivity|]);
        (split; [now rewrite ?on_disk_event, ?on_disk_cache|]);
        try exact I.
      world_simpl. rewrite lookup_insert_eq. eauto. }
  destruct first as [module|e].
  - unfold ret at 1. cbn [fst snd].
    destruct (reload_spec provider functionName file (member module functionName)
                w1 Hf) as (w2 & evs2 & res & -> & T2 & R2 & H2).
    { now rewrite D1. }
    rewrite D1, O1 in H2. fold path in H2.
    destruct (on_disk w (ProviderModule provider file)) as [[failure|exports]|].
    + destruct H2 as [e ->]. unfold bind, console_error, throw.
      eexists _, _, _. split; [reflexivity|]. world_simpl.
      rewrite T2, T1, <- !app_assoc. split; [reflexivity|].
      split; [set_solver|reflexivity].
    + destruct H2 as (-> & C2 & L2).
      eexists _, _, _. split; [reflexivity|].
      rewrite T2, T1, <- !app_assoc. split; [reflexivity|].
      split; [set_solver|]. split; [reflexivity|]. split; [assumption|].
      set_solver.
    + destruct H2 as [e ->]. unfold bind, console_error, throw.
      eexists _, _, _. split; [reflexivity|]. world_simpl.
      rewrite T2, T1, <- !app_assoc. split; [reflexivity|].
      split; [set_solver|reflexivity].
  - unfold bind, console_error, throw.
    eexists _, _, _. split; [reflexivity|]. world_simpl.
    rewrite T1, <- !app_assoc. split; [reflexivity|].
    split; [set_solver|].
    destruct (on_disk w (ProviderModule provider file)) as [[failure|exports]|];
      [reflexivity|contradiction|reflexivity].
Qed.

(** ** The helper bundle and the paths of the provider modules *)

Lemma last_bundle (root : list N) : last (filename root Bundle) = Some 116%N.
Proof.
  unfold filename, path_join. rewrite last_app_cons, app_comm_cons.
  now rewrite last_app_cons.
Qed.

Lemma last_module (root provider file : list N) :
  last file = Some 115%N ->
  last (filename root (ProviderModule provider file)) = Some 115%N.
Proof.
  intros H. unfold filename, path_join.
  rewrite last_app_cons, app_comm_cons, last_app_cons, last_cons, H.
  reflexivity.
Qed.

Lemma bundle_path_fresh (root provider : list N) :
  filename root Bundle ∉ provider_paths provider root.
Proof.
  unfold provider_paths. intros H.
  repeat (apply elem_of_cons in H as [H|H];
          [apply (f_equal last) in H;
           rewrite last_bundle, last_module in H; [discriminate|reflexivity]|]).
  now apply elem_of_nil in H.
Qed.

Lemma require_bundle_spec (w : world) :
  exists w1 evs r,
    require Bundle w = (w1, r)
    /\ trace w1 = trace w ++ evs
    /\ match bundle_exports w with
       | Some bundle =>
           r = Returned bundle
           /\ require_cache w1 !! filename (dirname w) Bundle = Some bundle
       | None => exists e, r = Thrown e
       end.
Proof.
  unfold require, bundle_exports.
  destruct (require_cache w !! filename (dirname w) Bundle) as [cached|] eqn:Hc.
  { eexists _, _, _. repeat split. exact Hc. }
  destruct (on_disk w Bundle) as [[failure|exports]|];
    eexists _, _, _; (split; [reflexivity|]); world_simpl;
    rewrite <- ?app_assoc; (split; [reflexivity|]); eauto.
  split; [reflexivity|]. apply lookup_insert_eq.
Qed.

Lemma load_other (provider functionName : list N) (w : world) :
  module_file functionName = None ->
  load_provider_function provider functionName w = (w, Returned VUndefined).
Proof.
  intros Hf. unfold load_provider_function.
  now rewrite (import_function_other _ _ Hf).
Qed.

(** ** Stability *)

Lemma stable_refl (touched : list (list N)) (w : world) : stable touched w w.
Proof. repeat split; auto. exists []. now rewrite app_nil_r. Qed.

Lemma stable_trans (touched : list (list N)) (w1 w2 w3 : world) :
  stable touched w1 w2 -> stable touched w2 w3 -> stable touched w1 w3.
Proof.
  intros (D1 & F1 & S1 & C1 & N1 & K1 & evs1 & T1)
         (D2 & F2 & S2 & C2 & N2 & K2 & evs2 & T2).
  repeat split; try congruence; try lia.
  - intros k Hk. rewrite K2, K1; auto.
  - exists (evs1 ++ evs2). now rewrite T2, T1, <- app_assoc.
Qed.

Lemma frame_stable (touched touched' : list (list N)) (w w' : world) :
  touched ⊆ touched' -> frame touched w w' -> stable touched' w w'.
Proof.
  intros Hsub (D & F & S & C & N & K & evs & T & _).
  repeat split; auto; try lia; eauto.
Qed.

Lemma Stable_bind {A B} (touched : list N -> list (list N))
    (m : M A) (k : A -> M B) :
  Stable touched m -> (forall a, Stable touched (k a)) ->
  Stable touched (bind m k).
Proof.
  intros Hm Hk w w' res. unfold bind.
  destruct (m w) as [w1 [a|e]] eqn:E; intros H.
  - pose proof (Hm _ _ _ E) as F1. pose proof (Hk a _ _ _ H) as F2.
    destruct F1 as (D1 & F1). rewrite D1 in F2.
    eapply stable_trans; [split; eauto|exact F2].
  - inversion H; subst. eapply Hm, E.
Qed.

Lemma Stable_try_catch {A} (touched : list N -> list (list N))
    (m : M A) (handler : exn -> M A) :
  Stable touched m -> (forall e, Stable touched (handler e)) ->
  Stable touched (try_catch m handler).
Proof.
  intros Hm Hh w w' res. unfold try_catch.
  destruct (m w) as [w1 [a|e]] eqn:E; intros H.
  - inversion H; subst. eapply Hm, E.
  - pose proof (Hm _ _ _ E) as F1. pose proof (Hh e _ _ _ H) as F2.
    destruct F1 as (D1 & F1). rewrite D1 in F2.
    eapply stable_trans; [split; eauto|exact F2].
Qed.

Lemma Framed_Stable {A} (touched touched' : list N -> list (list N))
    (m : M A) :
  (forall root, touched root ⊆ touched' root) ->
  Framed touched m -> Stable touched' m.
Proof.
  intros Hsub Hm w w' res H. eapply frame_stable; [apply Hsub|].
  eapply Hm, H.
Qed.

Lemma Stable_new_signal (touched : list N -> list (list N)) :
  Stable touched new_signal.
Proof.
  intros w w' res [= <- <-]. repeat split; simpl; auto.
  exists []. now rewrite app_nil_r.
Qed.

Lemma Stable_call (touched : list N -> list (list N)) (f : value)
    (args : gmap (list N) value) :
  Stable touched (call f args).
Proof.
  intros w w' res. unfold call.
  destruct f; intros [= <- <-]; try apply stable_refl.
  repeat split; simpl; auto. eauto.
Qed.

Lemma provider_paths_engine (provider root : list N) :
  provider_paths provider root ⊆ engine_paths provider root.
Proof. intros x Hx. apply elem_of_cons. right. exact Hx. Qed.

Lemma Stable_executeProviderFunction (provider functionName : list N)
    (params : gmap (list N) value) :
  Stable (engine_paths provider)
         (executeProviderFunction provider functionName params).
Proof.
  assert (forall A (e : exn),
             Stable (engine_paths provider) (throw (A := A) e)) as Hthrow.
  { intros A e. eapply Framed_Stable; [reflexivity|auto with framed]. }
  assert (forall label detail,
             Stable (engine_paths provider) (console_error label detail))
    as Hlog.
  { intros. eapply Framed_Stable; [reflexivity|auto with framed]. }
  unfold executeProviderFunction.
  apply Stable_try_catch.
  - apply Stable_bind.
    { eapply Framed_Stable; [reflexivity|].
      apply Framed_require. intros root. unfold engine_paths. set_solver. }
    intros bundle. cbv zeta.
    destruct (negb (truthy (property functionMap functionName))); [auto|].
    apply Stable_bind.
    { eapply Framed_Stable; [apply provider_paths_engine|].
      apply Framed_load_provider_function. }
    intros pf. destruct (negb (truthy pf)); [auto|].
    apply Stable_bind; [apply Stable_new_signal|].
    intros signal. apply Stable_call.
  - intros e. apply Stable_bind; auto.
Qed.

(** ** What [executeProviderFunction] does, case by case *)

Lemma frame_calls (touched : list (list N)) (w w' : world)
    (evs : list event) :
  frame touched w w' -> trace w' = trace w ++ evs -> calls evs = [].
Proof.
  intros (_ & _ & _ & _ & _ & _ & evs' & T & Q) H.
  rewrite T in H. apply app_inv_head in H. now subst.
Qed.

Lemma execute_spec (provider functionName : list N)
    (params : gmap (list N) value) (w : world) :
  exists w' evs res,
    executeProviderFunction provider functionName params w = (w', res)
    /\ trace w' = trace w ++ evs
    /\ (forall e, res = Thrown e ->
        ConsoleError (js "Error executing " ++ provider
                        ++ 46%N :: functionName ++ [58%N]) (message e)
        ∈ evs)
    /\ match bundle_exports w with
       | None =>
           (exists e, res = Thrown e) /\ calls evs = []
           /\ next_signal w' = next_signal w
       | Some bundle =>
           require_cache w' !! filename (dirname w) Bundle = Some bundle /\
           if negb (truthy (property functionMap functionName)) then
             res = Thrown (JsError (js "Unknown function: " ++ functionName))
             /\ calls evs = [] /\ next_signal w' = next_signal w
           else
             match module_file functionName with
             | None =>
                 res = Thrown (JsError (js "Function not exported: "
                                          ++ functionName ++ js " from "
                                          ++ provider))
                 /\ calls evs = [] /\ next_signal w' = next_signal w
             | Some file =>
                 Required (filename (dirname w)
                             (ProviderModule provider file)) ∈ evs /\
                 match on_disk w (ProviderModule provider file) with
                 | Some (Compiled exports) =>
                     require_cache w'
                     !! filename (dirname w) (ProviderModule provider file)
                     = Some exports
                     /\ Loaded (filename (dirname w)
                                  (ProviderModule provider file)) ∈ evs
                     /\ (if truthy (member exports functionName) then
                           match member exports functionName with
                           | VFun id =>
                               let args :=
                                 executionParams params provider
                                   (VSignal (next_signal w))
                                   (member bundle (js "providerContext")) in
                               res = closures w id args
                               /\ calls evs = [(id, args)]
                               /\ next_signal w' = S (next_signal w)
                           | _ =>
                               res = Thrown (JsError
                                 (js "providerFunction is not a function"))
                               /\ calls evs = []
                               /\ next_signal w' = S (next_signal w)
                           end
                         else
                           res = Thrown (JsError
                                   (js "Function not exported: "
                                    ++ functionName ++ js " from "
                                    ++ provider))
                           /\ calls evs = []
                           /\ next_signal w' = next_signal w)
                 | _ =>
                     res = Thrown (JsError
                             (js "Provider function not found: "
                              ++ provider ++ 47%N :: functionName))
                     /\ calls evs = [] /\ next_signal w' = next_signal w
                 end
             end
       end.
Proof.
  unfold executeProviderFunction, try_catch. unfold bind at 1.
  destruct (require_bundle_spec w) as (w1 & evs1 & r1 & E1 & T1 & H1).
  assert (frame [filename (dirname w) Bundle] w w1) as F1.
  { apply (Framed_require (fun root => [filename root Bundle]) Bundle)
      with (res := r1); [intros; set_solver|exact E1]. }
  pose proof (frame_calls _ _ _ _ F1 T1) as Q1.
  destruct F1 as (D1 & O1 & _ & C1 & N1 & _ & _).
  rewrite E1.
  destruct (bundle_exports w) as [bundle|]; cycle 1.
  { destruct H1 as [e ->]. unfold bind, console_error, throw.
    eexists _, _, _. split; [reflexivity|]. world_simpl.
    rewrite T1, <- app_assoc. split; [reflexivity|].
    split; [intros e' [= <-]; set_solver|].
    rewrite calls_app, Q1. eauto. }
  destruct H1 as (-> & B1). cbv zeta.
  destruct (negb (truthy (property functionMap functionName))).
  { unfold bind, console_error, throw.
    eexists _, _, _. split; [reflexivity|]. world_simpl.
    rewrite T1, <- app_assoc. split; [reflexivity|].
    split; [intros e' [= <-]; set_solver|].
    rewrite calls_app, Q1. auto. }
  unfold bind at 1.
  destruct (module_file functionName) as [file|] eqn:Hf; cycle 1.
  { rewrite (load_other _ _ _ Hf). cbn [truthy negb].
    unfold bind, console_error, throw.
    eexists _, _, _. split; [reflexivity|]. world_simpl.
    rewrite T1, <- app_assoc. split; [reflexivity|].
    split; [intros e' [= <-]; set_solver|].
    rewrite calls_app, Q1. auto. }
  destruct (load_spec provider functionName file w1 Hf)
    as (w2 & evs2 & r2 & E2 & T2 & R2 & H2).
  pose proof (Framed_load_provider_function _ _ _ _ _ E2) as F2.
  pose proof (frame_calls _ _ _ _ F2 T2) as Q2.
  destruct F2 as (D2 & O2 & _ & C2 & N2 & K2 & _).
  assert (on_disk w1 (ProviderModule provider file)
          = on_disk w (ProviderModule provider file)) as Hd.
  { unfold on_disk. now rewrite O1. }
  rewrite E2. rewrite D1, Hd in H2. rewrite D1 in R2, K2.
  assert (require_cache w2 !! filename (dirname w) Bundle = Some bundle) as B2.
  { rewrite K2; [exact B1|apply bundle_path_fresh]. }
  destruct (on_disk w (ProviderModule provider file)) as [[failure|exports]|].
  - subst r2. unfold bind, console_error, throw.
    eexists _, _, _. split; [reflexivity|]. world_simpl.
    rewrite T2, T1, <- !app_assoc. split; [reflexivity|].
    split; [try (intros e' [= <-]; set_solver); intros e' ?; discriminate|].
    split; [exact B2|]. split; [set_solver|].
    rewrite !calls_app, Q1, Q2. split; [reflexivity|]. split; [reflexivity|].
    congruence.
  - destruct H2 as (-> & M2 & L2).
    destruct (truthy (member exports functionName)) eqn:Ht; cbn [negb].
    + unfold bind at 1, new_signal. unfold call.
      destruct (member exports functionName) as [| | | | | | | |id| |] eqn:Hm;
        try discriminate Ht.
      all: try (unfold bind, console_error, throw;
        eexists _, _, _; (split; [reflexivity|]); world_simpl;
        rewrite T2, T1, <- !app_assoc; (split; [reflexivity|]);
        (split; [intros e' [= <-]; set_solver|]);
        (split; [exact B2|]); (split; [set_solver|]);
        (split; [exact M2|]); (split; [set_solver|]);
        rewrite !calls_app, Q1, Q2; (split; [reflexivity|]);
        (split; [reflexivity|]); congruence).
      world_simpl. rewrite C2, C1, N2, N1.
      destruct (closures w id _) as [v|e] eqn:Hr.
      * eexists _, _, _. split; [reflexivity|]. world_simpl.
        rewrite T2, T1, <- !app_assoc. split; [reflexivity|].
    split; [try (intros e' [= <-]; set_solver); intros e' ?; discriminate|].
        split; [exact B2|]. split; [set_solver|].
        split; [exact M2|]. split; [set_solver|].
        rewrite !calls_app, Q1, Q2. auto.
      * unfold bind, console_error, throw.
        eexists _, _, _. split; [reflexivity|]. world_simpl.
        rewrite T2, T1, <- !app_assoc. split; [reflexivity|].
    split; [try (intros e' [= <-]; set_solver); intros e' ?; discriminate|].
        split; [exact B2|]. split; [set_solver|].
        split; [exact M2|]. split; [set_solver|].
        rewrite !calls_app, Q1, Q2. auto.
    + unfold bind, console_error, throw.
      eexists _, _, _. split; [reflexivity|]. world_simpl.
      rewrite T2, T1, <- !app_assoc. split; [reflexivity|].
    split; [try (intros e' [= <-]; set_solver); intros e' ?; discriminate|].
      split; [exact B2|]. split; [set_solver|].
      split; [exact M2|]. split; [set_solver|].
      rewrite !calls_app, Q1, Q2. split; [reflexivity|]. split; [reflexivity|].
      congruence.
  - subst r2. unfold bind, console_error, throw.
    eexists _, _, _. split; [reflexivity|]. world_simpl.
    rewrite T2, T1, <- !app_assoc. split; [reflexivity|].
    split; [try (intros e' [= <-]; set_solver); intros e' ?; discriminate|].
    split; [exact B2|]. split; [set_solver|].
    rewrite !calls_app, Q1, Q2. split; [reflexivity|]. split; [reflexivity|].
    congruence.
Qed.

(** ** The registry and the files on disk *)

Lemma registry_directory (w : world) (provider : list N) :
  provider ∈ getAvailableProviders w <->
  exists d files, dist w = Some d /\ d !! provider = Some (Dir files).
Proof.
  unfold getAvailableProviders. destruct (dist w) as [d|]; cycle 1.
  { split; [intros H; now apply elem_of_nil in H|intros (? & ? & ? & _)].
    discriminate. }
  rewrite list_elem_of_In, in_map_iff. split.
  - intros ([name entry] & <- & Hin). apply filter_In in Hin as [Hin Hdir].
    apply list_elem_of_In, elem_of_map_to_list in Hin.
    destruct entry as [a|files]; [discriminate|]. simpl. eauto.
  - intros (d' & files & [= <-] & Hl).
    exists (provider, Dir files). split; [reflexivity|].
    apply filter_In. split; [|reflexivity].
    now apply list_elem_of_In, elem_of_map_to_list.
Qed.

Lemma unregistered_on_disk (w : world) (provider file : list N) :
  provider ∉ getAvailableProviders w ->
  on_disk w (ProviderModule provider file) = None.
Proof.
  intros Hn. unfold on_disk.
  destruct (dist w) as [d|] eqn:Hd; [|reflexivity].
  destruct (d !! provider) as [[a|files]|] eqn:Hp; try reflexivity.
  exfalso. apply Hn, registry_directory. eauto.
Qed.

Lemma capability_known (functionName file : list N) :
  module_file functionName = Some file ->
  truthy (property functionMap functionName) = true.
Proof.
  intros H. apply module_file_cases in H.
  destruct H as [[-> ->]|[[-> ->]|[[-> ->]|[[-> ->]|[-> ->]]]]]; reflexivity.
Qed.

Lemma member_absent (exports : gmap (list N) value) (name : list N) :
  exports !! name = None -> member exports name = VUndefined.
Proof. unfold member. now intros ->. Qed.

Lemma member_present (exports : gmap (list N) value) (name : list N)
    (v : value) :
  exports !! name = Some v -> member exports name = v.
Proof. unfold member. now intros ->. Qed.

Lemma not_found_not_empty (provider functionName : list N) :
  exists c text,
    js "Provider function not found: " ++ provider ++ 47%N :: functionName
    = c :: text.
Proof. eexists _, _. reflexivity. Qed.

Lemma not_exported_differs (provider functionName : list N) :
  JsError (js "Function not exported: " ++ functionName ++ js " from "
             ++ provider)
  <> JsError (js "Provider function not found: " ++ provider
                ++ 47%N :: functionName).
Proof. intros H. inversion H. Qed.

(** ** The claims about [executeProviderFunction] *)

(** C5. When the module of a capability loads and does not export the
    function of that capability, the call fails with the error "Function
    not exported", which differs from the error of a failed load; no
    provider function is called. *)
Theorem missing_export_not_supported (w : world)
    (provider functionName file : list N) (params : gmap (list N) value)
    (bundle exports : gmap (list N) value) :
  bundle_exports w = Some bundle ->
  module_file functionName = Some file ->
  on_disk w (ProviderModule provider file) = Some (Compiled exports) ->
  exports !! functionName = None ->
  exists w',
    executeProviderFunction provider functionName params w
    = (w', Thrown (JsError (js "Function not exported: " ++ functionName
                              ++ js " from " ++ provider)))
    /\ calls (new_events w w') = []
    /\ JsError (js "Function not exported: " ++ functionName
                  ++ js " from " ++ provider)
       <> JsError (js "Provider function not found: " ++ provider
                     ++ 47%N :: functionName).
Proof.
  intros Hb Hf Hd He.
  destruct (execute_spec provider functionName params w)
    as (w' & evs & res & E & T & _ & H).
  rewrite Hb, (capability_known _ _ Hf), Hf, Hd, (member_absent _ _ He) in H.
  cbn [negb truthy] in H. destruct H as (_ & _ & _ & _ & -> & Q & _).
  exists w'. rewrite (new_events_app _ _ _ T).
  split; [exact E|]. split; [exact Q|]. apply not_exported_differs.
Qed.

Lemma missing_export_not_supported_witness :
  exists w',
    executeProviderFunction (js "demo") (js "getMeta") ∅ demo_world
    = (w', Thrown (JsError (js "Function not exported: " ++ js "getMeta"
                              ++ js " from " ++ js "demo")))
    /\ calls (new_events demo_world w') = []
    /\ JsError (js "Function not exported: " ++ js "getMeta"
                  ++ js " from " ++ js "demo")
       <> JsError (js "Provider function not found: " ++ js "demo"
                     ++ 47%N :: js "getMeta").
Proof.
  apply (missing_export_not_supported demo_world (js "demo") (js "getMeta")
           (js "meta.js") ∅ demo_bundle ∅); reflexivity.
Defined.

(** C4, as the code has it. For a provider that is one path component, a
    load that fails, because the file is missing or because loading it
    throws, makes the call fail with one and the same error, "Provider
    function not found: <provider>/<capability>"; the route answers it
    with status 500 and that message. *)
Theorem load_failure_reported (w : world)
    (provider functionName file : list N) (params : gmap (list N) value)
    (bundle : gmap (list N) value) :
  path_component provider = true ->
  bundle_exports w = Some bundle ->
  module_file functionName = Some file ->
  on_disk w (ProviderModule provider file) = None
  \/ (exists failure,
         on_disk w (ProviderModule provider file) = Some (Broken failure)) ->
  exists w' w'',
    executeProviderFunction provider functionName params w
    = (w', Thrown (JsError (js "Provider function not found: " ++ provider
                              ++ 47%N :: functionName)))
    /\ execute_provider_route
         (ExecuteBody (Some provider) (Some functionName) (Some params)) w
       = (w'', Returned
                 (Respond 500
                    (error_body (js "Provider function not found: "
                                   ++ provider ++ 47%N :: functionName)))).
Proof.
  intros Hc Hb Hf Hd.
  assert (provider <> []) as Hp by (intros ->; discriminate).
  destruct (execute_spec provider functionName params w)
    as (w' & evs & res & E & T & _ & H).
  rewrite Hb, (capability_known _ _ Hf), Hf in H. cbn [negb] in H.
  assert (res = Thrown (JsError (js "Provider function not found: "
                                   ++ provider ++ 47%N :: functionName)))
    as ->.
  { destruct Hd as [Hd|[failure Hd]]; rewrite Hd in H; tauto. }
  destruct (not_found_not_empty provider functionName) as (c & text & Hm).
  eexists w', _. split; [exact E|].
  unfold execute_provider_route, try_catch. cbn [body_provider body_function
    body_params].
  rewrite (bool_decide_eq_false_2 _ Hp).
  assert (functionName <> []) as Hn by (intros ->; discriminate).
  rewrite (bool_decide_eq_false_2 _ Hn). cbn [orb].
  unfold bind at 1. rewrite E. unfold bind, console_error, ret.
  cbn [message]. rewrite Hm. reflexivity.
Qed.

Lemma load_failure_reported_witness :
  exists w' w'',
    executeProviderFunction (js "demo") (js "getStream") ∅ demo_world
    = (w', Thrown (JsError (js "Provider function not found: " ++ js "demo"
                              ++ 47%N :: js "getStream")))
    /\ execute_provider_route
         (ExecuteBody (Some (js "demo")) (Some (js "getStream")) (Some ∅))
         demo_world
       = (w'', Returned
                 (Respond 500
                    (error_body (js "Provider function not found: "
                                   ++ js "demo" ++ 47%N :: js "getStream")))).
Proof.
  apply (load_failure_reported demo_world (js "demo") (js "getStream")
           (js "stream.js") ∅ demo_bundle);
    [reflexivity | reflexivity | reflexivity |].
  right. eexists. reflexivity.
Defined.

(** C4, as the spec states it, fails: with the stream module missing and
    with the stream module broken the call raises the same error and the
    route gives the same answer, so the two failures cannot be told
    apart. *)
Lemma load_failures_indistinguishable :
  on_disk demo_world_without_stream
          (ProviderModule (js "demo") (js "stream.js")) = None
  /\ on_disk demo_world (ProviderModule (js "demo") (js "stream.js"))
     = Some (Broken (JsError (js "Unexpected token")))
  /\ snd (executeProviderFunction (js "demo") (js "getStream") ∅
            demo_world_without_stream)
     = snd (executeProviderFunction (js "demo") (js "getStream") ∅ demo_world)
  /\ snd (execute_provider_route
            (ExecuteBody (Some (js "demo")) (Some (js "getStream")) (Some ∅))
            demo_world_without_stream)
     = snd (execute_provider_route
              (ExecuteBody (Some (js "demo")) (Some (js "getStream")) (Some ∅))
              demo_world).
Proof. repeat split; vm_compute; reflexivity. Qed.

(** C1, as the code has it. [executeProviderFunction] never consults the
    registry. For a provider (one path component) that the registry does
    not list and a capability of the closed set, the module of that
    capability is looked for under the directory of the provider, the load
    fails, and the call fails with the error of a failed load, "Provider
    function not found"; no provider function is called. *)
Theorem unregistered_provider_load_attempt (w : world)
    (provider functionName file : list N) (params : gmap (list N) value)
    (bundle : gmap (list N) value) :
  path_component provider = true ->
  provider ∉ getAvailableProviders w ->
  bundle_exports w = Some bundle ->
  module_file functionName = Some file ->
  exists w' evs,
    executeProviderFunction provider functionName params w
    = (w', Thrown (JsError (js "Provider function not found: " ++ provider
                              ++ 47%N :: functionName)))
    /\ trace w' = trace w ++ evs
    /\ Required (filename (dirname w) (ProviderModule provider file)) ∈ evs
    /\ calls evs = [].
Proof.
  intros _ Hr Hb Hf.
  destruct (execute_spec provider functionName params w)
    as (w' & evs & res & E & T & _ & H).
  rewrite Hb, (capability_known _ _ Hf), Hf,
    (unregistered_on_disk _ _ file Hr) in H.
  cbn [negb] in H. destruct H as (_ & R & -> & Q & _).
  exists w', evs. auto.
Qed.

Lemma unregistered_provider_load_attempt_witness :
  (js "ghost" ∉ getAvailableProviders demo_world)
  /\ exists w' evs,
       executeProviderFunction (js "ghost") (js "getPosts") ∅ demo_world
       = (w', Thrown (JsError (js "Provider function not found: "
                                 ++ js "ghost" ++ 47%N :: js "getPosts")))
       /\ trace w' = trace demo_world ++ evs
       /\ Required (filename (dirname demo_world)
                      (ProviderModule (js "ghost") (js "posts.js"))) ∈ evs
       /\ calls evs = [].
Proof.
  assert (js "ghost" ∉ getAvailableProviders demo_world) as Hr.
  { rewrite list_elem_of_In. vm_compute. intuition discriminate. }
  split; [exact Hr|].
  apply (unregistered_provider_load_attempt demo_world (js "ghost")
           (js "getPosts") (js "posts.js") ∅ demo_bundle eq_refl Hr);
    reflexivity.
Defined.

(** C1, as the spec states it, fails: for the provider [ghost], which the
    registry does not list, the call does try to load a module of that
    provider, and the error it raises is the one a registered provider
    with a missing module gets. *)
Lemma unregistered_provider_counterexample :
  (js "ghost" ∉ getAvailableProviders demo_world)
  /\ Required (js "/srv/dist/ghost/posts.js")
     ∈ trace (fst (executeProviderFunction (js "ghost") (js "getPosts") ∅
                     demo_world))
  /\ snd (executeProviderFunction (js "ghost") (js "getPosts") ∅ demo_world)
     = Thrown (JsError (js "Provider function not found: ghost/getPosts"))
  /\ snd (executeProviderFunction (js "demo") (js "getStream") ∅
            demo_world_without_stream)
     = Thrown (JsError (js "Provider function not found: demo/getStream")).
Proof.
  split.
  { rewrite list_elem_of_In. vm_compute. intuition discriminate. }
  split.
  { apply list_elem_of_In. vm_compute. tauto. }
  split; vm_compute; reflexivity.
Qed.

(** C3: the code does not do what the claim says. The name [toString] is
    outside the closed set, yet the lookup in [functionMap] finds the
    property inherited from [Object.prototype]; the call goes on and fails
    with "Function not exported", the error of a capability that is not
    supported, instead of "Unknown function". *)
Theorem inherited_name_not_rejected :
  (js "toString" ∉ capabilities)
  /\ snd (executeProviderFunction (js "demo") (js "toString") ∅ demo_world)
     = Thrown (JsError (js "Function not exported: toString from demo"))
  /\ snd (executeProviderFunction (js "demo") (js "toString") ∅ demo_world)
     <> Thrown (JsError (js "Unknown function: toString")).
Proof.
  split.
  { rewrite list_elem_of_In. vm_compute. intuition discriminate. }
  split; [vm_compute; reflexivity|]. vm_compute. discriminate.
Qed.

(** A name that is neither a capability nor inherited from
    [Object.prototype] is rejected before any module of a provider is
    looked for, whatever the provider. *)
Lemma unknown_function_rejected (w : world) (provider functionName : list N)
    (params : gmap (list N) value) (bundle : gmap (list N) value) :
  bundle_exports w = Some bundle ->
  functionName ∉ capabilities ->
  functionName ∉ Object_prototype ->
  exists w' evs,
    executeProviderFunction provider functionName params w
    = (w', Thrown (JsError (js "Unknown function: " ++ functionName)))
    /\ trace w' = trace w ++ evs
    /\ calls evs = []
    /\ forall k, k ∈ provider_paths provider (dirname w) ->
                 require_cache w' !! k = require_cache w !! k.
Proof.
  intros Hb Hc Hp.
  assert (property functionMap functionName = VUndefined) as Hu.
  { unfold property. rewrite (bool_decide_eq_false_2 _ Hp).
    assert (module_file functionName = None) as Hf.
    { destruct (module_file functionName) eqn:E; [|reflexivity].
      exfalso. apply Hc, module_file_capability. eauto. }
    revert Hf. unfold module_file, functionMap, obj_get.
    repeat match goal with
    | |- context [jsstring_eqb ?a ?b] => destruct (jsstring_eqb a b)
    end; simpl; congruence. }
  unfold executeProviderFunction, try_catch. unfold bind at 1.
  destruct (require_bundle_spec w) as (w1 & evs1 & r1 & E1 & T1 & H1).
  assert (frame [filename (dirname w) Bundle] w w1) as F1.
  { apply (Framed_require (fun root => [filename root Bundle]) Bundle)
      with (res := r1); [intros; set_solver|exact E1]. }
  pose proof (frame_calls _ _ _ _ F1 T1) as Q1.
  destruct F1 as (_ & _ & _ & _ & _ & K1 & _).
  rewrite E1, Hb in *. destruct H1 as (-> & _). cbv zeta. rewrite Hu.
  cbn [truthy negb]. unfold bind, console_error, throw.
  eexists _, _. split; [reflexivity|]. world_simpl.
  rewrite T1, <- app_assoc. split; [reflexivity|].
  rewrite calls_app, Q1. split; [reflexivity|].
  intros k Hk. apply K1. intros Hin. apply list_elem_of_singleton in Hin.
  subst k. now apply bundle_path_fresh in Hk.
Qed.

(** The reload on regular files: take any state of the process in which the
    helper bundle loads, and a first call for a provider and a capability.
    Let the build then rewrite the [dist] directory, so that the file of
    that capability exports a function for it. The next call for the same
    provider and capability reads that file from disk again and runs the
    function it exports, whatever module the cache held before; afterwards
    the cache holds the new module. *)
Lemma rebuilt_module_is_used (w : world)
    (provider functionName file : list N)
    (params params' : gmap (list N) value)
    (bundle exports : gmap (list N) value)
    (d : option (gmap (list N) node)) (id : nat) :
  bundle_exports w = Some bundle ->
  module_file functionName = Some file ->
  let w1 := fst (executeProviderFunction provider functionName params w) in
  let w2 := set_dist d w1 in
  on_disk w2 (ProviderModule provider file) = Some (Compiled exports) ->
  exports !! functionName = Some (VFun id) ->
  exists w3 evs,
    executeProviderFunction provider functionName params' w2
    = (w3, closures w id
             (executionParams params' provider (VSignal (next_signal w2))
                (member bundle (js "providerContext"))))
    /\ trace w3 = trace w2 ++ evs
    /\ Loaded (filename (dirname w) (ProviderModule provider file)) ∈ evs
    /\ calls evs
       = [(id, executionParams params' provider (VSignal (next_signal w2))
                 (member bundle (js "providerContext")))]
    /\ require_cache w3 !! filename (dirname w) (ProviderModule provider file)
       = Some exports.
Proof.
  intros Hb Hf w1 w2 Hd He.
  destruct (execute_spec provider functionName params w)
    as (w1' & evs1 & res1 & E1 & T1 & _ & H1).
  pose proof (Stable_executeProviderFunction _ _ _ _ _ _ E1)
    as (D1 & _ & _ & C1 & _).
  assert (w1 = w1') as Hw by (unfold w1; now rewrite E1).
  rewrite Hb in H1. destruct H1 as (B1 & _).
  assert (bundle_exports w2 = Some bundle) as Hb2.
  { unfold bundle_exports, w2. world_simpl. now rewrite Hw, D1, B1. }
  destruct (execute_spec provider functionName params' w2)
    as (w3 & evs & res & E & T & _ & H).
  assert (dirname w2 = dirname w) as D2 by (unfold w2; now rewrite Hw).
  assert (closures w2 = closures w) as C2 by (unfold w2; now rewrite Hw).
  rewrite Hb2, (capability_known _ _ Hf), Hf, Hd, (member_present _ _ _ He),
    D2, C2 in H.
  cbn [negb truthy] in H. destruct H as (_ & _ & M & L & -> & Q & _).
  exists w3, evs. auto.
Qed.

Lemma rebuilt_module_is_used_witness :
  let w1 :=
    fst (executeProviderFunction (js "demo") (js "getPosts") ∅ demo_world) in
  let w2 := set_dist (Some demo_dist_rebuilt) w1 in
  exists w3 evs,
    executeProviderFunction (js "demo") (js "getPosts") ∅ w2
    = (w3, closures demo_world 2
             (executionParams ∅ (js "demo") (VSignal (next_signal w2))
                (member demo_bundle (js "providerContext"))))
    /\ trace w3 = trace w2 ++ evs
    /\ Loaded (filename (dirname demo_world)
                 (ProviderModule (js "demo") (js "posts.js"))) ∈ evs
    /\ calls evs
       = [(2%nat, executionParams ∅ (js "demo") (VSignal (next_signal w2))
                    (member demo_bundle (js "providerContext")))]
    /\ require_cache w3
       !! filename (dirname demo_world)
            (ProviderModule (js "demo") (js "posts.js"))
       = Some {[ js "getPosts" := VFun 2 ]}.
Proof.
  apply (rebuilt_module_is_used demo_world (js "demo") (js "getPosts")
           (js "posts.js") ∅ ∅ demo_bundle {[ js "getPosts" := VFun 2 ]}
           (Some demo_dist_rebuilt) 2);
    vm_compute; reflexivity.
Defined.

(** The stub swap of the spec, run on regular files: the first call
    answers with the old value, the call after the rebuild with the new
    one. *)
Example stub_swap :
  let first := executeProviderFunction (js "demo") (js "getPosts") ∅ demo_world in
  let second :=
    executeProviderFunction (js "demo") (js "getPosts") ∅
      (set_dist (Some demo_dist_rebuilt) (fst first)) in
  snd first = Returned (VArr [VStr (js "old")])
  /\ snd second = Returned (VArr [VStr (js "new")]).
Proof. split; vm_compute; reflexivity. Qed.

(** C2: the code does not do what the claim says. The stub swap on a
    module file that is a symbolic link: the first call loads the module
    and caches it under its real path; lines 370-372 look it up under the
    path of the link, find nothing and evict nothing. After the build has
    rewritten the file, so that it exports a new function, the second call
    requires the module again, gets the cached one and runs the old
    function: it answers with the old value, not with the new one, and the
    file is not read. Without the link the same two calls answer with the
    old and then the new value. *)
Theorem symlinked_module_stays_stale :
  let first :=
    Host.executeProviderFunction demo_links (js "demo") (js "getPosts") ∅
      demo_world in
  let w2 := set_dist (Some demo_dist_rebuilt) (fst first) in
  let second :=
    Host.executeProviderFunction demo_links (js "demo") (js "getPosts") ∅ w2 in
  snd first = Returned (VArr [VStr (js "old")])
  /\ on_disk w2 (ProviderModule (js "demo") (js "posts.js"))
     = Some (Compiled {[ js "getPosts" := VFun 2 ]})
  /\ closures w2 2 ∅ = Returned (VArr [VStr (js "new")])
  /\ snd second = Returned (VArr [VStr (js "old")])
  /\ snd second <> Returned (VArr [VStr (js "new")])
  /\ new_events w2 (fst second)
     = [ Required (js "/srv/dist/providerContext");
         Required (js "/srv/dist/demo/posts.js");
         Called 1 (executionParams ∅ (js "demo") (VSignal 1)
                     (member demo_bundle (js "providerContext"))) ]
  /\ snd (Host.executeProviderFunction ∅ (js "demo") (js "getPosts") ∅
            (set_dist (Some demo_dist_rebuilt)
               (fst (Host.executeProviderFunction ∅ (js "demo")
                       (js "getPosts") ∅ demo_world))))
     = Returned (VArr [VStr (js "new")]).
Proof.
  repeat split; try (vm_compute; reflexivity). vm_compute. discriminate.
Qed.

(** C7, as the code has it. When the provider function that a call
    resolves raises an error on the parameters built for it,
    [executeProviderFunction] catches the error, writes it to the console
    and raises the very same error again: nothing is put around it and
    nothing marks it as a failure of the provider. The route handlers
    catch it in turn and answer with status 500 and the message of the
    error (POST /execute-provider puts "Provider execution failed" in the
    place of an empty message); for such an error no handler raises. *)
Theorem provider_error_reported (w : world)
    (provider functionName file : list N) (params : gmap (list N) value)
    (bundle exports : gmap (list N) value) (id : nat) (e : exn) :
  bundle_exports w = Some bundle ->
  module_file functionName = Some file ->
  on_disk w (ProviderModule provider file) = Some (Compiled exports) ->
  exports !! functionName = Some (VFun id) ->
  closures w id
    (executionParams params provider (VSignal (next_signal w))
       (member bundle (js "providerContext"))) = Thrown e ->
  (exists w' evs,
      executeProviderFunction provider functionName params w = (w', Thrown e)
      /\ trace w' = trace w ++ evs
      /\ ConsoleError (js "Error executing " ++ provider
                         ++ 46%N :: functionName ++ [58%N]) (message e)
         ∈ evs)
  /\ (forall query,
         functionName = js "getPosts" -> params = posts_params query ->
         exists w'',
           posts_route provider query w
           = (w'', Returned (Respond 500 (error_body (message e)))))
  /\ (provider <> [] ->
      exists w'',
        execute_provider_route
          (ExecuteBody (Some provider) (Some functionName) (Some params)) w
        = (w'', Returned
                  (Respond 500
                     (error_body
                        (match message e with
                         | [] => js "Provider execution failed"
                         | text => text
                         end))))).
Proof.
  intros Hb Hf Hd He Hr.
  destruct (execute_spec provider functionName params w)
    as (w' & evs & res & E & T & L & H).
  rewrite Hb, (capability_known _ _ Hf), Hf, Hd, (member_present _ _ _ He)
    in H.
  cbn [negb truthy] in H. destruct H as (_ & _ & _ & _ & -> & _).
  rewrite Hr in *. split; [|split].
  - exists w', evs. auto.
  - intros query -> ->. unfold posts_route, try_catch. unfold bind at 1.
    rewrite E. unfold bind, console_error, ret. eauto.
  - intros Hp. unfold execute_provider_route, try_catch.
    cbn [body_provider body_function body_params].
    rewrite (bool_decide_eq_false_2 _ Hp).
    assert (functionName <> []) as Hn by (intros ->; discriminate).
    rewrite (bool_decide_eq_false_2 _ Hn). cbn [orb].
    unfold bind at 1. rewrite E. unfold bind, console_error, ret. eauto.
Qed.

Lemma provider_error_reported_witness :
  (exists w' evs,
      executeProviderFunction (js "faulty") (js "getPosts") (posts_params ∅)
        demo_world = (w', Thrown (JsError (js "boom")))
      /\ trace w' = trace demo_world ++ evs
      /\ ConsoleError (js "Error executing " ++ js "faulty"
                         ++ 46%N :: js "getPosts" ++ [58%N])
                      (message (JsError (js "boom")))
         ∈ evs)
  /\ (exists w'',
         posts_route (js "faulty") ∅ demo_world
         = (w'', Returned (Respond 500 (error_body (js "boom")))))
  /\ (exists w'',
        execute_provider_route
          (ExecuteBody (Some (js "faulty")) (Some (js "getPosts"))
                       (Some (posts_params ∅))) demo_world
        = (w'', Returned (Respond 500 (error_body (js "boom"))))).
Proof.
  destruct (provider_error_reported demo_world (js "faulty") (js "getPosts")
              (js "posts.js") (posts_params ∅) demo_bundle
              {[ js "getPosts" := VFun 3 ]} 3 (JsError (js "boom")))
    as (H1 & H2 & H3); try reflexivity.
  split; [exact H1|]. split.
  - apply (H2 ∅); reflexivity.
  - apply H3. discriminate.
Defined.

(** C7, as the spec states it, fails: the failure of a provider function
    is not reclassified. A provider function that was called and raised
    an error, and a module that was never found, give one and the same
    raised error and one and the same response. *)
Lemma provider_error_not_reclassified :
  let raised :=
    executeProviderFunction (js "faulty") (js "getPosts") (posts_params ∅)
      demo_world_imitating in
  let not_found :=
    executeProviderFunction (js "faulty") (js "getPosts") (posts_params ∅)
      demo_world_without_posts in
  calls (new_events demo_world_imitating (fst raised))
  = [(3%nat, executionParams (posts_params ∅) (js "faulty") (VSignal 0)
               (member demo_bundle (js "providerContext")))]
  /\ calls (new_events demo_world_without_posts (fst not_found)) = []
  /\ snd raised = snd not_found
  /\ snd (posts_route (js "faulty") ∅ demo_world_imitating)
     = snd (posts_route (js "faulty") ∅ demo_world_without_posts)
  /\ snd (posts_route (js "faulty") ∅ demo_world_imitating)
     = Returned
         (Respond 500
            (error_body (js "Provider function not found: faulty/getPosts"))).
Proof. repeat split; vm_compute; reflexivity. Qed.

(** ** The execution parameters *)

Lemma executionParams_providerValue (params : gmap (list N) value)
    (provider : list N) (signal providerContext : value) :
  executionParams params provider signal providerContext !! js "providerValue"
  = Some (VStr provider).
Proof.
  unfold executionParams.
  rewrite lookup_insert_ne by (intros H; inversion H).
  rewrite lookup_insert_ne by (intros H; inversion H).
  apply lookup_insert_eq.
Qed.

Lemma executionParams_signal (params : gmap (list N) value)
    (provider : list N) (signal providerContext : value) :
  executionParams params provider signal providerContext !! js "signal"
  = Some signal.
Proof.
  unfold executionParams.
  rewrite lookup_insert_ne by (intros H; inversion H).
  apply lookup_insert_eq.
Qed.

Lemma executionParams_providerContext (params : gmap (list N) value)
    (provider : list N) (signal providerContext : value) :
  executionParams params provider signal providerContext
  !! js "providerContext" = Some providerContext.
Proof. unfold executionParams. apply lookup_insert_eq. Qed.

Lemma executionParams_other (params : gmap (list N) value)
    (provider : list N) (signal providerContext : value) (k : list N) :
  k ∉ engine_keys ->
  executionParams params provider signal providerContext !! k = params !! k.
Proof.
  intros Hk. unfold executionParams, engine_keys in *.
  rewrite !lookup_insert_ne; [reflexivity| | |]; intros <-; apply Hk;
    set_solver.
Qed.

(** One call of the engine, as far as the calls of provider functions, the
    abort signals and the cached bundle are concerned *)
Lemma execute_calls (provider functionName : list N)
    (params : gmap (list N) value) (w : world) :
  exists evs,
    trace (fst (executeProviderFunction provider functionName params w))
    = trace w ++ evs
    /\ (calls evs = []
        \/ exists bundle id,
             bundle_exports w = Some bundle
             /\ require_cache
                  (fst (executeProviderFunction provider functionName params w))
                !! filename (dirname w) Bundle = Some bundle
             /\ calls evs
                = [(id, executionParams params provider
                          (VSignal (next_signal w))
                          (member bundle (js "providerContext")))]
             /\ next_signal
                  (fst (executeProviderFunction provider functionName params w))
                = S (next_signal w)).
Proof.
  destruct (execute_spec provider functionName params w)
    as (w' & evs & res & E & T & _ & H).
  rewrite E. cbn [fst]. exists evs. split; [exact T|].
  destruct (bundle_exports w) as [bundle|]; [|tauto].
  destruct H as (B & H).
  destruct (negb (truthy (property functionMap functionName))); [tauto|].
  destruct (module_file functionName) as [file|]; [|tauto].
  destruct H as (_ & H).
  destruct (on_disk w (ProviderModule provider file)) as [[failure|exports]|];
    try tauto.
  destruct H as (_ & _ & H).
  destruct (truthy (member exports functionName)); [|tauto].
  destruct (member exports functionName); try tauto.
  cbv zeta in H. destruct H as (_ & Q & Nx).
  right. exists bundle, id. auto.
Qed.

Lemma cached_bundle_exports (w : world) (b : gmap (list N) value) :
  require_cache w !! filename (dirname w) Bundle = Some b ->
  bundle_exports w = Some b.
Proof. unfold bundle_exports. now intros ->. Qed.

Lemma execute_keeps_bundle (provider functionName : list N)
    (params : gmap (list N) value) (w : world) (b : gmap (list N) value) :
  require_cache w !! filename (dirname w) Bundle = Some b ->
  require_cache (fst (executeProviderFunction provider functionName params w))
  !! filename (dirname w) Bundle = Some b.
Proof.
  intros Hc.
  destruct (execute_spec provider functionName params w)
    as (w' & evs & res & E & T & _ & H).
  rewrite E, (cached_bundle_exports _ _ Hc) in *. tauto.
Qed.

Lemma step_spec (w : world) (a : action) :
  dirname (step w a) = dirname w
  /\ next_signal w <= next_signal (step w a)
  /\ (forall b,
        require_cache w !! filename (dirname w) Bundle = Some b ->
        require_cache (step w a) !! filename (dirname w) Bundle = Some b)
  /\ exists evs,
       trace (step w a) = trace w ++ evs
       /\ (calls evs = []
           \/ exists provider functionName params bundle id,
                a = Invoke provider functionName params
                /\ bundle_exports w = Some bundle
                /\ require_cache (step w a) !! filename (dirname w) Bundle
                   = Some bundle
                /\ calls evs
                   = [(id, executionParams params provider
                             (VSignal (next_signal w))
                             (member bundle (js "providerContext")))]
                /\ next_signal (step w a) = S (next_signal w)).
Proof.
  destruct a as [provider functionName params|d]; cbn [step].
  - destruct (executeProviderFunction provider functionName params w)
      as [w' res] eqn:E.
    pose proof (Stable_executeProviderFunction _ _ _ _ _ _ E)
      as (D & _ & _ & _ & Hn & _).
    pose proof (execute_keeps_bundle provider functionName params w) as Hk.
    destruct (execute_calls provider functionName params w)
      as (evs & T & H).
    rewrite E in *. cbn [fst] in *.
    split; [exact D|]. split; [exact Hn|]. split; [exact Hk|].
    exists evs. split; [exact T|].
    destruct H as [H|(bundle & id & H)]; [now left|].
    right. exists provider, functionName, params, bundle, id. tauto.
  - repeat split; auto. exists []. rewrite app_nil_r. auto.
Qed.

(** ** Runs *)

Lemma run_cons (a : action) (actions : list action) (w : world) :
  run (a :: actions) w = run actions (step w a).
Proof. reflexivity. Qed.

Lemma run_spec (actions : list action) :
  forall w,
    dirname (run actions w) = dirname w
    /\ next_signal w <= next_signal (run actions w)
    /\ exists evs,
         trace (run actions w) = trace w ++ evs
         /\ (forall id ctx,
               (id, ctx) ∈ calls evs ->
               exists provider functionName params n pc,
                 Invoke provider functionName params ∈ actions
                 /\ ctx = executionParams params provider (VSignal n) pc
                 /\ next_signal w <= n < next_signal (run actions w))
         /\ (forall b,
               require_cache w !! filename (dirname w) Bundle = Some b ->
               forall id ctx,
                 (id, ctx) ∈ calls evs ->
                 ctx !! js "providerContext"
                 = Some (member b (js "providerContext")))
         /\ (exists pc,
               forall id ctx,
                 (id, ctx) ∈ calls evs -> ctx !! js "providerContext" = Some pc)
         /\ NoDup (call_signal <$> calls evs).
Proof.
  induction actions as [|a rest IH]; intros w.
  { cbn [run fold_left]. repeat split; [lia|].
    exists []. rewrite app_nil_r. repeat split.
    - intros id ctx H. now apply elem_of_nil in H.
    - intros b _ id ctx H. now apply elem_of_nil in H.
    - exists VUndefined. intros id ctx H. now apply elem_of_nil in H.
    - constructor. }
  rewrite run_cons.
  destruct (step_spec w a) as (D1 & N1 & K1 & evs1 & T1 & H1).
  destruct (IH (step w a)) as (D & Nr & evs2 & T2 & I1 & I2 & I3 & I4).
  rewrite D1 in I2.
  split; [congruence|]. split; [lia|].
  exists (evs1 ++ evs2). split; [now rewrite T2, T1, <- app_assoc|].
  rewrite calls_app.
  destruct H1 as [Q1|(provider & functionName & params & bundle & id0 & -> &
                      Hb & B1 & Q1 & S1)]; rewrite Q1.
  - cbn [app]. split; [|split; [|split]].
    + intros id ctx Hin.
      destruct (I1 id ctx Hin) as (p & f & ps & n & pc & Ha & -> & Hn).
      exists p, f, ps, n, pc. split; [now apply elem_of_cons; right|].
      split; [reflexivity|lia].
    + intros b Hc. apply I2, K1, Hc.
    + exact I3.
    + exact I4.
  - cbn [app]. split; [|split; [|split]].
    + intros id ctx Hin. apply elem_of_cons in Hin as [[= -> ->]|Hin].
      * exists provider, functionName, params, (next_signal w),
          (member bundle (js "providerContext")).
        split; [now apply elem_of_cons; left|]. split; [reflexivity|lia].
      * destruct (I1 id ctx Hin) as (p & f & ps & n & pc & Ha & -> & Hn).
        exists p, f, ps, n, pc. split; [now apply elem_of_cons; right|].
        split; [reflexivity|lia].
    + intros b Hc id ctx Hin.
      assert (b = bundle) as ->.
      { apply cached_bundle_exports in Hc. congruence. }
      apply elem_of_cons in Hin as [[= -> ->]|Hin];
        [apply executionParams_providerContext|].
      eapply I2; [exact B1|exact Hin].
    + exists (member bundle (js "providerContext")). intros id ctx Hin.
      apply elem_of_cons in Hin as [[= -> ->]|Hin];
        [apply executionParams_providerContext|].
      eapply I2; [exact B1|exact Hin].
    + rewrite fmap_cons. apply NoDup_cons. split; [|exact I4].
      intros Hin. apply list_elem_of_fmap in Hin as ([id ctx] & Heq & Hin).
      destruct (I1 id ctx Hin) as (p & f & ps & n & pc & _ & -> & Hn).
      unfold call_signal in Heq. cbn [snd] in Heq.
      rewrite !executionParams_signal in Heq. inversion Heq. lia.
Qed.

Lemma new_events_refl (w : world) : new_events w w = [].
Proof. unfold new_events. apply drop_all. Qed.

Lemma run_calls_origin (actions : list action) :
  forall w id ctx,
    (id, ctx) ∈ calls (new_events w (run actions w)) ->
    exists before provider functionName params after bundle,
      actions = before ++ Invoke provider functionName params :: after
      /\ bundle_exports (run before w) = Some bundle
      /\ calls (new_events (run before w)
                  (step (run before w) (Invoke provider functionName params)))
         = [(id, ctx)]
      /\ ctx = executionParams params provider
                 (VSignal (next_signal (run before w)))
                 (member bundle (js "providerContext")).
Proof.
  induction actions as [|a rest IH]; intros w id ctx Hin.
  { cbn [run fold_left] in Hin. rewrite new_events_refl in Hin.
    now apply elem_of_nil in Hin. }
  rewrite run_cons in Hin.
  destruct (step_spec w a) as (_ & _ & _ & evs1 & T1 & H1).
  destruct (run_spec rest (step w a)) as (_ & _ & evs2 & T2 & _).
  assert (new_events w (run rest (step w a))
          = new_events w (step w a)
            ++ new_events (step w a) (run rest (step w a))) as Hsplit.
  { rewrite (new_events_app _ _ _ T1), (new_events_app _ _ _ T2).
    apply new_events_app. now rewrite T2, T1, <- app_assoc. }
  rewrite Hsplit, calls_app in Hin. apply elem_of_app in Hin as [Hin|Hin].
  - rewrite (new_events_app _ _ _ T1) in Hin.
    destruct H1 as [Q|(provider & functionName & params & bundle & id0 & -> &
                       Hb & _ & Q & _)]; rewrite Q in Hin.
    { now apply elem_of_nil in Hin. }
    apply list_elem_of_singleton in Hin. inversion Hin; subst id ctx.
    exists [], provider, functionName, params, rest, bundle.
    cbn [app run fold_left]. rewrite (new_events_app _ _ _ T1).
    auto.
  - destruct (IH (step w a) id ctx Hin)
      as (before & provider & functionName & params & after & bundle &
          -> & Hb & Q & Hctx).
    exists (a :: before), provider, functionName, params, after, bundle.
    rewrite run_cons. auto.
Qed.

(** C9. In every run of the server, whatever the build does to the [dist]
    directory between the requests, each call of a provider function
    belongs to one request of the run and gets one flat object: the
    parameters of the caller of that request, with the provider identifier
    of that request under [providerValue], the abort signal made for that
    request under [signal], and under [providerContext] what the helper
    bundle, as [require] gives it in the state of that request, exports
    under that name. No two calls get the same abort signal; all calls get
    the same helper bundle, which is the cached one when the run starts
    with the bundle in the cache. *)
Theorem execution_context_shape (actions : list action) (w : world) :
  let cs := calls (new_events w (run actions w)) in
  (forall id ctx,
      (id, ctx) ∈ cs ->
      exists before provider functionName params after bundle,
        actions = before ++ Invoke provider functionName params :: after
        /\ bundle_exports (run before w) = Some bundle
        /\ calls (new_events (run before w)
                    (step (run before w)
                       (Invoke provider functionName params)))
           = [(id, ctx)]
        /\ ctx = executionParams params provider
                   (VSignal (next_signal (run before w)))
                   (member bundle (js "providerContext"))
        /\ ctx !! js "providerValue" = Some (VStr provider)
        /\ ctx !! js "signal" = Some (VSignal (next_signal (run before w)))
        /\ ctx !! js "providerContext"
           = Some (member bundle (js "providerContext"))
        /\ forall k, k ∉ engine_keys -> ctx !! k = params !! k)
  /\ NoDup (call_signal <$> cs)
  /\ (forall id ctx id' ctx',
        (id, ctx) ∈ cs -> (id', ctx') ∈ cs ->
        ctx !! js "providerContext" = ctx' !! js "providerContext")
  /\ (forall cached id ctx,
        require_cache w !! filename (dirname w) Bundle = Some cached ->
        (id, ctx) ∈ cs ->
        ctx !! js "providerContext"
        = Some (member cached (js "providerContext"))).
Proof.
  destruct (run_spec actions w) as (_ & _ & evs & T & _ & I2 & [pc I3] & I4).
  cbv zeta. split; [|rewrite (new_events_app _ _ _ T); split; [exact I4|split]].
  - intros id ctx Hin.
    destruct (run_calls_origin actions w id ctx Hin)
      as (before & provider & functionName & params & after & bundle &
          Ha & Hb & Q & ->).
    exists before, provider, functionName, params, after, bundle.
    split; [exact Ha|]. split; [exact Hb|]. split; [exact Q|].
    split; [reflexivity|].
    split; [apply executionParams_providerValue|].
    split; [apply executionParams_signal|].
    split; [apply executionParams_providerContext|].
    intros k Hk. now apply executionParams_other.
  - intros id ctx id' ctx' H H'.
    now rewrite (I3 _ _ H), (I3 _ _ H').
  - intros cached id ctx Hc Hin. exact (I2 cached Hc id ctx Hin).
Qed.

(** C10. Whatever keys the parameters of the caller hold, the object a
    provider function is called with has the provider identifier of the
    request under [providerValue], the abort signal made for this call
    under [signal] and the helper bundle under [providerContext]. *)
Theorem engine_fields_override (w w' : world)
    (provider functionName : list N) (params : gmap (list N) value)
    (res : outcome value) (id : nat) (ctx : gmap (list N) value) :
  executeProviderFunction provider functionName params w = (w', res) ->
  (id, ctx) ∈ calls (new_events w w') ->
  exists bundle,
    bundle_exports w = Some bundle
    /\ ctx = executionParams params provider (VSignal (next_signal w))
               (member bundle (js "providerContext"))
    /\ ctx !! js "providerValue" = Some (VStr provider)
    /\ ctx !! js "signal" = Some (VSignal (next_signal w))
    /\ ctx !! js "providerContext"
       = Some (member bundle (js "providerContext")).
Proof.
  intros E Hin.
  destruct (execute_calls provider functionName params w) as (evs & T & H).
  rewrite E in *. cbn [fst] in *. rewrite (new_events_app _ _ _ T) in Hin.
  destruct H as [Q|(bundle & id0 & Hb & _ & Q & _)]; rewrite Q in Hin.
  { now apply elem_of_nil in Hin. }
  apply list_elem_of_singleton in Hin. inversion Hin; subst.
  exists bundle. split; [exact Hb|]. split; [reflexivity|].
  split; [apply executionParams_providerValue|].
  split; [apply executionParams_signal|].
  apply executionParams_providerContext.
Qed.

Lemma engine_fields_override_witness :
  let r :=
    executeProviderFunction (js "demo") (js "getPosts") hostile_params
      demo_world in
  let ctx :=
    executionParams hostile_params (js "demo") (VSignal 0)
      (member demo_bundle (js "providerContext")) in
  ((1%nat, ctx) ∈ calls (new_events demo_world (fst r)))
  /\ exists bundle,
       bundle_exports demo_world = Some bundle
       /\ ctx = executionParams hostile_params (js "demo")
                  (VSignal (next_signal demo_world))
                  (member bundle (js "providerContext"))
       /\ ctx !! js "providerValue" = Some (VStr (js "demo"))
       /\ ctx !! js "signal" = Some (VSignal (next_signal demo_world))
       /\ ctx !! js "providerContext"
          = Some (member bundle (js "providerContext")).
Proof.
  intros r ctx.
  assert ((1%nat, ctx) ∈ calls (new_events demo_world (fst r))) as Hin.
  { apply list_elem_of_In. vm_compute. left. reflexivity. }
  split; [exact Hin|].
  apply (engine_fields_override demo_world (fst r) (js "demo")
           (js "getPosts") hostile_params (snd r) 1 ctx);
    [apply surjective_pairing|exact Hin].
Defined.

Lemma execution_context_shape_witness :
  let actions :=
    [ Invoke (js "demo") (js "getPosts") hostile_params;
      Rebuild (Some demo_dist_rebuilt);
      Invoke (js "demo") (js "getPosts") ∅;
      Invoke (js "demo") (js "getMeta") ∅ ] in
  let cs := calls (new_events demo_world (run actions demo_world)) in
  cs = [ (1%nat, executionParams hostile_params (js "demo") (VSignal 0)
                   (member demo_bundle (js "providerContext")));
         (2%nat, executionParams ∅ (js "demo") (VSignal 1)
                   (member demo_bundle (js "providerContext"))) ]
  /\ NoDup (call_signal <$> cs)
  /\ (forall id ctx id' ctx',
        (id, ctx) ∈ cs -> (id', ctx') ∈ cs ->
        ctx !! js "providerContext" = ctx' !! js "providerContext").
Proof.
  intros actions cs. split; [vm_compute; reflexivity|].
  pose proof (execution_context_shape actions demo_world) as (_ & H & H' & _).
  split; [exact H|exact H'].
Defined.

(** ** The older copy of the server *)

(** Its catalog route answers a catalog that does not decode with status
    500: the handler of the decoding failure reads a variable that is not
    in scope, and the error of that read reaches the outer handler. *)
Example legacy_catalog_route_undecodable :
  snd (Legacy.catalog_route (js "links") demo_world)
  = Returned (Respond 500 (error_body (js "catalogStr is not defined")))
  /\ snd (catalog_route (js "links") demo_world)
     = Returned
         (Respond 200
            (VObj [ (js "catalog", default_catalog);
                    (js "genres",
                     VArr [VObj [(js "title", VStr (js "Action"));
                                 (js "filter", VStr (js "action"))]]) ])).
Proof. split; vm_compute; reflexivity. Qed.

(** * Further properties of the code *)

(** ** The registry *)

Lemma directories_NoDup (entries : list (list N * node)) :
  NoDup (entries.*1) ->
  NoDup (List.map fst (List.filter is_directory entries)).
Proof.
  induction entries as [|[name entry] rest IH]; simpl; intros H.
  - constructor.
  - apply NoDup_cons in H as [Hn Hr].
    destruct (is_directory (name, entry)); [|now apply IH].
    simpl. apply NoDup_cons. split; [|now apply IH].
    intros Hin. apply Hn.
    apply list_elem_of_In, in_map_iff in Hin as ([name' e'] & Heq & Hin).
    simpl in Heq. subst name'. apply filter_In in Hin as [Hin _].
    apply list_elem_of_fmap. exists (name, e'). split; [reflexivity|].
    now apply list_elem_of_In.
Qed.

(** X1. [getAvailableProviders] lists the names of the directories of
    [dist], each once, and nothing else: no file of [dist] is listed, and
    nothing is listed when [dist] does not exist. *)
Theorem registry_lists_directories (w : world) :
  NoDup (getAvailableProviders w)
  /\ (forall name,
        name ∈ getAvailableProviders w <->
        exists d files, dist w = Some d /\ d !! name = Some (Dir files)).
Proof.
  split.
  - unfold getAvailableProviders. destruct (dist w) as [d|]; [|constructor].
    apply directories_NoDup, NoDup_fst_map_to_list.
  - intros name. apply registry_directory.
Qed.

(** ** The catalog route on sources that can be read *)

(** When the source is absent or can be read, the route answers with
    status 200, a catalog that is an array with at least one entry and
    genres that are an array. *)
Lemma catalog_route_readable_answers (w : world) (provider : list N) :
  exists catalog genres w',
    catalog_route provider w
    = (w', Returned
             (Respond 200
                (VObj [ (js "catalog", VArr catalog);
                        (js "genres", VArr genres) ])))
    /\ catalog <> [].
Proof.
  unfold catalog_route, try_catch, resolveCatalog. unfold bind at 1 2.
  destruct (sources w !! provider) as [content|].
  - destruct (extract_spec content w) as (c & g & evs & -> & _).
    cbn [fst snd length_is_zero]. unfold bind, ret.
    destruct c as [|x c].
    + eexists _, g, _. split; [reflexivity|discriminate].
    + eexists (x :: c), g, _. split; [reflexivity|discriminate].
  - eexists _, [], _. split; [reflexivity|discriminate].
Qed.

(** ** The older catalog route *)

(** X4. The catalog route of the older server answers with the bare
    catalog array. A missing source file or a missing declaration gives
    the default catalog; a declaration that decodes is answered as it is,
    an empty array included; a declaration that does not decode gives
    status 500 with the message "catalogStr is not defined". *)
Theorem legacy_catalog_route_cases (w : world) (provider : list N) :
  exists w',
    Legacy.catalog_route provider w
    = (w', Returned
             (match sources w !! provider with
              | None => Respond 200 default_catalog
              | Some content =>
                  match match_declaration (js "catalog") content with
                  | None => Respond 200 default_catalog
                  | Some literal =>
                      match JSON_parse (normalize literal) with
                      | inl catalog => Respond 200 catalog
                      | inr _ =>
                          Respond 500
                            (error_body (js "catalogStr is not defined"))
                      end
                  end
              end)).
Proof.
  unfold Legacy.catalog_route, try_catch. unfold bind at 1.
  destruct (sources w !! provider) as [content|]; [|eexists; reflexivity].
  destruct (match_declaration (js "catalog") content) as [literal|];
    [|eexists; reflexivity].
  unfold try_catch, bind, console_log, console_error, JSON_parse_M, ret, throw.
  destruct (JSON_parse (normalize literal)); eexists; reflexivity.
Qed.

(** ** Requests without their parameter *)

(** X5. GET /meta, /stream and /episodes answer a request whose [link]
    (or [url]) is absent or empty with status 400 and change nothing: no
    module is required, nothing is written to the console. *)
Theorem missing_parameter_rejected (w : world) (provider : list N)
    (query : gmap (list N) (list N)) :
  (missing (query !! js "link") = true ->
   meta_route provider query w
   = (w, Returned (Respond 400 (error_body (js "Link parameter is required"))))
   /\ stream_route provider query w
      = (w, Returned
              (Respond 400 (error_body (js "Link parameter is required")))))
  /\ (missing (query !! js "url") = true ->
      episodes_route provider query w
      = (w, Returned
              (Respond 400 (error_body (js "URL parameter is required"))))).
Proof.
  split; intros H.
  - unfold meta_route, stream_route, try_catch. cbv zeta. rewrite H. auto.
  - unfold episodes_route, try_catch. cbv zeta. now rewrite H.
Qed.

Lemma missing_parameter_rejected_witness :
  meta_route (js "demo") ∅ demo_world
  = (demo_world,
     Returned (Respond 400 (error_body (js "Link parameter is required"))))
  /\ episodes_route (js "demo") {[ js "url" := [] ]} demo_world
     = (demo_world,
        Returned (Respond 400 (error_body (js "URL parameter is required")))).
Proof.
  split.
  - apply (missing_parameter_rejected demo_world (js "demo") ∅). reflexivity.
  - apply (missing_parameter_rejected demo_world (js "demo")
             {[ js "url" := [] ]}).
    vm_compute. reflexivity.
Defined.

(** X6. POST /execute-provider answers a body in which [provider],
    [function] or [params] is absent, or [provider] or [function] is the
    empty string, with status 400 and changes nothing. *)
Theorem execute_provider_missing_fields (w : world) (body : execute_body) :
  missing (body_provider body) = true
  \/ missing (body_function body) = true
  \/ body_params body = None ->
  execute_provider_route body w
  = (w, Returned
          (Respond 400
             (error_body
                (js "Missing required fields: provider, function, params")))).
Proof.
  destruct body as [[[|c p]|] [[|d f]|] [params|]]; cbn [body_provider
    body_function body_params missing];
    intros [H|[H|H]]; try discriminate; reflexivity.
Qed.

Lemma execute_provider_missing_fields_witness :
  execute_provider_route (ExecuteBody (Some (js "demo")) (Some []) (Some ∅))
    demo_world
  = (demo_world,
     Returned
       (Respond 400
          (error_body
             (js "Missing required fields: provider, function, params")))).
Proof.
  apply (execute_provider_missing_fields demo_world
           (ExecuteBody (Some (js "demo")) (Some []) (Some ∅))).
  right. left. reflexivity.
Defined.

(** ** Paths of provider modules *)

Lemma separator_split (p q f g : list N) :
  47%N ∉ p -> 47%N ∉ q -> p ++ 47%N :: f = q ++ 47%N :: g -> p = q.
Proof.
  revert q. induction p as [|a p IH]; intros [|b q] Hp Hq H; simpl in H.
  - reflexivity.
  - inversion H; subst. exfalso. apply Hq. now left.
  - inversion H; subst. exfalso. apply Hp. now left.
  - inversion H; subst. f_equal. apply IH; [| |assumption].
    + intros Hin. apply Hp. now right.
    + intros Hin. apply Hq. now right.
Qed.

Lemma path_component_separator (name : list N) :
  path_component name = true -> 47%N ∉ name.
Proof.
  unfold path_component. intros H.
  apply andb_prop in H as [H _]. apply andb_prop in H as [H _].
  apply andb_prop in H as [_ H]. apply negb_true_iff in H.
  now apply bool_decide_eq_false in H.
Qed.

Lemma filename_module (root provider file : list N) :
  filename root (ProviderModule provider file)
  = root ++ 47%N :: js "dist" ++ 47%N :: provider ++ 47%N :: file.
Proof. unfold filename, distDir, path_join. now rewrite <- app_assoc. Qed.

Lemma module_path_provider (root p q f g : list N) :
  47%N ∉ p -> 47%N ∉ q ->
  filename root (ProviderModule p f) = filename root (ProviderModule q g) ->
  p = q.
Proof.
  intros Hp Hq H. rewrite !filename_module in H.
  apply app_inv_head in H. injection H as H.
  eapply separator_split; eassumption.
Qed.

Lemma module_path_not_bundle (root p f : list N) :
  filename root (ProviderModule p f) <> filename root Bundle.
Proof.
  rewrite filename_module. unfold filename, path_join. intros H.
  apply app_inv_head in H. injection H as H.
  assert (47%N ∈ js "providerContext") as Hin.
  { rewrite <- H. apply elem_of_app. right. now left. }
  revert Hin.
  apply (proj1 (bool_decide_eq_false (47%N ∈ js "providerContext"))).
  reflexivity.
Qed.

(** ** What a call leaves alone *)

(** X7. A call for one provider does not write to the [dist] directory or
    to the sources, and it leaves the cached modules of every other
    provider in the cache as they are: only modules of the provider of the
    call are evicted and loaded. *)
Theorem other_providers_untouched (w : world)
    (provider other functionName file : list N)
    (params : gmap (list N) value) :
  path_component provider = true ->
  path_component other = true ->
  other <> provider ->
  let w' := fst (executeProviderFunction provider functionName params w) in
  require_cache w' !! filename (dirname w) (ProviderModule other file)
  = require_cache w !! filename (dirname w) (ProviderModule other file)
  /\ dist w' = dist w /\ sources w' = sources w.
Proof.
  intros Hp Ho Hne w'.
  destruct (executeProviderFunction provider functionName params w)
    as [w1 res] eqn:E.
  pose proof (Stable_executeProviderFunction _ _ _ _ _ _ E)
    as (_ & D & S & _ & _ & K & _).
  subst w'. cbn [fst]. split; [|auto]. apply K.
  unfold engine_paths. intros Hin.
  apply elem_of_cons in Hin as [Hin|Hin];
    [now apply module_path_not_bundle in Hin|].
  repeat (apply elem_of_cons in Hin as [Hin|Hin];
          [apply module_path_provider in Hin;
           [contradiction | now apply path_component_separator
                          | now apply path_component_separator]|]).
  now apply elem_of_nil in Hin.
Qed.

Lemma other_providers_untouched_witness :
  let w1 :=
    fst (executeProviderFunction (js "faulty") (js "getPosts") ∅ demo_world) in
  let w' := fst (executeProviderFunction (js "demo") (js "getPosts") ∅ w1) in
  require_cache w'
  !! filename (dirname w1) (ProviderModule (js "faulty") (js "posts.js"))
  = Some {[ js "getPosts" := VFun 3 ]}
  /\ dist w' = dist w1 /\ sources w' = sources w1.
Proof.
  intros w1 w'.
  destruct (other_providers_untouched w1 (js "demo") (js "faulty")
              (js "getPosts") (js "posts.js") ∅ eq_refl eq_refl)
    as (H & D & S); [discriminate|].
  fold w' in H, D, S. split; [|auto]. rewrite H. vm_compute. reflexivity.
Defined.

(** ** Failures and successes of a call *)

(** X8. Whatever makes [executeProviderFunction] raise an error, it has
    written that error to the console, under the label "Error executing
    <provider>.<function>:", before raising it. *)
Theorem failure_is_logged (w w' : world) (provider functionName : list N)
    (params : gmap (list N) value) (e : exn) :
  executeProviderFunction provider functionName params w = (w', Thrown e) ->
  ConsoleError (js "Error executing " ++ provider
                  ++ 46%N :: functionName ++ [58%N]) (message e)
  ∈ new_events w w'.
Proof.
  intros E.
  destruct (execute_spec provider functionName params w)
    as (w1 & evs & res & E1 & T & L & _).
  rewrite E in E1. inversion E1; subst.
  rewrite (new_events_app _ _ _ T). now apply L.
Qed.

Lemma failure_is_logged_witness :
  ConsoleError (js "Error executing " ++ js "ghost"
                  ++ 46%N :: js "getPosts" ++ [58%N])
               (message (JsError (js "Provider function not found: ghost/getPosts")))
  ∈ new_events demo_world
      (fst (executeProviderFunction (js "ghost") (js "getPosts") ∅ demo_world)).
Proof.
  apply (failure_is_logged demo_world _ (js "ghost") (js "getPosts") ∅).
  vm_compute. reflexivity.
Defined.

(** On regular files, a call that returns a value has called exactly one
    provider function, once: the function that the module file on disk
    exports under the name of the capability. *)
Lemma success_from_disk (w w' : world)
    (provider functionName : list N) (params : gmap (list N) value)
    (v : value) :
  executeProviderFunction provider functionName params w = (w', Returned v) ->
  exists file exports id args,
    module_file functionName = Some file
    /\ on_disk w (ProviderModule provider file) = Some (Compiled exports)
    /\ exports !! functionName = Some (VFun id)
    /\ calls (new_events w w') = [(id, args)]
    /\ closures w id args = Returned v
    /\ provider ∈ getAvailableProviders w.
Proof.
  intros E.
  destruct (execute_spec provider functionName params w)
    as (w1 & evs & res & E1 & T & _ & H).
  rewrite E in E1. inversion E1; subst w1 res. clear E1.
  rewrite (new_events_app _ _ _ T).
  destruct (bundle_exports w) as [bundle|];
    [|destruct H as ([e He] & _); discriminate].
  destruct H as (_ & H).
  destruct (negb (truthy (property functionMap functionName)));
    [destruct H as (He & _); discriminate|].
  destruct (module_file functionName) as [file|];
    [|destruct H as (He & _); discriminate].
  destruct H as (_ & H).
  destruct (on_disk w (ProviderModule provider file))
    as [[failure|exports]|] eqn:Hd;
    try (destruct H as (He & _); discriminate).
  destruct H as (_ & _ & H).
  destruct (truthy (member exports functionName));
    [|destruct H as (He & _); discriminate].
  unfold member in H.
  destruct (exports !! functionName) as [[| | | | | | | |id| |]|] eqn:Hx;
    cbn [default] in H; try (destruct H as (He & _); discriminate).
  cbv zeta in H. destruct H as (Hr & Q & _).
  eexists file, exports, id, _. repeat split; eauto.
  apply registry_directory. unfold on_disk in Hd.
  destruct (dist w) as [d|]; [|discriminate].
  destruct (d !! provider) as [[a|files]|] eqn:Hp; try discriminate. eauto.
Qed.

(** X10. Whatever the request, one call of [executeProviderFunction] calls
    at most one provider function and creates at most one abort signal;
    when it creates none, it calls nothing. *)
Theorem at_most_one_call (w : world) (provider functionName : list N)
    (params : gmap (list N) value) :
  let w' := fst (executeProviderFunction provider functionName params w) in
  length (calls (new_events w w')) <= 1
  /\ next_signal w <= next_signal w' <= S (next_signal w)
  /\ (next_signal w' = next_signal w -> calls (new_events w w') = []).
Proof.
  destruct (execute_spec provider functionName params w)
    as (w' & evs & res & E & T & _ & H).
  rewrite E. cbn [fst]. rewrite (new_events_app _ _ _ T).
  assert (calls evs = [] /\ next_signal w' = next_signal w
          \/ calls evs = [] /\ next_signal w' = S (next_signal w)
          \/ (exists c, calls evs = [c]) /\ next_signal w' = S (next_signal w))
    as Hcases.
  { destruct (bundle_exports w) as [bundle|]; [|tauto].
    destruct H as (_ & H).
    destruct (negb (truthy (property functionMap functionName))); [tauto|].
    destruct (module_file functionName) as [file|]; [|tauto].
    destruct H as (_ & H).
    destruct (on_disk w (ProviderModule provider file))
      as [[failure|exports]|]; try tauto.
    destruct H as (_ & _ & H).
    destruct (truthy (member exports functionName)); [|tauto].
    destruct (member exports functionName); try tauto.
    cbv zeta in H. destruct H as (_ & Q & S). eauto 6. }
  destruct Hcases as [[-> ->]|[[-> ->]|[[c ->] ->]]]; cbn [length];
    repeat split; try lia; auto.
Qed.

(** Lines 349-382 on a regular module file that loads: the module is
    evicted and the file read from disk again. *)
Lemma load_events (provider functionName file : list N) (w : world)
    (exports : gmap (list N) value) :
  module_file functionName = Some file ->
  on_disk w (ProviderModule provider file) = Some (Compiled exports) ->
  let path := filename (dirname w) (ProviderModule provider file) in
  let w' := fst (load_provider_function provider functionName w) in
  new_events w w'
  = (if bool_decide (is_Some (require_cache w !! path))
     then [Required path]
     else [Required path; Loaded path])
    ++ [Evicted path; Required path; Loaded path].
Proof.
  intros Hf Hd path. unfold load_provider_function, try_catch.
  rewrite (import_function_eq _ _ _ Hf). unfold bind at 1 2.
  unfold require at 1. fold path.
  case_bool_decide as Hc.
  - destruct Hc as [stale Hc]. rewrite Hc. unfold ret at 1. cbn [fst snd].
    rewrite (reload_function_eq provider _ _ _ Hf).
    unfold bind at 1, is_cached. world_simpl. fold path.
    rewrite bool_decide_eq_true_2 by eauto.
    unfold bind, evict, require, ret. world_simpl. fold path.
    rewrite lookup_delete_eq.
    repeat (rewrite on_disk_event || rewrite on_disk_cache). rewrite Hd.
    cbn [fst]. apply new_events_app. world_simpl.
    now rewrite <- !app_assoc.
  - apply eq_None_not_Some in Hc. rewrite Hc, Hd.
    unfold ret at 1. cbn [fst snd].
    rewrite (reload_function_eq provider _ _ _ Hf).
    unfold bind at 1, is_cached. world_simpl. fold path.
    rewrite lookup_insert_eq.
    rewrite bool_decide_eq_true_2 by eauto.
    unfold bind, evict, require, ret. world_simpl. fold path.
    rewrite lookup_delete_eq.
    repeat (rewrite on_disk_event || rewrite on_disk_cache). rewrite Hd.
    cbn [fst]. apply new_events_app. world_simpl.
    now rewrite <- !app_assoc.
Qed.

(** X12. When the helper bundle is neither cached nor on disk, every call
    fails with the error of [require], "Cannot find module" with the path
    of the bundle, whatever the provider and the function name: the name
    is not validated and no provider module is looked for. *)
Theorem missing_bundle_fails_every_call (w : world)
    (provider functionName : list N) (params : gmap (list N) value) :
  require_cache w !! filename (dirname w) Bundle = None ->
  on_disk w Bundle = None ->
  let path := filename (dirname w) Bundle in
  let text := js "Cannot find module '" ++ path ++ [39%N] in
  executeProviderFunction provider functionName params w
  = (record_event
       (ConsoleError (js "Error executing " ++ provider
                        ++ 46%N :: functionName ++ [58%N]) text)
       (record_event (Required path) w),
     Thrown (JsError text)).
Proof.
  intros Hc Hd path text.
  unfold executeProviderFunction, try_catch, bind at 1, require.
  rewrite Hc, Hd. reflexivity.
Qed.

Lemma missing_bundle_fails_every_call_witness :
  snd (executeProviderFunction (js "demo") (js "noSuchFunction") ∅
         demo_world_not_built)
  = Thrown (JsError (js "Cannot find module '/srv/dist/providerContext'")).
Proof.
  rewrite (missing_bundle_fails_every_call demo_world_not_built (js "demo")
             (js "noSuchFunction") ∅ eq_refl eq_refl).
  reflexivity.
Defined.

(** X13. An export of the capability that is not a function: a falsy one
    (null, 0, the empty string, ...) is reported as "Function not
    exported", like an absent one; a truthy one passes the check of line
    388, an abort signal is created, and the call fails with the TypeError
    "providerFunction is not a function". No provider function is called
    in either case. *)
Theorem export_not_callable (w : world) (provider functionName file : list N)
    (params : gmap (list N) value) (bundle exports : gmap (list N) value) :
  bundle_exports w = Some bundle ->
  module_file functionName = Some file ->
  on_disk w (ProviderModule provider file) = Some (Compiled exports) ->
  (forall id, member exports functionName <> VFun id) ->
  exists w',
    executeProviderFunction provider functionName params w
    = (w', Thrown (JsError
                     (if truthy (member exports functionName)
                      then js "providerFunction is not a function"
                      else js "Function not exported: " ++ functionName
                             ++ js " from " ++ provider)))
    /\ calls (new_events w w') = []
    /\ next_signal w'
       = (if truthy (member exports functionName)
          then S (next_signal w) else next_signal w).
Proof.
  intros Hb Hf Hd Hn.
  destruct (execute_spec provider functionName params w)
    as (w' & evs & res & E & T & _ & H).
  rewrite Hb, Hf, Hd in H. destruct H as (_ & H).
  assert (negb (truthy (property functionMap functionName)) = false) as Hk.
  { apply module_file_cases in Hf.
    destruct Hf as [[-> _]|[[-> _]|[[-> _]|[[-> _]|[-> _]]]]]; reflexivity. }
  rewrite Hk in H. destruct H as (_ & _ & _ & H).
  exists w'. rewrite E, (new_events_app _ _ _ T).
  destruct (truthy (member exports functionName)).
  - destruct (member exports functionName) as [| | | | | | | |id| |];
      try (destruct H as (-> & Q & S); auto).
    now destruct (Hn id).
  - destruct H as (-> & Q & S); auto.
Qed.

Lemma export_not_callable_witness :
  exists w',
    executeProviderFunction (js "demo") (js "getMeta") ∅ demo_world_complete
    = (w', Thrown (JsError (js "providerFunction is not a function")))
    /\ calls (new_events demo_world_complete w') = []
    /\ next_signal w' = 1.
Proof.
  destruct (export_not_callable demo_world_complete (js "demo")
              (js "getMeta") (js "meta.js") ∅ demo_bundle
              {[ js "getMeta" := VStr (js "later") ]})
    as (w' & E & Q & S).
  - vm_compute. reflexivity.
  - reflexivity.
  - vm_compute. reflexivity.
  - intros id. vm_compute. discriminate.
  - exists w'. rewrite E, Q, S. repeat split.
Defined.

(** ** The routes that call the engine *)

Lemma execute_call (w : world) (provider functionName file : list N)
    (params : gmap (list N) value) (bundle exports : gmap (list N) value)
    (id : nat) :
  bundle_exports w = Some bundle ->
  module_file functionName = Some file ->
  on_disk w (ProviderModule provider file) = Some (Compiled exports) ->
  exports !! functionName = Some (VFun id) ->
  let args :=
    executionParams params provider (VSignal (next_signal w))
      (member bundle (js "providerContext")) in
  exists w' evs,
    executeProviderFunction provider functionName params w
    = (w', closures w id args)
    /\ trace w' = trace w ++ evs
    /\ calls evs = [(id, args)].
Proof.
  intros Hb Hf Hd Hx args.
  destruct (execute_spec provider functionName params w)
    as (w' & evs & res & E & T & _ & H).
  rewrite Hb, Hf, Hd in H. destruct H as (_ & H).
  assert (negb (truthy (property functionMap functionName)) = false) as Hk.
  { apply module_file_cases in Hf.
    destruct Hf as [[-> _]|[[-> _]|[[-> _]|[[-> _]|[-> _]]]]]; reflexivity. }
  rewrite Hk in H. destruct H as (_ & _ & _ & H).
  unfold member in H. rewrite Hx in H. cbn [default truthy] in H.
  cbv zeta in H. destruct H as (-> & Q & _).
  exists w', evs. auto.
Qed.

Lemma route_answer (label : list N) (m : M value) (w w1 : world)
    (evs : list event) (res : outcome value) :
  m w = (w1, res) ->
  trace w1 = trace w ++ evs ->
  exists w',
    try_catch
      (result <- m ;; ret (Respond 200 result))
      (fun error =>
         console_error label (message error) ;;;
         ret (Respond 500 (error_body (message error)))) w
    = (w', Returned
             match res with
             | Returned result => Respond 200 result
             | Thrown e => Respond 500 (error_body (message e))
             end)
    /\ calls (new_events w w') = calls evs.
Proof.
  intros E T. unfold try_catch, bind at 1. rewrite E.
  destruct res as [v|e].
  - exists w1. split; [reflexivity|]. now rewrite (new_events_app _ _ _ T).
  - eexists. split; [reflexivity|].
    erewrite new_events_app;
      [|world_simpl; rewrite T, <- app_assoc; reflexivity].
    rewrite calls_app. cbn. now rewrite app_nil_r.
Qed.

(** X14. GET /search/:provider on a provider whose posts module exports
    [getSearchPosts]: that function is called once, with the query text
    under [searchQuery] (the empty string when the request has none), the
    page number read by [parseInt] (1 when the request has none) and the
    provider under [providerValue]; its result is answered with status
    200, and an error it raises with status 500 and the message. *)
Theorem search_route_calls_getSearchPosts (w : world) (provider : list N)
    (query : gmap (list N) (list N)) (bundle exports : gmap (list N) value)
    (id : nat) :
  bundle_exports w = Some bundle ->
  on_disk w (ProviderModule provider (js "posts.js"))
  = Some (Compiled exports) ->
  exports !! js "getSearchPosts" = Some (VFun id) ->
  exists w' args,
    search_route provider query w
    = (w', Returned
             match closures w id args with
             | Returned result => Respond 200 result
             | Thrown e => Respond 500 (error_body (message e))
             end)
    /\ calls (new_events w w') = [(id, args)]
    /\ args !! js "searchQuery"
       = Some (VStr (default [] (query !! js "query")))
    /\ args !! js "page"
       = Some match query !! js "page" with
              | Some digits => parseInt digits
              | None => VNum 1 0
              end
    /\ args !! js "providerValue" = Some (VStr provider).
Proof.
  intros Hb Hd Hx.
  destruct (execute_call w provider (js "getSearchPosts") (js "posts.js")
              (search_params query) bundle exports id Hb eq_refl Hd Hx)
    as (w1 & evs & E & T & Q).
  destruct (route_answer (js "Search error:") _ _ _ _ _ E T) as (w' & R & C).
  exists w'. eexists. split; [exact R|]. rewrite C, Q. auto.
Qed.

Lemma search_route_calls_getSearchPosts_witness :
  exists w' args,
    search_route (js "demo") {[ js "query" := js "dune" ]} demo_world_complete
    = (w', Returned (Respond 200 (VArr [VStr (js "new")])))
    /\ calls (new_events demo_world_complete w') = [(2, args)]
    /\ args !! js "searchQuery" = Some (VStr (js "dune"))
    /\ args !! js "page" = Some (VNum 1 0)
    /\ args !! js "providerValue" = Some (VStr (js "demo")).
Proof.
  destruct (search_route_calls_getSearchPosts demo_world_complete (js "demo")
              {[ js "query" := js "dune" ]} demo_bundle
              (<[js "getSearchPosts" := VFun 2]> {[ js "getPosts" := VFun 1 ]})
              2)
    as (w' & args & R & C & A1 & A2 & A3);
    [vm_compute; reflexivity ..|].
  exists w', args. rewrite R, C, A1, A2, A3. repeat split.
Defined.

(** X15. GET /stream/:provider with a link, on a provider whose stream
    module exports [getStream]: that function is called once, with the
    link, with [type] as the request gave it and undefined when it gave
    none, and with the provider; its result is answered with status 200,
    and an error it raises with status 500 and the message. *)
Theorem stream_route_calls_getStream (w : world) (provider : list N)
    (query : gmap (list N) (list N)) (bundle exports : gmap (list N) value)
    (id : nat) :
  missing (query !! js "link") = false ->
  bundle_exports w = Some bundle ->
  on_disk w (ProviderModule provider (js "stream.js"))
  = Some (Compiled exports) ->
  exports !! js "getStream" = Some (VFun id) ->
  exists w' args,
    stream_route provider query w
    = (w', Returned
             match closures w id args with
             | Returned result => Respond 200 result
             | Thrown e => Respond 500 (error_body (message e))
             end)
    /\ calls (new_events w w') = [(id, args)]
    /\ args !! js "link" = VStr <$> query !! js "link"
    /\ args !! js "type"
       = Some match query !! js "type" with
              | Some text => VStr text
              | None => VUndefined
              end
    /\ args !! js "providerValue" = Some (VStr provider).
Proof.
  intros Hl Hb Hd Hx. unfold stream_route. cbv zeta. rewrite Hl.
  match goal with
  | |- context [executeProviderFunction _ _ ?params] =>
      destruct (execute_call w provider (js "getStream") (js "stream.js")
                  params bundle exports id Hb eq_refl Hd Hx)
        as (w1 & evs & E & T & Q)
  end.
  destruct (route_answer (js "Stream error:") _ _ _ _ _ E T) as (w' & R & C).
  exists w'. eexists. split; [exact R|]. rewrite C, Q.
  destruct (query !! js "link") as [link|]; [|discriminate]. auto.
Qed.

Lemma stream_route_calls_getStream_witness :
  exists w' args,
    stream_route (js "demo") {[ js "link" := js "http://x/1" ]}
      demo_world_complete
    = (w', Returned (Respond 200 (VArr [VStr (js "old")])))
    /\ calls (new_events demo_world_complete w') = [(1, args)]
    /\ args !! js "link" = Some (VStr (js "http://x/1"))
    /\ args !! js "type" = Some VUndefined
    /\ args !! js "providerValue" = Some (VStr (js "demo")).
Proof.
  destruct (stream_route_calls_getStream demo_world_complete (js "demo")
              {[ js "link" := js "http://x/1" ]} demo_bundle
              {[ js "getStream" := VFun 1 ]} 1)
    as (w' & args & R & C & A1 & A2 & A3);
    [vm_compute; reflexivity ..|].
  exists w', args. rewrite R, C, A1, A2, A3. repeat split.
Defined.

(** ** The address shown at start *)

Lemma scan_addresses_find (addresses : list iface) (localIp : list N) :
  scan_addresses addresses localIp
  = match List.find external_ipv4 addresses with
    | Some a => address a
    | None => localIp
    end.
Proof.
  induction addresses as [|a rest IH]; [reflexivity|]. simpl.
  unfold external_ipv4 at 1.
  destruct (jsstring_eqb (family a) (js "IPv4") && negb (internal a)); auto.
Qed.

Lemma find_app_first {A} (f : A -> bool) (l1 l2 : list A) :
  List.find f (l1 ++ l2)
  = match List.find f l1 with
    | Some a => Some a
    | None => List.find f l2
    end.
Proof.
  induction l1 as [|a l1 IH]; [reflexivity|]. simpl.
  destruct (f a); auto.
Qed.

(** X16. The address [start] prints for the mobile test URL: the address
    of the first entry, in the order of the interfaces and of their
    addresses, that is IPv4 and not internal, and "localhost" when there
    is none (no accepted address being the text "localhost" itself). *)
Theorem local_ip_first_external (interfaces : list (list N * list iface)) :
  let addresses := concat (List.map snd interfaces) in
  (forall a, a ∈ addresses -> external_ipv4 a = true ->
             address a <> js "localhost") ->
  local_ip interfaces
  = match List.find external_ipv4 addresses with
    | Some a => address a
    | None => js "localhost"
    end.
Proof.
  unfold local_ip. cbv zeta.
  induction interfaces as [|[name addresses] rest IH]; intros H;
    [reflexivity|].
  cbn [scan_interfaces List.map snd concat] in *.
  rewrite find_app_first, scan_addresses_find.
  destruct (List.find external_ipv4 addresses) as [a|] eqn:Hfind.
  - apply find_some in Hfind as [Hin Hext].
    assert (address a <> js "localhost") as Hne.
    { apply H; [|assumption]. apply elem_of_app. left.
      now apply list_elem_of_In. }
    unfold jsstring_eqb. now rewrite bool_decide_eq_false_2.
  - unfold jsstring_eqb. rewrite bool_decide_eq_true_2 by reflexivity.
    cbn [negb]. apply IH. intros a Hin. apply H, elem_of_app. now right.
Qed.

Lemma local_ip_first_external_witness :
  local_ip [ (js "lo", [Iface (js "IPv4") true (js "127.0.0.1")]);
             (js "eth0", [Iface (js "IPv6") false (js "fe80::1");
                          Iface (js "IPv4") false (js "192.168.1.7")]);
             (js "wlan0", [Iface (js "IPv4") false (js "10.0.0.2")]) ]
  = js "192.168.1.7".
Proof.
  rewrite local_ip_first_external; [reflexivity|].
  intros a Hin Hext. apply list_elem_of_In in Hin. simpl in Hin.
  intuition (subst; discriminate).
Defined.

(** ** A well-formed catalog declaration is answered as it is written *)

Lemma plain_char_cases (c : N) :
  plain_char c = true ->
  (32 <=? c)%N = true /\ (c =? 34)%N = false /\ (c =? 39)%N = false
  /\ (c =? 44)%N = false /\ (c =? 58)%N = false /\ (c =? 92)%N = false
  /\ (c =? 93)%N = false.
Proof.
  unfold plain_char. intros H. apply andb_prop in H as [H1 H2].
  apply negb_true_iff in H2. repeat (apply orb_false_elim in H2 as [H2 ?]).
  auto 10.
Qed.

Lemma render_entry_app (e : list N * list N) (rest : list N) :
  render_entry e ++ rest
  = js "{title: '" ++ fst e ++ 39%N :: js ", filter: '" ++ snd e
    ++ 39%N :: 125%N :: rest.
Proof. unfold render_entry. rewrite <- !app_assoc. reflexivity. Qed.

Lemma quoted_entry_app (q : N) (e : list N * list N) (rest : list N) :
  quoted_entry q e ++ rest
  = (123 :: 34 :: js "title" ++ [34; 58; 32; q])%N ++ fst e
    ++ (q :: 44 :: 32 :: 34 :: js "filter" ++ [34; 58; 32; q])%N ++ snd e
    ++ q :: 125%N :: rest.
Proof. unfold quoted_entry. rewrite <- !app_assoc. reflexivity. Qed.

(** *** First rewrite *)

Lemma quote_keys_plain (s : list N) :
  plain s ->
  forall w rest,
    quote_keys false w (s ++ 39%N :: rest)
    = w ++ s ++ 39%N :: quote_keys false [] rest.
Proof.
  induction 1 as [|c s Hc Hs IH]; intros w rest; [reflexivity|].
  apply plain_char_cases in Hc as (_ & _ & _ & _ & Hcolon & _).
  cbn [app quote_keys andb]. rewrite Hcolon. cbn [andb].
  destruct (is_word c).
  - rewrite IH, <- app_assoc. reflexivity.
  - rewrite IH. reflexivity.
Qed.

Lemma quote_keys_entry (e : list N * list N) (rest : list N) :
  plain_entry e ->
  quote_keys false [] (render_entry e ++ rest)
  = quoted_entry 39 e ++ quote_keys false [] rest.
Proof.
  intros [Ht Hf]. rewrite render_entry_app, quoted_entry_app.
  change (quote_keys false [] (js "{title: '" ++ ?x))
    with ((123 :: 34 :: js "title" ++ [34; 58; 32; 39])%N
            ++ quote_keys false [] x).
  rewrite (quote_keys_plain _ Ht). cbn [app]. do 2 f_equal.
  change (quote_keys false [] (js ", filter: '" ++ ?x))
    with ((44 :: 32 :: 34 :: js "filter" ++ [34; 58; 32; 39])%N
            ++ quote_keys false [] x).
  rewrite (quote_keys_plain _ Hf). reflexivity.
Qed.

Lemma quote_keys_more (es : list (list N * list N)) (tail : list N) :
  Forall plain_entry es ->
  quote_keys false [] (render_more es ++ tail)
  = quoted_more 39 es ++ quote_keys false [] tail.
Proof.
  induction 1 as [|e es He Hes IH]; [reflexivity|].
  cbn [render_more quoted_more]. rewrite <- !app_assoc.
  change (quote_keys false [] (js ", " ++ ?x))
    with (js ", " ++ quote_keys false [] x).
  now rewrite (quote_keys_entry _ _ He), IH.
Qed.

Lemma quote_keys_literal (e : list N * list N) (es : list (list N * list N))
    (trailing_comma : bool) :
  plain_entry e -> Forall plain_entry es ->
  quote_keys false [] (render_literal e es trailing_comma)
  = 91%N :: quoted_entry 39 e ++ quoted_more 39 es
      ++ (if trailing_comma then [44%N] else []) ++ [93%N].
Proof.
  intros He Hes. unfold render_literal.
  change (quote_keys false [] (91%N :: ?x))
    with (91%N :: quote_keys false [] x).
  rewrite (quote_keys_entry _ _ He), (quote_keys_more _ _ Hes).
  now destruct trailing_comma.
Qed.

(** *** Second rewrite *)

Lemma drop_trailing_commas_plain (s : list N) :
  plain s ->
  forall rest,
    drop_trailing_commas None (s ++ rest) = s ++ drop_trailing_commas None rest.
Proof.
  induction 1 as [|c s Hc Hs IH]; intros rest; [reflexivity|].
  apply plain_char_cases in Hc as (_ & _ & _ & Hcomma & _).
  cbn [app drop_trailing_commas]. now rewrite Hcomma, IH.
Qed.

Lemma drop_trailing_commas_entry (e : list N * list N) (rest : list N) :
  plain_entry e ->
  drop_trailing_commas None (quoted_entry 39 e ++ rest)
  = quoted_entry 39 e ++ drop_trailing_commas None rest.
Proof.
  intros [Ht Hf]. rewrite !quoted_entry_app.
  change (drop_trailing_commas None
            ((123 :: 34 :: js "title" ++ [34; 58; 32; 39])%N ++ ?x))
    with ((123 :: 34 :: js "title" ++ [34; 58; 32; 39])%N
            ++ drop_trailing_commas None x).
  rewrite (drop_trailing_commas_plain _ Ht).
  change (drop_trailing_commas None
            ((39 :: 44 :: 32 :: 34 :: js "filter" ++ [34; 58; 32; 39])%N
               ++ ?x))
    with ((39 :: 44 :: 32 :: 34 :: js "filter" ++ [34; 58; 32; 39])%N
            ++ drop_trailing_commas None x).
  rewrite (drop_trailing_commas_plain _ Hf). reflexivity.
Qed.

Lemma drop_trailing_commas_more (es : list (list N * list N))
    (trailing_comma : bool) :
  Forall plain_entry es ->
  drop_trailing_commas None
    (quoted_more 39 es ++ (if trailing_comma then [44%N] else []) ++ [93%N])
  = quoted_more 39 es ++ [93%N].
Proof.
  induction 1 as [|e es He Hes IH]; [now destruct trailing_comma|].
  cbn [quoted_more]. rewrite <- !app_assoc.
  rewrite (quoted_entry_app 39 e).
  change (drop_trailing_commas None
            (js ", "
             ++ (123 :: 34 :: js "title" ++ [34; 58; 32; 39])%N ++ ?x))
    with (js ", " ++ drop_trailing_commas None
            ((123 :: 34 :: js "title" ++ [34; 58; 32; 39])%N ++ x)).
  rewrite <- (quoted_entry_app 39 e).
  now rewrite (drop_trailing_commas_entry _ _ He), IH.
Qed.

(** *** Third rewrite *)

Lemma double_quotes_plain (s : list N) : plain s -> double_quotes s = s.
Proof.
  unfold double_quotes. induction 1 as [|c s Hc Hs IH]; [reflexivity|].
  apply plain_char_cases in Hc as (_ & _ & Hquote & _).
  cbn [List.map]. now rewrite Hquote, IH.
Qed.

Lemma double_quotes_app (s t : list N) :
  double_quotes (s ++ t) = double_quotes s ++ double_quotes t.
Proof. apply List.map_app. Qed.

Lemma double_quotes_entry (e : list N * list N) :
  plain_entry e -> double_quotes (quoted_entry 39 e) = quoted_entry 34 e.
Proof.
  intros [Ht Hf]. unfold quoted_entry.
  rewrite !double_quotes_app, (double_quotes_plain _ Ht),
    (double_quotes_plain _ Hf).
  reflexivity.
Qed.

Lemma double_quotes_more (es : list (list N * list N)) :
  Forall plain_entry es -> double_quotes (quoted_more 39 es) = quoted_more 34 es.
Proof.
  induction 1 as [|e es He Hes IH]; [reflexivity|].
  cbn [quoted_more].
  now rewrite !double_quotes_app, (double_quotes_entry _ He), IH.
Qed.

Lemma normalize_literal (e : list N * list N) (es : list (list N * list N))
    (trailing_comma : bool) :
  plain_entry e -> Forall plain_entry es ->
  normalize (render_literal e es trailing_comma)
  = 91%N :: quoted_entry 34 e ++ quoted_more 34 es ++ [93%N].
Proof.
  intros He Hes. unfold normalize.
  rewrite (quote_keys_literal _ _ _ He Hes).
  change (drop_trailing_commas None (91%N :: ?x))
    with (91%N :: drop_trailing_commas None x).
  rewrite (drop_trailing_commas_entry _ _ He),
    (drop_trailing_commas_more _ _ Hes).
  change (double_quotes (91%N :: ?x)) with (91%N :: double_quotes x).
  rewrite !double_quotes_app, (double_quotes_entry _ He),
    (double_quotes_more _ Hes).
  reflexivity.
Qed.

(** *** Decoding *)

Lemma parse_chars_plain (s : list N) :
  plain s ->
  forall acc rest,
    parse_chars (s ++ 34%N :: rest) acc = Some (rev acc ++ s, rest).
Proof.
  induction 1 as [|c s Hc Hs IH]; intros acc rest.
  - cbn. now rewrite app_nil_r.
  - apply plain_char_cases in Hc as (Hlow & Hq & _ & _ & _ & Hb & _).
    cbn [app parse_chars]. rewrite Hq, Hb.
    replace (c <? 32)%N with false
      by (symmetry; apply N.ltb_ge; now apply N.leb_le).
    rewrite IH. cbn [rev]. now rewrite <- app_assoc.
Qed.

Lemma parse_string (n : nat) (s rest : list N) :
  plain s ->
  parse_value (S n) (32%N :: 34%N :: s ++ 34%N :: rest) = Parsed (VStr s) rest.
Proof.
  intros Hs.
  change (parse_value (S n) (32%N :: 34%N :: ?x))
    with (match parse_chars x [] with
          | Some (str, r') => Parsed (VStr str) r'
          | None => Malformed
          end).
  now rewrite (parse_chars_plain _ Hs).
Qed.

Lemma parse_member (n : nat) (k s rest : list N)
    (acc : list (list N * value)) :
  plain k -> plain s ->
  parse_members (S (S n))
    (34%N :: k ++ 34%N :: 58%N :: 32%N :: 34%N :: s ++ 34%N :: rest) acc
  = match skip_ws rest with
    | [] => Malformed
    | d :: r4 =>
        if (d =? 44)%N then parse_members (S n) r4 (obj_set k (VStr s) acc)
        else if (d =? 125)%N then Parsed (VObj (obj_set k (VStr s) acc)) r4
        else Malformed
    end.
Proof.
  intros Hk Hs.
  change (parse_members (S (S n)) (34%N :: ?x) acc)
    with (match parse_chars x [] with
          | None => Malformed
          | Some (k, r1) =>
              match skip_ws r1 with
              | [] => Malformed
              | c :: r2 =>
                  if (c =? 58)%N then
                    match parse_value (S n) r2 with
                    | Parsed v r3 =>
                        match skip_ws r3 with
                        | [] => Malformed
                        | d :: r4 =>
                            if (d =? 44)%N then
                              parse_members (S n) r4 (obj_set k v acc)
                            else if (d =? 125)%N then
                              Parsed (VObj (obj_set k v acc)) r4
                            else Malformed
                        end
                    | Malformed => Malformed
                    | OutOfFuel => OutOfFuel
                    end
                  else Malformed
              end
          end).
  rewrite (parse_chars_plain _ Hk). cbn [rev app].
  change (skip_ws (58%N :: ?x)) with (58%N :: x). cbv iota.
  change (58 =? 58)%N with true. cbv iota.
  now rewrite (parse_string _ _ _ Hs).
Qed.

Lemma plain_title : plain (js "title").
Proof. repeat constructor. Qed.

Lemma plain_filter : plain (js "filter").
Proof. repeat constructor. Qed.

Lemma parse_entry (n : nat) (e : list N * list N) (rest : list N) :
  plain_entry e ->
  parse_value (4 + n) (quoted_entry 34 e ++ rest)
  = Parsed (entry_value e) rest.
Proof.
  intros [Ht Hf]. rewrite quoted_entry_app.
  change (parse_value (4 + n) ((123%N :: 34%N :: ?k ++ ?x) ++ ?y))
    with (parse_members (S (S (S n))) (34%N :: k ++ x ++ y) []).
  cbn [app].
  rewrite (parse_member _ _ _ _ _ plain_title Ht).
  change (skip_ws (44%N :: ?x)) with (44%N :: x).
  cbv iota. change (44 =? 44)%N with true. cbv iota.
  change (parse_members (S (S n)) (32%N :: ?x) ?a)
    with (parse_members (S (S n)) x a).
  rewrite <- app_assoc. cbn [app].
  rewrite (parse_member _ _ _ _ _ plain_filter Hf).
  reflexivity.
Qed.

Lemma parse_elements_S (n : nat) (s : list N) (acc : list value) :
  parse_elements (S n) s acc
  = match parse_value n s with
    | Parsed v r =>
        match skip_ws r with
        | [] => Malformed
        | c :: r' =>
            if (c =? 44)%N then parse_elements n r' (v :: acc)
            else if (c =? 93)%N then Parsed (VArr (rev (v :: acc))) r'
            else Malformed
        end
    | Malformed => Malformed
    | OutOfFuel => OutOfFuel
    end.
Proof. reflexivity. Qed.

Lemma parse_value_space (n : nat) (s : list N) :
  parse_value n (32%N :: s) = parse_value n s.
Proof. now destruct n. Qed.

Lemma parse_elements_space (n : nat) (s : list N) (acc : list value) :
  parse_elements n (32%N :: s) acc = parse_elements n s acc.
Proof.
  destruct n; [reflexivity|]. now rewrite !parse_elements_S, parse_value_space.
Qed.

Lemma parse_entries (es : list (list N * list N)) :
  Forall plain_entry es ->
  forall e acc n rest,
    plain_entry e ->
    parse_elements (length es + 5 + n)
      (quoted_entry 34 e ++ quoted_more 34 es ++ 93%N :: rest) acc
    = Parsed (VArr (rev acc ++ entry_value e :: List.map entry_value es)) rest.
Proof.
  induction 1 as [|e' es He' Hes IH]; intros e acc n rest He.
  - cbn [length quoted_more app List.map].
    change (0 + 5 + n) with (S (4 + n)).
    rewrite parse_elements_S.
    rewrite (parse_entry n e (93%N :: rest) He).
    reflexivity.
  - cbn [length quoted_more List.map].
    replace (S (length es) + 5 + n) with (S (4 + (length es + 1 + n))) by lia.
    rewrite parse_elements_S, <- !app_assoc.
    rewrite (parse_entry _ e _ He).
    change (skip_ws (js ", " ++ ?x)) with (44%N :: 32%N :: x).
    cbv iota. change (44 =? 44)%N with true. cbv iota.
    rewrite parse_elements_space.
    replace (4 + (length es + 1 + n)) with (length es + 5 + n) by lia.
    rewrite (IH e' (entry_value e :: acc) n rest He').
    cbn [rev]. now rewrite <- app_assoc.
Qed.

Lemma quoted_more_length (q : N) (es : list (list N * list N)) :
  length es <= length (quoted_more q es).
Proof.
  induction es as [|e es IH]; [reflexivity|].
  cbn [quoted_more length]. rewrite !length_app.
  change (length (js ", ")) with 2. lia.
Qed.

Lemma JSON_parse_entries (e : list N * list N) (es : list (list N * list N)) :
  plain_entry e -> Forall plain_entry es ->
  JSON_parse (91%N :: quoted_entry 34 e ++ quoted_more 34 es ++ [93%N])
  = inl (VArr (entry_value e :: List.map entry_value es)).
Proof.
  intros He Hes. unfold JSON_parse.
  set (text := 91%N :: quoted_entry 34 e ++ quoted_more 34 es ++ [93%N]).
  assert (parse_value (S (length es + 5 + 0)) text
          = Parsed (VArr (entry_value e :: List.map entry_value es)) [])
    as Hparse.
  { subst text. rewrite quoted_entry_app.
    change (parse_value (S ?n) (91%N :: (123%N :: ?x) ++ ?y))
      with (parse_elements n ((123%N :: x) ++ y) []).
    rewrite <- quoted_entry_app.
    apply (parse_entries es Hes e [] 0 [] He). }
  destruct (parse_stable (S (length es + 5 + 0))) as (Hstable & _).
  rewrite (Hstable (S (2 * length text)) text), Hparse;
    [reflexivity| |rewrite Hparse; discriminate].
  subst text. cbn [length]. rewrite !length_app.
  pose proof (quoted_more_length 34 es).
  assert (1 <= length (quoted_entry 34 e)).
  { unfold quoted_entry. rewrite length_app. cbn [app length]. lia. }
  cbn [length]. lia.
Qed.

(** *** Locating the declaration *)

Lemma split_at_bracket (body rest : list N) :
  Forall (fun c => (93 =? c)%N = false) body ->
  split_at (js "];") (body ++ 93%N :: 59%N :: rest) = Some (body, rest).
Proof.
  change (js "];") with [93%N; 59%N].
  induction 1 as [|c body Hc Hbody IH]; [reflexivity|].
  cbn [app split_at strip_prefix]. now rewrite Hc, IH.
Qed.

Lemma plain_no_bracket (s : list N) :
  plain s -> Forall (fun c => (93 =? c)%N = false) s.
Proof.
  intros H. eapply Forall_impl; [exact H|]. intros c Hc.
  apply plain_char_cases in Hc as (_ & _ & _ & _ & _ & _ & Hc).
  now rewrite N.eqb_sym.
Qed.

Lemma render_entry_no_bracket (e : list N * list N) :
  plain_entry e -> Forall (fun c => (93 =? c)%N = false) (render_entry e).
Proof.
  intros [Ht Hf]. unfold render_entry.
  repeat (apply Forall_app; split); auto using plain_no_bracket;
    repeat constructor.
Qed.

Lemma render_more_no_bracket (es : list (list N * list N)) :
  Forall plain_entry es ->
  Forall (fun c => (93 =? c)%N = false) (render_more es).
Proof.
  induction 1 as [|e es He Hes IH]; [constructor|].
  cbn [render_more]. apply Forall_app. split; [repeat constructor|].
  apply Forall_app. split; [now apply render_entry_no_bracket|exact IH].
Qed.

Lemma match_declaration_rendered (e : list N * list N)
    (es : list (list N * list N)) (trailing_comma : bool) (rest : list N) :
  plain_entry e -> Forall plain_entry es ->
  match_declaration (js "catalog")
    (render_declaration (js "catalog") (render_literal e es trailing_comma)
       ++ rest)
  = Some (render_literal e es trailing_comma).
Proof.
  intros He Hes. unfold match_declaration, render_declaration, render_literal.
  change (split_at _ ((js "export const " ++ js "catalog" ++ js " = "
                         ++ (91%N :: ?b) ++ [59%N]) ++ ?r))
    with (Some ([] : list N, (b ++ [59%N]) ++ r)).
  cbv iota.
  set (body := render_entry e ++ render_more es
                 ++ (if trailing_comma then [44%N] else [])).
  replace (((render_entry e ++ render_more es
               ++ (if trailing_comma then [44%N] else []) ++ [93%N])
              ++ [59%N]) ++ rest)
    with (body ++ 93%N :: 59%N :: rest)
    by (subst body; now rewrite <- !app_assoc).
  rewrite split_at_bracket.
  - subst body. now rewrite <- !app_assoc.
  - subst body. apply Forall_app.
    split; [now apply render_entry_no_bracket|].
    apply Forall_app. split; [now apply render_more_no_bracket|].
    destruct trailing_comma; repeat constructor.
Qed.

(** X2. GET /catalog/:provider on a source that starts with a catalog
    declaration written as the providers write it (records with the keys
    [title] and [filter], single-quoted values without quotes, commas,
    colons, backslashes, closing brackets and control characters, with or
    without a comma after the last record): the answer has status 200 and
    its catalog is exactly the records of the declaration, in their
    order. *)
Theorem catalog_round_trip (w : world) (provider : list N)
    (e : list N * list N) (es : list (list N * list N))
    (trailing_comma : bool) (rest : list N) :
  plain_entry e -> Forall plain_entry es ->
  sources w !! provider
  = Some (render_declaration (js "catalog")
            (render_literal e es trailing_comma) ++ rest) ->
  exists genres w',
    catalog_route provider w
    = (w', Returned
             (Respond 200
                (VObj [ (js "catalog",
                         VArr (entry_value e :: List.map entry_value es));
                        (js "genres", VArr genres) ]))).
Proof.
  intros He Hes Hsrc.
  unfold catalog_route, try_catch, resolveCatalog. unfold bind at 1 2.
  rewrite Hsrc.
  destruct (extract_spec
              (render_declaration (js "catalog")
                 (render_literal e es trailing_comma) ++ rest) w)
    as (c & g & evs & -> & Hc & _).
  unfold decoded in Hc.
  rewrite (match_declaration_rendered _ _ _ _ He Hes),
    (normalize_literal _ _ _ He Hes), (JSON_parse_entries _ _ He Hes) in Hc.
  injection Hc as <-.
  eexists g, _. reflexivity.
Qed.

Lemma catalog_round_trip_witness :
  exists genres w',
    catalog_route (js "demo") demo_world
    = (w', Returned
             (Respond 200
                (VObj [ (js "catalog",
                         VArr [entry_value (js "Home", [])]);
                        (js "genres", VArr genres) ]))).
Proof.
  apply (catalog_round_trip demo_world (js "demo") (js "Home", []) [] true
           (js " export const genres = [{title: 'Action', filter: 'action'}];")).
  - split; repeat constructor.
  - constructor.
  - vm_compute. reflexivity.
Defined.

(** * The code over the host file system *)

(** ** Agreement with the first definitions

    Where no path the engine touches is a symbolic link, and where the
    source of the provider is not unreadable, the definitions of [Host]
    compute what the first definitions compute. *)

Lemma bind_agree {A B} (m m' : M A) (k : A -> M B) (w : world) :
  m w = m' w -> bind m k w = bind m' k w.
Proof. unfold bind. now intros ->. Qed.

Lemma try_catch_agree {A} (m m' : M A) (handler : exn -> M A) (w : world) :
  m w = m' w -> try_catch m handler w = try_catch m' handler w.
Proof. unfold try_catch. now intros ->. Qed.

Lemma Host_require_regular (links : gmap (list N) (list N)) (r : request)
    (w : world) :
  links !! filename (dirname w) r = None ->
  Host.require links r w = require r w.
Proof.
  intros H. unfold Host.require, require, Host.realpath. now rewrite H.
Qed.

Lemma Host_import_function_eq (links : gmap (list N) (list N))
    (provider functionName file : list N) :
  module_file functionName = Some file ->
  Host.import_function links provider functionName
  = (module <- Host.require links (ProviderModule provider file) ;;
     ret (member module functionName, Some (ProviderModule provider file))).
Proof.
  intros H. apply module_file_cases in H.
  destruct H as [[-> ->]|[[-> ->]|[[-> ->]|[[-> ->]|[-> ->]]]]]; reflexivity.
Qed.

Lemma Host_reload_function_eq (links : gmap (list N) (list N))
    (provider functionName file : list N) (providerFunction : value) :
  module_file functionName = Some file ->
  Host.reload_function links functionName providerFunction
                       (Some (ProviderModule provider file))
  = (cached <- is_cached (ProviderModule provider file) ;;
     if cached : bool then
       evict (ProviderModule provider file) ;;;
       module <- Host.require links (ProviderModule provider file) ;;
       ret (member module functionName)
     else ret providerFunction).
Proof.
  intros H. apply module_file_cases in H.
  destruct H as [[-> ->]|[[-> ->]|[[-> ->]|[[-> ->]|[-> ->]]]]]; reflexivity.
Qed.

Lemma Host_import_function_other (links : gmap (list N) (list N))
    (provider functionName : list N) :
  module_file functionName = None ->
  Host.import_function links provider functionName = ret (VUndefined, None).
Proof.
  unfold module_file, Host.import_function.
  repeat match goal with
  | |- context [if ?b then _ else _] => destruct b; try discriminate
  end.
  reflexivity.
Qed.

Lemma Host_load_provider_function_file (links : gmap (list N) (list N))
    (provider functionName file : list N) (w : world) :
  module_file functionName = Some file ->
  links !! filename (dirname w) (ProviderModule provider file) = None ->
  Host.load_provider_function links provider functionName w
  = load_provider_function provider functionName w.
Proof.
  intros Hf Hpath. apply try_catch_agree.
  rewrite (Host_import_function_eq _ _ _ _ Hf), (import_function_eq _ _ _ Hf).
  unfold bind. rewrite (Host_require_regular _ _ _ Hpath).
  destruct (require (ProviderModule provider file) w) as [w1 [module|e]] eqn:E;
    [|reflexivity].
  assert (dirname w1 = dirname w) as D.
  { eapply (Framed_require
              (fun root => [filename root (ProviderModule provider file)]));
      [intros root; now left|exact E]. }
  unfold ret. cbn [fst snd].
  rewrite (Host_reload_function_eq _ provider _ _ _ Hf),
    (reload_function_eq provider _ _ _ Hf).
  unfold bind, is_cached.
  destruct (bool_decide _); [|reflexivity].
  unfold evict. rewrite Host_require_regular; [reflexivity|].
  world_simpl. now rewrite D.
Qed.

Lemma Host_load_provider_function_regular (links : gmap (list N) (list N))
    (provider functionName : list N) (w : world) :
  (forall path, path ∈ provider_paths provider (dirname w) ->
                links !! path = None) ->
  Host.load_provider_function links provider functionName w
  = load_provider_function provider functionName w.
Proof.
  intros Hreg. destruct (module_file functionName) as [file|] eqn:Hf.
  - apply (Host_load_provider_function_file _ _ _ _ _ Hf), Hreg.
    now apply module_file_paths with functionName.
  - unfold Host.load_provider_function, load_provider_function.
    now rewrite (Host_import_function_other _ _ _ Hf),
      (import_function_other _ _ Hf).
Qed.

Lemma Host_executeProviderFunction_regular (links : gmap (list N) (list N))
    (provider functionName : list N) (params : gmap (list N) value)
    (w : world) :
  (forall path, path ∈ engine_paths provider (dirname w) ->
                links !! path = None) ->
  Host.executeProviderFunction links provider functionName params w
  = executeProviderFunction provider functionName params w.
Proof.
  intros Hreg.
  unfold Host.executeProviderFunction, executeProviderFunction, try_catch.
  match goal with
  | |- (let (_, _) := ?a in _) = (let (_, _) := ?b in _) =>
      assert (a = b) as ->; [|reflexivity]
  end.
  unfold bind at 1 4.
  rewrite Host_require_regular by (apply Hreg; now left).
  destruct (require Bundle w) as [w1 [bundle|e]] eqn:E; [|reflexivity].
  assert (dirname w1 = dirname w) as D.
  { eapply (Framed_require (fun root => [filename root Bundle]));
      [intros root; now left|exact E]. }
  cbv zeta.
  destruct (negb (truthy (property functionMap functionName)));
    [reflexivity|].
  unfold bind at 1 3.
  rewrite Host_load_provider_function_regular; [reflexivity|].
  intros path Hin. apply Hreg. rewrite <- D.
  now apply provider_paths_engine.
Qed.

Lemma Host_catalog_route_readable (unreadable : gmap (list N) exn)
    (provider : list N) (w : world) :
  unreadable !! provider = None ->
  Host.catalog_route unreadable provider w = catalog_route provider w.
Proof.
  intros H. apply try_catch_agree, bind_agree, bind_agree.
  unfold bind, Host.existsSync, Host.readFileSync. rewrite H.
  destruct (sources w !! provider) as [content|] eqn:Hs.
  - rewrite bool_decide_eq_true_2 by (right; eauto).
    cbv beta iota. now rewrite Hs.
  - rewrite bool_decide_eq_false_2; [reflexivity|].
    intros [[x Hx]|[x Hx]]; discriminate.
Qed.

(** ** Module files that are and are not symbolic links *)

(** X17. The reload, for files that are not symbolic links. Take a state
    in which the helper bundle loads, a provider identifier that is a
    single path component, whose module paths and the path of the bundle
    lead through no symbolic link, and a first call
    for that provider and a capability. Let the build then rewrite [dist]
    so that the file of the capability exports a function for it. The next
    call for the same provider and capability reads that file from disk
    again and runs the function it exports; afterwards the cache holds the
    new module. *)
Theorem regular_module_is_reloaded (links : gmap (list N) (list N))
    (w : world) (provider functionName file : list N)
    (params params' : gmap (list N) value)
    (bundle exports : gmap (list N) value)
    (d : option (gmap (list N) node)) (id : nat) :
  path_component provider = true ->
  (forall path, path ∈ engine_paths provider (dirname w) ->
                links !! path = None) ->
  bundle_exports w = Some bundle ->
  module_file functionName = Some file ->
  let w1 :=
    fst (Host.executeProviderFunction links provider functionName params w) in
  let w2 := set_dist d w1 in
  on_disk w2 (ProviderModule provider file) = Some (Compiled exports) ->
  exports !! functionName = Some (VFun id) ->
  exists w3 evs,
    Host.executeProviderFunction links provider functionName params' w2
    = (w3, closures w id
             (executionParams params' provider (VSignal (next_signal w2))
                (member bundle (js "providerContext"))))
    /\ trace w3 = trace w2 ++ evs
    /\ Loaded (filename (dirname w) (ProviderModule provider file)) ∈ evs
    /\ calls evs
       = [(id, executionParams params' provider (VSignal (next_signal w2))
                 (member bundle (js "providerContext")))]
    /\ require_cache w3 !! filename (dirname w) (ProviderModule provider file)
       = Some exports.
Proof.
  intros _ Hreg Hb Hf w1 w2 Hd He.
  assert (w1 = fst (executeProviderFunction provider functionName params w))
    as Hw1.
  { unfold w1. now rewrite Host_executeProviderFunction_regular. }
  assert (dirname w2 = dirname w) as D2.
  { unfold w2. world_simpl. rewrite Hw1.
    destruct (executeProviderFunction provider functionName params w)
      as [w' res] eqn:E.
    apply (Stable_executeProviderFunction _ _ _ _ _ _ E). }
  rewrite Host_executeProviderFunction_regular by now rewrite D2.
  subst w2. rewrite Hw1 in *.
  destruct (rebuilt_module_is_used w provider functionName file params params'
              bundle exports d id Hb Hf Hd He)
    as (w3 & evs & E & T & L & Q & C).
  exists w3, evs. auto.
Qed.

Lemma regular_module_is_reloaded_witness :
  let w1 :=
    fst (Host.executeProviderFunction ∅ (js "demo") (js "getPosts") ∅
           demo_world) in
  let w2 := set_dist (Some demo_dist_rebuilt) w1 in
  exists w3 evs,
    Host.executeProviderFunction ∅ (js "demo") (js "getPosts") ∅ w2
    = (w3, closures demo_world 2
             (executionParams ∅ (js "demo") (VSignal (next_signal w2))
                (member demo_bundle (js "providerContext"))))
    /\ trace w3 = trace w2 ++ evs
    /\ Loaded (filename (dirname demo_world)
                 (ProviderModule (js "demo") (js "posts.js"))) ∈ evs
    /\ calls evs
       = [(2%nat, executionParams ∅ (js "demo") (VSignal (next_signal w2))
                    (member demo_bundle (js "providerContext")))]
    /\ require_cache w3
       !! filename (dirname demo_world)
            (ProviderModule (js "demo") (js "posts.js"))
       = Some {[ js "getPosts" := VFun 2 ]}.
Proof.
  apply (regular_module_is_reloaded ∅ demo_world (js "demo") (js "getPosts")
           (js "posts.js") ∅ ∅ demo_bundle {[ js "getPosts" := VFun 2 ]}
           (Some demo_dist_rebuilt) 2);
    [reflexivity|intros path _; apply lookup_empty
    |vm_compute; reflexivity ..].
Defined.

(** X11. Lines 349-382 for a provider identifier that is a single path
    component, on a module file that loads and that is reached through no
    symbolic link: whatever the cache holds, the call evicts
    the module and reads the file from disk again; when the module was not
    cached, the file is read, and so run, twice in the one call. *)
Theorem module_load_events (links : gmap (list N) (list N))
    (provider functionName file : list N) (w : world)
    (exports : gmap (list N) value) :
  path_component provider = true ->
  module_file functionName = Some file ->
  on_disk w (ProviderModule provider file) = Some (Compiled exports) ->
  let path := filename (dirname w) (ProviderModule provider file) in
  links !! path = None ->
  let w' := fst (Host.load_provider_function links provider functionName w) in
  new_events w w'
  = (if bool_decide (is_Some (require_cache w !! path))
     then [Required path]
     else [Required path; Loaded path])
    ++ [Evicted path; Required path; Loaded path].
Proof.
  intros _ Hf Hd path Hreg.
  rewrite (Host_load_provider_function_file _ _ _ _ _ Hf Hreg).
  apply (load_events _ _ _ _ _ Hf Hd).
Qed.

Lemma module_load_events_witness :
  new_events demo_world
    (fst (Host.load_provider_function ∅ (js "demo") (js "getPosts")
            demo_world))
  = [ Required (js "/srv/dist/demo/posts.js");
      Loaded (js "/srv/dist/demo/posts.js");
      Evicted (js "/srv/dist/demo/posts.js");
      Required (js "/srv/dist/demo/posts.js");
      Loaded (js "/srv/dist/demo/posts.js") ].
Proof.
  pose proof (module_load_events ∅ (js "demo") (js "getPosts")
                (js "posts.js") demo_world {[ js "getPosts" := VFun 1 ]}
                eq_refl eq_refl eq_refl (lookup_empty _))
    as H.
  cbv zeta in H. rewrite H. vm_compute. reflexivity.
Defined.

(** X18. Lines 349-382 for a provider identifier that is a single path
    component, on a module file that is reached through a symbolic link,
    when nothing is cached under the path of the link itself: the
    check of line 370 fails and nothing is evicted. A module cached under
    the real path is returned as it is, without a look at the disk; an
    uncached one is read once and cached under the real path. *)
Theorem symlinked_module_never_evicted (links : gmap (list N) (list N))
    (provider functionName file real : list N) (w : world) :
  path_component provider = true ->
  module_file functionName = Some file ->
  let path := filename (dirname w) (ProviderModule provider file) in
  links !! path = Some real ->
  real <> path ->
  require_cache w !! path = None ->
  (forall cached,
      require_cache w !! real = Some cached ->
      Host.load_provider_function links provider functionName w
      = (record_event (Required path) w,
         Returned (member cached functionName)))
  /\ (forall exports,
        require_cache w !! real = None ->
        on_disk w (ProviderModule provider file) = Some (Compiled exports) ->
        Host.load_provider_function links provider functionName w
        = (record_event (Loaded real)
             (set_cache (<[real := exports]> (require_cache w))
                (record_event (Required path) w)),
           Returned (member exports functionName))).
Proof.
  intros _ Hf path Hl Hne Hraw.
  assert (Host.realpath links path = real) as Hreal
    by (unfold Host.realpath; now rewrite Hl).
  split.
  - intros cached Hc.
    unfold Host.load_provider_function, try_catch.
    rewrite (Host_import_function_eq _ _ _ _ Hf).
    unfold bind at 1 2. unfold Host.require at 1. cbv zeta. fold path.
    rewrite Hreal, Hc. unfold ret at 1. cbn [fst snd].
    rewrite (Host_reload_function_eq _ provider _ _ _ Hf).
    unfold bind, is_cached. world_simpl. fold path. rewrite Hraw.
    rewrite bool_decide_eq_false_2 by (intros [x Hx]; discriminate).
    reflexivity.
  - intros exports Hc Hd.
    unfold Host.load_provider_function, try_catch.
    rewrite (Host_import_function_eq _ _ _ _ Hf).
    unfold bind at 1 2. unfold Host.require at 1. cbv zeta. fold path.
    rewrite Hreal, Hc, Hd. unfold ret at 1. cbn [fst snd].
    rewrite (Host_reload_function_eq _ provider _ _ _ Hf).
    unfold bind, is_cached. world_simpl. fold path.
    rewrite lookup_insert_ne by exact Hne. rewrite Hraw.
    rewrite bool_decide_eq_false_2 by (intros [x Hx]; discriminate).
    reflexivity.
Qed.

Lemma symlinked_module_never_evicted_witness :
  let w1 :=
    fst (Host.load_provider_function demo_links (js "demo") (js "getPosts")
           demo_world) in
  let w2 := set_dist (Some demo_dist_rebuilt) w1 in
  Host.load_provider_function demo_links (js "demo") (js "getPosts") w2
  = (record_event (Required (js "/srv/dist/demo/posts.js")) w2,
     Returned (VFun 1)).
Proof.
  intros w1 w2.
  destruct (symlinked_module_never_evicted demo_links (js "demo")
              (js "getPosts") (js "posts.js") (js "/srv/build/demo/posts.js")
              w2 eq_refl eq_refl)
    as [H _]; [vm_compute; reflexivity|discriminate|vm_compute; reflexivity|].
  rewrite (H {[ js "getPosts" := VFun 1 ]}); [reflexivity|].
  vm_compute. reflexivity.
Defined.

(** X9. For a provider identifier that is a single path component, whose
    module paths and the path of the bundle lead through no symbolic link:
    a call that returns a value has called exactly one provider function,
    once, namely the function that the module file on disk exports under
    the name of the capability, a capability of the closed set; the value
    is what that function returned, and the provider is one the registry
    lists. *)
Theorem success_comes_from_disk (links : gmap (list N) (list N))
    (w w' : world) (provider functionName : list N)
    (params : gmap (list N) value) (v : value) :
  path_component provider = true ->
  (forall path, path ∈ engine_paths provider (dirname w) ->
                links !! path = None) ->
  Host.executeProviderFunction links provider functionName params w
  = (w', Returned v) ->
  exists file exports id args,
    module_file functionName = Some file
    /\ on_disk w (ProviderModule provider file) = Some (Compiled exports)
    /\ exports !! functionName = Some (VFun id)
    /\ calls (new_events w w') = [(id, args)]
    /\ closures w id args = Returned v
    /\ provider ∈ getAvailableProviders w.
Proof.
  intros _ Hreg E. rewrite Host_executeProviderFunction_regular in E by exact Hreg.
  exact (success_from_disk _ _ _ _ _ _ E).
Qed.

Lemma success_comes_from_disk_witness :
  exists file exports id args,
    module_file (js "getPosts") = Some file
    /\ on_disk demo_world (ProviderModule (js "demo") file)
       = Some (Compiled exports)
    /\ exports !! js "getPosts" = Some (VFun id)
    /\ calls (new_events demo_world
                (fst (Host.executeProviderFunction ∅ (js "demo")
                        (js "getPosts") ∅ demo_world)))
       = [(id, args)]
    /\ closures demo_world id args = Returned (VArr [VStr (js "old")])
    /\ js "demo" ∈ getAvailableProviders demo_world.
Proof.
  apply (success_comes_from_disk ∅ demo_world _ (js "demo") (js "getPosts") ∅
           (VArr [VStr (js "old")])).
  - reflexivity.
  - intros path _. apply lookup_empty.
  - vm_compute. reflexivity.
Defined.

(** ** The catalog route and a source that cannot be read *)

(** X3. GET /catalog/:provider answers every request. When the source file
    exists and cannot be read, the error of [readFileSync] reaches the
    outer handler: it is written to the console and the answer has status
    500 and the message of the error. In every other case the answer has
    status 200, a catalog that is an array with at least one entry and
    genres that are an array. *)
Theorem catalog_route_answers (unreadable : gmap (list N) exn) (w : world)
    (provider : list N) :
  match unreadable !! provider with
  | Some failure =>
      Host.catalog_route unreadable provider w
      = (record_event (ConsoleError (js "Catalog error:") (message failure)) w,
         Returned (Respond 500 (error_body (message failure))))
  | None =>
      exists catalog genres w',
        Host.catalog_route unreadable provider w
        = (w', Returned
                 (Respond 200
                    (VObj [ (js "catalog", VArr catalog);
                            (js "genres", VArr genres) ])))
        /\ catalog <> []
  end.
Proof.
  destruct (unreadable !! provider) as [failure|] eqn:Hu.
  - unfold Host.catalog_route, try_catch, Host.resolveCatalog.
    unfold bind at 1 2 3. unfold Host.existsSync.
    rewrite bool_decide_eq_true_2 by (left; eauto).
    unfold bind at 1. unfold Host.readFileSync. rewrite Hu. reflexivity.
  - rewrite (Host_catalog_route_readable _ _ _ Hu).
    apply catalog_route_readable_answers.
Qed.

Example catalog_route_unreadable :
  snd (Host.catalog_route demo_unreadable (js "demo") demo_world)
  = Returned
      (Respond 500
         (error_body (js "EISDIR: illegal operation on a directory, read")))
  /\ snd (catalog_route (js "demo") demo_world)
     = Returned
         (Respond 200
            (VObj [ (js "catalog", VArr [entry_value (js "Home", [])]);
                    (js "genres", VArr [entry_value (js "Action", js "action")]) ])).
Proof. split; vm_compute; reflexivity. Qed.

(** ** What a route handler does with a caught value *)

